(** * Intelligent ambulance routing: the priority loop over TraCI

    A shallow embedding of the three scripts of the repository

    - [ambulance_comm.py]  (module [AmbulanceComm]): the main priority loop,
    - [interface.py]       (module [Interface]): the dashboard's worker,
    - [generate_rsu.py]    (module [GenerateRsu]): the induction-loop writer,

    The simulator (SUMO, reached through TraCI) is external to the
    repository: it is an interface, the class [Traci], and every result
    holds for every simulator implementing it.  The scripts are state
    passing functions over the simulator handle, their own variables and the
    chronological list of the calls they issue and the lines they print.

    Conventions.  Python [int]s are [Z]; identifiers are strings of 8-bit
    characters and [str.lower] acts on the letters A-Z; a [dict] is a
    [gmap], a [set] a [gset].  In the scripts' loops the numbers the
    simulator reports (positions, speeds, lengths) are read as real
    numbers.  The helper [distance] is also given as the interpreter
    computes it, on IEEE 754 binary64 numbers with rounding, infinities,
    NaN and exceptions (module [Double]); what is proved about the helper
    is proved there. *)

From Stdlib Require Import Reals Lra ZArith String Ascii List.
From Stdlib Require Floats.
From stdpp Require Import gmap strings list pretty sorting.

Local Open Scope Z_scope.

(** ** Python built-ins used by the scripts *)

Module Py.

(** [c.lower()] on one character. *)
Definition lower_char (c : ascii) : ascii :=
  let n := nat_of_ascii c in
  if ((65 <=? n) && (n <=? 90))%nat then ascii_of_nat (n + 32) else c.

(** [s.lower()]. *)
Fixpoint lower (s : string) : string :=
  match s with
  | EmptyString => EmptyString
  | String c rest => String (lower_char c) (lower rest)
  end.

(** [hay.startswith(needle)]. *)
Fixpoint startswith (needle hay : string) : bool :=
  match needle, hay with
  | EmptyString, _ => true
  | String _ _, EmptyString => false
  | String a n', String b h' => Ascii.eqb a b && startswith n' h'
  end.

(** [needle in hay] on strings: [needle] occurs as a contiguous block. *)
Fixpoint str_in (needle hay : string) : bool :=
  startswith needle hay ||
  match hay with
  | EmptyString => false
  | String _ h' => str_in needle h'
  end.

(** [len(s)] on a string. *)
Definition len (s : string) : Z := Z.of_nat (String.length s).

(** Comparisons of floats, as booleans. *)
Definition Rltb (x y : R) : bool := if Rlt_dec x y then true else false.
Definition Rgtb (x y : R) : bool := Rltb y x.

End Py.

(** ** The helper [distance], the same in both scripts

    [distance] below is the formula of the helper on real numbers: it is
    the value the loops compare with 0 and with [PROACTIVE_DISTANCE]. *)

Definition point : Type := R * R.

Definition distance (p1 p2 : point) : R :=
  sqrt ((fst p1 - fst p2) ^ 2 + (snd p1 - snd p2) ^ 2).

Definition PROACTIVE_DISTANCE : R := 100.

(** ** The helper [distance] as the interpreter computes it

    A Python [float] is an IEEE 754 binary64 number.  [-] and [+] round to
    nearest, ties to even, and never raise.  [x ** 2] on a float [x] is
    CPython's [float_pow] with the exponent converted to the float 2.0; it
    settles NaN, the infinities, zero and 1 itself and leaves the rest to
    the C library's [pow], raising [OverflowError] when [errno] reports a
    range error.  [math.sqrt] is the C library's [sqrt], correctly rounded,
    raising [ValueError] for a negative argument.  The C library's [pow] is
    a parameter: nothing is assumed of it. *)

Module Double.
Import PrimFloat.
Local Open Scope float_scope.

Inductive Exception : Type := OverflowError | ValueError.

(** What a call does: it returns a float or raises. *)
Inductive Result : Type :=
| Returns (x : float)
| Raises (e : Exception).

(** What a C library function leaves in [errno]: nothing, a range error,
    or another error. *)
Inductive Errno : Type := E0 | ERANGE | EDOM.

Definition point : Type := float * float.

Section Libm.
Variable pow : float -> float -> float * Errno.

(** [iv ** 2]: [float_pow] at the exponent 2.0, which is neither zero,
    NaN nor infinite, is positive and is an even integer.  Before the
    test of [errno], a result [HUGE_VAL] or [-HUGE_VAL] without an error
    is made a range error, and a range error with the result 0.0 is
    dropped. *)
Definition float_pow_2 (iv : float) : Result :=
  if is_nan iv then Returns iv
  else if is_infinity iv then Returns (abs iv)
  else if iv =? 0 then Returns 0
  else
    let iv := if iv <? 0 then - iv else iv in
    if iv =? 1 then Returns 1
    else
      let '(ix, errno) := pow iv 2 in
      let errno :=
        match errno with
        | E0 => if is_infinity ix then ERANGE else E0
        | ERANGE => if ix =? 0 then E0 else ERANGE
        | EDOM => EDOM
        end in
      match errno with
      | E0 => Returns ix
      | ERANGE => Raises OverflowError
      | EDOM => Raises ValueError
      end.

(** [math.sqrt(x)]: a NaN from an argument that is none, and an infinity
    from a finite argument, are domain errors. *)
Definition math_sqrt (x : float) : Result :=
  let r := sqrt x in
  if is_nan r && negb (is_nan x) then Raises ValueError
  else if is_infinity r && is_finite x then Raises ValueError
  else Returns r.

(** [math.sqrt((p1[0] - p2[0]) ** 2 + (p1[1] - p2[1]) ** 2)], evaluated
    from left to right; an exception ends the call. *)
Definition distance (p1 p2 : point) : Result :=
  match float_pow_2 (fst p1 - fst p2) with
  | Raises e => Raises e
  | Returns a =>
      match float_pow_2 (snd p1 - snd p2) with
      | Raises e => Raises e
      | Returns b => math_sqrt (a + b)
      end
  end.

End Libm.

(** A C library whose [pow] gives the correctly rounded square at the
    exponent 2.0, the only exponent [distance] asks for, and leaves
    [errno] alone. *)
Definition rounded_square (x y : float) : float * Errno := (x * x, E0).

End Double.

(** ** The simulator, as the scripts see it

    One state type and the TraCI queries and commands the scripts call.
    Queries read the simulator; commands return the simulator after the
    command.  [vehicle_changeLane] is the one call the scripts guard with
    [try]: [None] stands for a raised [TraCIException], which leaves the
    simulator as it was. *)

Definition rgba : Type := Z * Z * Z * Z.

Class Traci (Sim : Type) : Type := {
  simulation_getMinExpectedNumber : Sim -> Z;
  simulationStep : Sim -> Sim;
  vehicle_getIDList : Sim -> list string;
  vehicle_getVehicleClass : Sim -> string -> string;
  vehicle_getPosition : Sim -> string -> point;
  vehicle_getRoadID : Sim -> string -> string;
  vehicle_getLaneIndex : Sim -> string -> Z;
  vehicle_getLaneID : Sim -> string -> string;
  vehicle_getSpeed : Sim -> string -> R;
  vehicle_getRoute : Sim -> string -> list string;
  vehicle_setColor : string -> rgba -> Sim -> Sim;
  vehicle_setSpeedMode : string -> Z -> Sim -> Sim;
  vehicle_changeLane : string -> Z -> R -> Sim -> option Sim;
  trafficlight_getIDList : Sim -> list string;
  trafficlight_getControlledLanes : Sim -> string -> list string;
  trafficlight_getProgram : Sim -> string -> string;
  trafficlight_getRedYellowGreenState : Sim -> string -> string;
  trafficlight_setRedYellowGreenState : string -> string -> Sim -> Sim;
  trafficlight_setProgram : string -> string -> Sim -> Sim;
  edge_getLaneNumber : Sim -> string -> Z;
  lane_getIDList : Sim -> list string;
  lane_getLength : Sim -> string -> R
}.

(** The commands a script issues, and the lines it prints. *)
Inductive Call : Type :=
| SimulationStep
| SetColor (veh_id : string) (color : rgba)
| SetSpeedMode (veh_id : string) (mode : Z)
| SetRedYellowGreenState (tl state : string)
| SetProgram (tl prog : string)
| ChangeLane (veh_id : string) (lane : Z) (duration : R).

Inductive Message : Type :=
| TakingControl (amb_id tl : string)
| StateLengthMismatch (tl : string)
| ReleasingControl (amb_id tl : string)
| Alerting (amb_id veh_id : string) (dist : Z)
| LaneChanged (amb_id before_lane_id after_lane_id : string)
| LaneChangeError (amb_id : string) (new_lane : Z)
| OthersStopping (amb_id : string)
| MovingFreely (amb_id : string).

Inductive Event : Type :=
| Called (c : Call)
| Printed (m : Message).

Definition RED : rgba := (255, 0, 0, 255).

Section Shared.
Context {Sim : Type} `{Traci Sim}.
Import Py.

(** The simulator after a command; a raised exception changes nothing. *)
Definition effect (c : Call) (s : Sim) : Sim :=
  match c with
  | SimulationStep => simulationStep s
  | SetColor v col => vehicle_setColor v col s
  | SetSpeedMode v m => vehicle_setSpeedMode v m s
  | SetRedYellowGreenState tl state => trafficlight_setRedYellowGreenState tl state s
  | SetProgram tl prog => trafficlight_setProgram tl prog s
  | ChangeLane v lane d => default s (vehicle_changeLane v lane d s)
  end.

Definition raises (c : Call) (s : Sim) : bool :=
  match c with
  | ChangeLane v lane d => bool_decide (vehicle_changeLane v lane d s = None)
  | _ => false
  end.

(** ["ambulance" in v.lower() or traci.vehicle.getVehicleClass(v) == "emergency"] *)
Definition is_ambulance (s : Sim) (v : string) : bool :=
  str_in "ambulance" (lower v) || String.eqb (vehicle_getVehicleClass s v) "emergency".

(** [any(amb_edge in lane for lane in controlled_lanes)] *)
Definition on_controlled_lanes (amb_edge : string) (controlled_lanes : list string) : bool :=
  existsb (str_in amb_edge) controlled_lanes.

(** [state = ''; for lane in controlled_lanes: state += 'G' or 'r'] *)
Definition signal_state (amb_edge : string) (controlled_lanes : list string) : string :=
  fold_left
    (fun state lane => state +:+ (if str_in amb_edge lane then "G" else "r"))
    controlled_lanes "".

(** The test of the alert scan on one vehicle, after the [continue] guard:
    same road, same lane index, in range and ahead. *)
Definition ahead_in_range (s : Sim) (amb_pos : point) (amb_edge : string)
    (amb_lane_index : Z) (veh_id : string) : bool :=
  let veh_edge := vehicle_getRoadID s veh_id in
  let veh_lane := vehicle_getLaneIndex s veh_id in
  let veh_pos := vehicle_getPosition s veh_id in
  String.eqb veh_edge amb_edge && (veh_lane =? amb_lane_index) &&
  (let dist := distance amb_pos veh_pos in
   Rltb 0 dist && Rltb dist PROACTIVE_DISTANCE && Rgtb (fst veh_pos) (fst amb_pos)).

(** [veh_id == amb_id or traci.vehicle.getVehicleClass(veh_id) == "emergency"] *)
Definition skipped (s : Sim) (amb_id veh_id : string) : bool :=
  String.eqb veh_id amb_id || String.eqb (vehicle_getVehicleClass s veh_id) "emergency".

Definition alerted (s : Sim) (amb_id : string) (amb_pos : point) (amb_edge : string)
    (amb_lane_index : Z) (veh_id : string) : bool :=
  negb (skipped s amb_id veh_id) && ahead_in_range s amb_pos amb_edge amb_lane_index veh_id.

End Shared.

(** ** [ambulance_comm.py] *)

Module AmbulanceComm.
Section Script.
Context {Sim : Type} `{Traci Sim}.
Import Py.

(** The script's variables: the simulator handle, the dict
    [original_tl_programs], the counter [step], and what the script has
    issued and printed so far (oldest first). *)
Record State : Type := mkState {
  sim : Sim;
  original_tl_programs : gmap string string;
  step : Z;
  out : list Event
}.

Definition print (m : Message) (st : State) : State :=
  mkState (sim st) (original_tl_programs st) (step st) (out st ++ [Printed m]).

Definition send (c : Call) (st : State) : State :=
  mkState (effect c (sim st)) (original_tl_programs st) (step st) (out st ++ [Called c]).

Definition set_programs (m : gmap string string) (st : State) : State :=
  mkState (sim st) m (step st) (out st).

(** Lines 49-52: the length guard around the override. *)
Definition override (tl state original_state : string) (st : State) : State :=
  if len state =? len original_state
  then send (SetRedYellowGreenState tl state) st
  else print (StateLengthMismatch tl) st.

(** Lines 36-38: the light's program is saved when control is first taken. *)
Definition take_control (amb_id tl : string) (st : State) : State :=
  match original_tl_programs st !! tl with
  | None =>
      print (TakingControl amb_id tl)
        (set_programs (<[tl := trafficlight_getProgram (sim st) tl]> (original_tl_programs st)) st)
  | Some _ => st
  end.

(** Lines 55-59: the saved program is put back and forgotten. *)
Definition release (amb_id tl : string) (st : State) : State :=
  match original_tl_programs st !! tl with
  | Some prog =>
      let st1 := print (ReleasingControl amb_id tl) st in
      let st2 := send (SetProgram tl prog) st1 in
      set_programs (delete tl (original_tl_programs st2)) st2
  | None => st
  end.

(** Lines 33-59: the body of [for tl in junctions]. *)
Definition process_tl (amb_id amb_edge : string) (st : State) (tl : string) : State :=
  let controlled_lanes := trafficlight_getControlledLanes (sim st) tl in
  if on_controlled_lanes amb_edge controlled_lanes then
    let st1 := take_control amb_id tl st in
    let original_state := trafficlight_getRedYellowGreenState (sim st1) tl in
    let state := signal_state amb_edge controlled_lanes in
    override tl state original_state st1
  else release amb_id tl st.

(** Lines 61-75: the scan stops at the first vehicle it alerts. *)
Fixpoint scan (s : Sim) (amb_id : string) (amb_pos : point) (amb_edge : string)
    (amb_lane_index : Z) (vehicles : list string) : option string :=
  match vehicles with
  | [] => None
  | veh_id :: rest =>
      if skipped s amb_id veh_id then scan s amb_id amb_pos amb_edge amb_lane_index rest
      else if ahead_in_range s amb_pos amb_edge amb_lane_index veh_id then Some veh_id
      else scan s amb_id amb_pos amb_edge amb_lane_index rest
  end.

(** Lines 81-86: the candidate lanes. *)
Definition lane_options (amb_lane_index num_lanes : Z) : list Z :=
  (if amb_lane_index + 1 <? num_lanes then [amb_lane_index + 1] else []) ++
  (if amb_lane_index - 1 >=? 0 then [amb_lane_index - 1] else []).

(** Lines 88-100: [for new_lane in options], with its [try], [break] and
    [continue]; the boolean is [changed]. *)
Fixpoint try_lanes (amb_id : string) (options : list Z) (st : State) : State * bool :=
  match options with
  | [] => (st, false)
  | new_lane :: rest =>
      let before_lane_id := vehicle_getLaneID (sim st) amb_id in
      let c := ChangeLane amb_id new_lane 10 in
      if raises c (sim st) then
        try_lanes amb_id rest (print (LaneChangeError amb_id new_lane) (send c st))
      else
        let st1 := send c st in
        let after_lane_id := vehicle_getLaneID (sim st1) amb_id in
        if negb (String.eqb after_lane_id before_lane_id) then
          (print (LaneChanged amb_id before_lane_id after_lane_id) st1, true)
        else try_lanes amb_id rest st1
  end.

(** Lines 78-106. *)
Definition react (amb_id amb_edge : string) (amb_lane_index : Z)
    (congestion_detected : bool) (st : State) : State :=
  if congestion_detected then
    let num_lanes := edge_getLaneNumber (sim st) amb_edge in
    let options := lane_options amb_lane_index num_lanes in
    let '(st1, changed) := try_lanes amb_id options st in
    if negb changed then print (OthersStopping amb_id) st1 else st1
  else print (MovingFreely amb_id) st.

(** Lines 23-106: the body of [for amb_id in ambulances]. *)
Definition process_ambulance (vehicles : list string) (st : State) (amb_id : string) : State :=
  let amb_pos := vehicle_getPosition (sim st) amb_id in
  let amb_edge := vehicle_getRoadID (sim st) amb_id in
  let amb_lane_index := vehicle_getLaneIndex (sim st) amb_id in
  let st1 := send (SetColor amb_id RED) st in
  let st2 := send (SetSpeedMode amb_id 0) st1 in
  let junctions := trafficlight_getIDList (sim st2) in
  let st3 := fold_left (process_tl amb_id amb_edge) junctions st2 in
  match scan (sim st3) amb_id amb_pos amb_edge amb_lane_index vehicles with
  | Some veh_id =>
      let dist := distance amb_pos (vehicle_getPosition (sim st3) veh_id) in
      react amb_id amb_edge amb_lane_index true
        (print (Alerting amb_id veh_id (Int_part dist)) st3)
  | None => react amb_id amb_edge amb_lane_index false st3
  end.

(** Lines 18-108: the body of the [while] loop. *)
Definition loop_body (st : State) : State :=
  let st1 := send SimulationStep st in
  let vehicles := vehicle_getIDList (sim st1) in
  let ambulances := List.filter (is_ambulance (sim st1)) vehicles in
  let st2 := fold_left (process_ambulance vehicles) ambulances st1 in
  mkState (sim st2) (original_tl_programs st2) (step st2 + 1) (out st2).

(** Lines 17-108: [while traci.simulation.getMinExpectedNumber() > 0].
    [fuel] bounds the number of iterations; [None] is "not finished yet". *)
Fixpoint main_loop (fuel : nat) (st : State) : option State :=
  if simulation_getMinExpectedNumber (sim st) >? 0 then
    match fuel with
    | O => None
    | S fuel' => main_loop fuel' (loop_body st)
    end
  else Some st.

(** Lines 11-16: the script's variables before the loop. *)
Definition initial (s : Sim) : State := mkState s ∅ 0 [].

End Script.
End AmbulanceComm.

(** ** [interface.py]: the simulation worker [run_simulation] *)

Module Interface.
Section Worker.
Context {Sim : Type} `{Traci Sim}.
Import Py.

(** One value of the dict [vehicle_data]. *)
Record VehicleData : Type := mkVehicleData {
  vd_speed : R;
  vd_class : string;
  vd_position : point;
  vd_stopped : bool;
  vd_is_ambulance : bool
}.

(** The module-level lists and dict shared with the plotting loop. *)
Record Logs : Type := mkLogs {
  time_log : list Z;
  ambulance_speed_log : list R;
  vehicle_alert_count : list Z;
  traffic_light_control_log : list Z;
  stopped_vehicle_counts : list Z;
  simulation_times : list Z;
  vehicle_data : gmap string VehicleData
}.

(** The worker's variables.  [logs] is the shared data; it changes only
    inside a [with log_lock:] block, and [released] records its value each
    time the lock is released (oldest first): these are the values another
    thread can see. *)
Record State : Type := mkState {
  sim : Sim;
  original_tl_programs : gmap string string;
  step : Z;
  total_alerted_this_step : Z;
  traffic_lights_controlled : Z;
  out : list Event;
  logs : Logs;
  released : list Logs
}.

Definition send (c : Call) (st : State) : State :=
  mkState (effect c (sim st)) (original_tl_programs st) (step st)
    (total_alerted_this_step st) (traffic_lights_controlled st)
    (out st ++ [Called c]) (logs st) (released st).

Definition set_programs (m : gmap string string) (st : State) : State :=
  mkState (sim st) m (step st) (total_alerted_this_step st)
    (traffic_lights_controlled st) (out st) (logs st) (released st).

Definition set_counters (alerted_total controlled_total : Z) (st : State) : State :=
  mkState (sim st) (original_tl_programs st) (step st) alerted_total controlled_total
    (out st) (logs st) (released st).

(** [with log_lock: block]: the block runs on the shared data with the
    lock held; the lock is released on the result. *)
Definition with_lock (block : Logs -> Logs) (st : State) : State :=
  let l := block (logs st) in
  mkState (sim st) (original_tl_programs st) (step st) (total_alerted_this_step st)
    (traffic_lights_controlled st) (out st) l (released st ++ [l]).

(** Lines 69-70: the length guard, without a message. *)
Definition override (tl state original_state : string) (st : State) : State :=
  if len state =? len original_state
  then send (SetRedYellowGreenState tl state) st
  else st.

(** Lines 60-61. *)
Definition take_control (tl : string) (st : State) : State :=
  match original_tl_programs st !! tl with
  | None => set_programs (<[tl := trafficlight_getProgram (sim st) tl]> (original_tl_programs st)) st
  | Some _ => st
  end.

(** Lines 57-70: the body of [for tl in junctions]; the second component
    is [controlled_this_ambulance]. *)
Definition process_tl (amb_edge : string) (acc : State * Z) (tl : string) : State * Z :=
  let '(st, controlled_this_ambulance) := acc in
  let controlled_lanes := trafficlight_getControlledLanes (sim st) tl in
  if on_controlled_lanes amb_edge controlled_lanes then
    let st1 := take_control tl st in
    let original_state := trafficlight_getRedYellowGreenState (sim st1) tl in
    let state := signal_state amb_edge controlled_lanes in
    (override tl state original_state st1, controlled_this_ambulance + 1)
  else acc.

(** Lines 74-86: the scan counts every vehicle it alerts. *)
Definition count_alerted (s : Sim) (amb_id : string) (amb_pos : point) (amb_edge : string)
    (vehicles : list string) : Z :=
  fold_left
    (fun alerted_vehicles_in_step veh_id =>
       if skipped s amb_id veh_id then alerted_vehicles_in_step
       else
         let amb_lane_index := vehicle_getLaneIndex s amb_id in
         if ahead_in_range s amb_pos amb_edge amb_lane_index veh_id
         then alerted_vehicles_in_step + 1
         else alerted_vehicles_in_step)
    vehicles 0.

(** Lines 90-94: the four appends made under one hold of the lock. *)
Definition log_ambulance (step : Z) (amb_speed : R) (alerted_total controlled_total : Z)
    (l : Logs) : Logs :=
  mkLogs (time_log l ++ [step]) (ambulance_speed_log l ++ [amb_speed])
    (vehicle_alert_count l ++ [alerted_total])
    (traffic_light_control_log l ++ [controlled_total])
    (stopped_vehicle_counts l) (simulation_times l) (vehicle_data l).

(** Lines 46-94: the body of [for amb_id in ambulances]. *)
Definition process_ambulance (vehicles : list string) (st : State) (amb_id : string) : State :=
  let amb_pos := vehicle_getPosition (sim st) amb_id in
  let amb_edge := vehicle_getRoadID (sim st) amb_id in
  let amb_speed := vehicle_getSpeed (sim st) amb_id in
  let st1 := send (SetColor amb_id RED) st in
  let st2 := send (SetSpeedMode amb_id 0) st1 in
  let junctions := trafficlight_getIDList (sim st2) in
  let '(st3, controlled_this_ambulance) :=
    fold_left (process_tl amb_edge) junctions (st2, 0) in
  let controlled_total := traffic_lights_controlled st3 + controlled_this_ambulance in
  let alerted_vehicles_in_step := count_alerted (sim st3) amb_id amb_pos amb_edge vehicles in
  let alerted_total := total_alerted_this_step st3 + alerted_vehicles_in_step in
  with_lock (log_ambulance (step st3) amb_speed alerted_total controlled_total)
    (set_counters alerted_total controlled_total st3).

(** Lines 43-44. *)
Definition clear_vehicle_data (l : Logs) : Logs :=
  mkLogs (time_log l) (ambulance_speed_log l) (vehicle_alert_count l)
    (traffic_light_control_log l) (stopped_vehicle_counts l) (simulation_times l) ∅.

(** Lines 99-110: one entry of [vehicle_data]. *)
Definition vehicle_entry (s : Sim) (veh_id : string) : VehicleData :=
  let speed := vehicle_getSpeed s veh_id in
  let vclass := vehicle_getVehicleClass s veh_id in
  let pos := vehicle_getPosition s veh_id in
  let stopped := Rltb speed (1 / 10) in
  let is_ambulance := str_in "ambulance" (lower veh_id) || String.eqb vclass "emergency" in
  mkVehicleData speed vclass pos stopped is_ambulance.

Definition counted (v : VehicleData) : bool := vd_stopped v && negb (vd_is_ambulance v).

(** Line 111: [sum(1 for v in vehicle_data.values() if ...)]. *)
Definition stopped_count (data : gmap string VehicleData) : Z :=
  Z.of_nat (size (filter (fun kv => counted (snd kv) = true) data)).

(** Lines 97-113: the block that fills [vehicle_data] and appends the
    stopped-vehicle count and the step. *)
Definition log_vehicles (s : Sim) (vehicles : list string) (step : Z) (l : Logs) : Logs :=
  let data :=
    fold_left (fun d veh_id => <[veh_id := vehicle_entry s veh_id]> d) vehicles (vehicle_data l) in
  mkLogs (time_log l) (ambulance_speed_log l) (vehicle_alert_count l)
    (traffic_light_control_log l)
    (stopped_vehicle_counts l ++ [stopped_count data]) (simulation_times l ++ [step]) data.

(** Lines 35-115: the body of the [while] loop. *)
Definition loop_body (st : State) : State :=
  let st1 := send SimulationStep st in
  let vehicles := vehicle_getIDList (sim st1) in
  let ambulances := List.filter (is_ambulance (sim st1)) vehicles in
  let st2 := with_lock clear_vehicle_data (set_counters 0 0 st1) in
  let st3 := fold_left (process_ambulance vehicles) ambulances st2 in
  let st4 := with_lock (log_vehicles (sim st3) vehicles (step st3)) st3 in
  mkState (sim st4) (original_tl_programs st4) (step st4 + 1)
    (total_alerted_this_step st4) (traffic_lights_controlled st4)
    (out st4) (logs st4) (released st4).

(** Lines 34-115, with [fuel] as in the main script. *)
Fixpoint worker_loop (fuel : nat) (st : State) : option State :=
  if simulation_getMinExpectedNumber (sim st) >? 0 then
    match fuel with
    | O => None
    | S fuel' => worker_loop fuel' (loop_body st)
    end
  else Some st.

(** Lines 15-21 and 31-32: empty logs, [step = 0], an empty dict. *)
Definition empty_logs : Logs := mkLogs [] [] [] [] [] [] ∅.

Definition initial (s : Sim) : State := mkState s ∅ 0 0 0 [] empty_logs [].

Definition run_simulation (fuel : nat) (s : Sim) : option State :=
  worker_loop fuel (initial s).

End Worker.
End Interface.

(** ** [generate_rsu.py] *)

Module GenerateRsu.
Section Script.
Context {Sim : Type} `{Traci Sim}.

(** Lines 15-18 and 25-27: the routes of the emergency vehicles present
    are added to the set. *)
Definition collect (s : Sim) (emergency_edges : gset string) : gset string :=
  fold_left
    (fun edges veh_id =>
       if String.eqb (vehicle_getVehicleClass s veh_id) "emergency"
       then edges ∪ list_to_set (vehicle_getRoute s veh_id)
       else edges)
    (vehicle_getIDList s) emergency_edges.

(** Lines 23-27: [for _ in range(n)]. *)
Fixpoint advance (n : nat) (s : Sim) (emergency_edges : gset string) : Sim * gset string :=
  match n with
  | O => (s, emergency_edges)
  | S n' =>
      let s1 := simulationStep s in
      advance n' s1 (collect s1 emergency_edges)
  end.

(** Lines 12-27. *)
Definition scan_edges (s : Sim) : Sim * gset string :=
  let emergency_edges := collect s ∅ in
  if decide (emergency_edges = ∅) then advance 200 s emergency_edges
  else (s, emergency_edges).

(** Line 37. *)
Definition rsu_pos (lane_length : R) : R :=
  Rmax 1 (Rmin (lane_length / 2) (lane_length - 1)).

(** Lines 32-38; [edges] is the set in the order Python iterates it. *)
Definition place (s : Sim) (edges : list string) : list (string * R) :=
  fold_left
    (fun (rsu_list : list (string * R)) edge_id =>
       let lane_id := edge_id +:+ "_0" in
       if bool_decide (lane_id ∈ lane_getIDList s)
       then rsu_list ++ [(lane_id, rsu_pos (lane_getLength s lane_id))]
       else rsu_list)
    edges [].

(** One [inductionLoop] element; [il_pos] is the number whose [str] is
    written. *)
Record InductionLoop : Type := mkInductionLoop {
  il_id : string;
  il_lane : string;
  il_pos : R;
  il_freq : string;
  il_file : string
}.

(** Lines 43-51. *)
Definition additional (rsu_list : list (string * R)) : list InductionLoop :=
  imap
    (fun i rsu =>
       mkInductionLoop ("rsu_" +:+ pretty i) (fst rsu) (snd rsu) "1" "ev_detection_output.xml")
    rsu_list.

(** Lines 12-54: the name of the file written and the children of its root
    element. *)
Definition generate_rsu (s : Sim) : string * list InductionLoop :=
  let '(s1, emergency_edges) := scan_edges s in
  ("osm.add.xml", additional (place s1 (elements emergency_edges))).

End Script.
End GenerateRsu.

(** ** A small simulator

    An implementation of [Traci] to run the scripts on: a scene of vehicles,
    lights, edges and lanes, and the scenes the next steps will bring.  A
    lane change is answered as the scene says for the requested lane: it is
    honoured at once, ignored, or refused with an exception. *)

Module Toy.

Record Vehicle : Type := mkVehicle {
  v_id : string;
  v_class : string;
  v_pos : point;
  v_road : string;
  v_lane_index : Z;
  v_speed : R;
  v_route : list string;
  v_color : rgba;
  v_speed_mode : Z
}.

Record Light : Type := mkLight {
  l_id : string;
  l_lanes : list string;
  l_program : string;
  l_state : string
}.

Inductive Answer : Type := Honour | Ignore | Refuse.

Record Scene : Type := mkScene {
  vehicles : list Vehicle;
  lights : list Light;
  lane_numbers : list (string * Z);
  lane_lengths : list (string * R);
  answers : list (Z * Answer);
  expected : Z
}.

Record Sim : Type := mkSim { now : Scene; later : list Scene }.

Definition nobody : Vehicle := mkVehicle "" "" (0%R, 0%R) "" 0 0%R [] (0, 0, 0, 0) 31.
Definition nothing : Light := mkLight "" [] "" "".
Definition finished : Scene := mkScene [] [] [] [] [] 0.

Definition vehicle (s : Sim) (id : string) : Vehicle :=
  default nobody (List.find (fun v => String.eqb (v_id v) id) (vehicles (now s))).

Definition light (s : Sim) (id : string) : Light :=
  default nothing (List.find (fun l => String.eqb (l_id l) id) (lights (now s))).

Definition lane_of (v : Vehicle) : string := v_road v +:+ "_" +:+ pretty (v_lane_index v).

Definition answer (s : Sim) (lane : Z) : Answer :=
  default Ignore (snd <$> List.find (fun a => fst a =? lane) (answers (now s))).

Definition update_vehicle (id : string) (f : Vehicle -> Vehicle) (s : Sim) : Sim :=
  let sc := now s in
  mkSim
    (mkScene
       (List.map (fun v => if String.eqb (v_id v) id then f v else v) (vehicles sc))
       (lights sc) (lane_numbers sc) (lane_lengths sc) (answers sc) (expected sc))
    (later s).

Definition update_light (id : string) (f : Light -> Light) (s : Sim) : Sim :=
  let sc := now s in
  mkSim
    (mkScene (vehicles sc)
       (List.map (fun l => if String.eqb (l_id l) id then f l else l) (lights sc))
       (lane_numbers sc) (lane_lengths sc) (answers sc) (expected sc))
    (later s).

Definition next (s : Sim) : Sim :=
  match later s with
  | [] => mkSim finished []
  | sc :: rest => mkSim sc rest
  end.

Definition change_lane (id : string) (lane : Z) (s : Sim) : option Sim :=
  match answer s lane with
  | Honour =>
      Some (update_vehicle id
              (fun v => mkVehicle (v_id v) (v_class v) (v_pos v) (v_road v) lane
                          (v_speed v) (v_route v) (v_color v) (v_speed_mode v)) s)
  | Ignore => Some s
  | Refuse => None
  end.

#[global] Instance traci : Traci Sim := {|
  simulation_getMinExpectedNumber s := expected (now s);
  simulationStep := next;
  vehicle_getIDList s := List.map v_id (vehicles (now s));
  vehicle_getVehicleClass s id := v_class (vehicle s id);
  vehicle_getPosition s id := v_pos (vehicle s id);
  vehicle_getRoadID s id := v_road (vehicle s id);
  vehicle_getLaneIndex s id := v_lane_index (vehicle s id);
  vehicle_getLaneID s id := lane_of (vehicle s id);
  vehicle_getSpeed s id := v_speed (vehicle s id);
  vehicle_getRoute s id := v_route (vehicle s id);
  vehicle_setColor id col :=
    update_vehicle id
      (fun v => mkVehicle (v_id v) (v_class v) (v_pos v) (v_road v) (v_lane_index v)
                  (v_speed v) (v_route v) col (v_speed_mode v));
  vehicle_setSpeedMode id m :=
    update_vehicle id
      (fun v => mkVehicle (v_id v) (v_class v) (v_pos v) (v_road v) (v_lane_index v)
                  (v_speed v) (v_route v) (v_color v) m);
  vehicle_changeLane id lane _ := change_lane id lane;
  trafficlight_getIDList s := List.map l_id (lights (now s));
  trafficlight_getControlledLanes s id := l_lanes (light s id);
  trafficlight_getProgram s id := l_program (light s id);
  trafficlight_getRedYellowGreenState s id := l_state (light s id);
  trafficlight_setRedYellowGreenState id state :=
    update_light id (fun l => mkLight (l_id l) (l_lanes l) (l_program l) state);
  trafficlight_setProgram id prog :=
    update_light id (fun l => mkLight (l_id l) (l_lanes l) prog (l_state l));
  edge_getLaneNumber s edge :=
    default 0 (snd <$> List.find (fun e => String.eqb (fst e) edge) (lane_numbers (now s)));
  lane_getIDList s := List.map fst (lane_lengths (now s));
  lane_getLength s lane :=
    default 0%R (snd <$> List.find (fun e => String.eqb (fst e) lane) (lane_lengths (now s)))
|}.

(** A two-lane road [e1] with the lights [tl1] and [tl3] on it and the
    light [tl2] elsewhere; [ambulance_1] follows the cars [car_1] and
    [car_2] on lane 0. *)
Definition ambulance_1 : Vehicle :=
  mkVehicle "ambulance_1" "emergency" (10%R, 0%R) "e1" 0 12%R ["e1"; "e2"] (255, 255, 255, 255) 31.
Definition car_1 : Vehicle :=
  mkVehicle "car_1" "passenger" (40%R, 0%R) "e1" 0 0%R ["e1"] (255, 255, 0, 255) 31.
Definition car_2 : Vehicle :=
  mkVehicle "car_2" "passenger" (70%R, 0%R) "e1" 0 3%R ["e1"] (255, 255, 0, 255) 31.
Definition tl1 : Light := mkLight "tl1" ["e1_0"; "e1_1"; "e9_0"] "0" "rrG".
Definition tl2 : Light := mkLight "tl2" ["e7_0"; "e8_0"] "0" "Gr".
Definition tl3 : Light := mkLight "tl3" ["e1_0"; "e9_0"] "0" "rrGG".

Definition road (answers : list (Z * Answer)) (expected : Z) : Scene :=
  mkScene [ambulance_1; car_1; car_2] [tl1; tl2; tl3] [("e1", 2); ("e2", 1)]
    [("e1_0", 80%R); ("e1_1", 80%R); ("e2_0", 1%R)] answers expected.

Definition lonely_road (expected : Z) : Scene :=
  mkScene [ambulance_1] [tl1; tl2; tl3] [("e1", 2); ("e2", 1)]
    [("e1_0", 80%R); ("e1_1", 80%R); ("e2_0", 1%R)] [] expected.

Definition empty_road (expected : Z) : Scene :=
  mkScene [] [tl1; tl2; tl3] [("e1", 2); ("e2", 1)]
    [("e1_0", 80%R); ("e1_1", 80%R); ("e2_0", 1%R)] [] expected.

(** A road [e5] with one lane only: [ambulance_2] follows [car_3] on
    lane 0. *)
Definition ambulance_2 : Vehicle :=
  mkVehicle "ambulance_2" "emergency" (10%R, 0%R) "e5" 0 12%R ["e5"] (255, 255, 255, 255) 31.
Definition car_3 : Vehicle :=
  mkVehicle "car_3" "passenger" (40%R, 0%R) "e5" 0 0%R ["e5"] (255, 255, 0, 255) 31.

Definition narrow_road (expected : Z) : Scene :=
  mkScene [ambulance_2; car_3] [tl2] [("e5", 1)] [("e5_0", 80%R)] [] expected.

(** Three vehicles on three roads: [Ambulance_7] is marked by its name
    only, written with a capital; [van_1] by its class only; [car_4] by
    neither. *)
Definition Ambulance_7 : Vehicle :=
  mkVehicle "Ambulance_7" "passenger" (10%R, 0%R) "e5" 0 12%R ["e5"] (255, 255, 255, 255) 31.
Definition van_1 : Vehicle :=
  mkVehicle "van_1" "emergency" (10%R, 0%R) "e6" 0 9%R ["e6"] (0, 0, 255, 255) 31.
Definition car_4 : Vehicle :=
  mkVehicle "car_4" "passenger" (40%R, 0%R) "e7" 0 0%R ["e7"] (255, 255, 0, 255) 31.

Definition mixed_road (expected : Z) : Scene :=
  mkScene [Ambulance_7; van_1; car_4] [tl2] [("e5", 1); ("e6", 1); ("e7", 1)]
    [("e5_0", 80%R); ("e6_0", 80%R); ("e7_0", 80%R)] [] expected.

End Toy.

(** ** Vocabulary of the statements *)

(** [needle] occurs in [hay] as a contiguous block of characters. *)
Definition occurs_in (needle hay : string) : Prop :=
  exists pre post, hay = pre +:+ needle +:+ post.

(** The signal state as a recursion over the lanes: one mark per lane,
    ['G'] for a lane of the ambulance's road and ['r'] for any other. *)
Fixpoint marks (amb_edge : string) (controlled_lanes : list string) : string :=
  match controlled_lanes with
  | [] => ""
  | lane :: rest =>
      String (if Py.str_in amb_edge lane then "G"%char else "r"%char) (marks amb_edge rest)
  end.

(** What a script has issued and printed between two of its states. *)
Definition issued (before after : list Event) : list Event :=
  drop (length before) after.

(** The simulator after the events [evs], replayed in order from [s]: a
    call is the TraCI command of its name, a lane change that raises leaves
    the simulator as it was, and so does a printed line. *)
Section Replay.
Context {Sim : Type} `{Traci Sim}.

Definition replay (evs : list Event) (s : Sim) : Sim :=
  fold_left
    (fun s e =>
       match e with
       | Called SimulationStep => simulationStep s
       | Called (SetColor veh_id color) => vehicle_setColor veh_id color s
       | Called (SetSpeedMode veh_id mode) => vehicle_setSpeedMode veh_id mode s
       | Called (SetRedYellowGreenState tl state) =>
           trafficlight_setRedYellowGreenState tl state s
       | Called (SetProgram tl prog) => trafficlight_setProgram tl prog s
       | Called (ChangeLane veh_id lane duration) =>
           match vehicle_changeLane veh_id lane duration s with
           | Some s' => s'
           | None => s
           end
       | Printed _ => s
       end)
    evs s.

(** The simulator [s'] and the log [o'] are reached from [s] and [o]: the
    log has grown by some events, and replaying them from [s] gives [s']. *)
Definition replayed (s : Sim) (o : list Event) (s' : Sim) (o' : list Event) : Prop :=
  exists evs, o' = o ++ evs /\ s' = replay evs s.

End Replay.


(** The lanes asked for by the lane-change commands among some events. *)
Definition lanes_asked (evs : list Event) : list Z :=
  omap (fun e => match e with Called (ChangeLane _ lane _) => Some lane | _ => None end) evs.

(** Events of the traffic-light phase of an ambulance's turn, and of its
    lane-change phase. *)
Definition about_light (e : Event) : bool :=
  match e with
  | Called (SetRedYellowGreenState _ _) | Called (SetProgram _ _)
  | Printed (TakingControl _ _) | Printed (StateLengthMismatch _)
  | Printed (ReleasingControl _ _) => true
  | _ => false
  end.

Definition about_lane_change (amb_id : string) (e : Event) : bool :=
  match e with
  | Called (ChangeLane v _ _) => String.eqb v amb_id
  | Printed (LaneChanged _ _ _) | Printed (LaneChangeError _ _)
  | Printed (OthersStopping _) | Printed (MovingFreely _) => true
  | _ => false
  end.

(** The events of one ambulance's turn in a step, in either script: the
    two commands on the ambulance, then the traffic-light phase, then at
    most one alert line, then the lane-change phase. *)
Definition turn (amb_id : string) (evs : list Event) : Prop :=
  exists lights alert lane_evs,
    evs = [Called (SetColor amb_id RED); Called (SetSpeedMode amb_id 0)]
            ++ lights ++ alert ++ lane_evs
    /\ forallb about_light lights = true
    /\ (alert = [] \/ exists veh_id dist, alert = [Printed (Alerting amb_id veh_id dist)])
    /\ forallb (about_lane_change amb_id) lane_evs = true.

(** The events of a step: the simulation step, then one turn per
    ambulance, in the order of the list. *)
Definition turns (ambulances : list string) (evs : list Event) : Prop :=
  exists chunks, evs = concat chunks /\ Forall2 turn ambulances chunks.

(** How many times the simulation has been advanced among some events. *)
Definition steps_taken (evs : list Event) : nat :=
  length (List.filter (fun e => match e with Called SimulationStep => true | _ => false end) evs).

(** The lane-change rule of the main script, in words: the candidates are
    tried in order; an attempt that raises is logged and the next candidate
    is tried; an attempt after which the ambulance's lane identifier is what
    it was is followed by the next candidate; trying stops at the first
    attempt after which the identifier has changed.  [tried amb_id options
    st st' changed] relates the state before the attempts to the state after
    them. *)
Section LaneChangeRule.
Context {Sim : Type} `{Traci Sim}.
Import AmbulanceComm.
Local Abbreviation State := (@State Sim).

Inductive tried (amb_id : string) : list Z -> State -> State -> bool -> Prop :=
| tried_none (st : State) :
    tried amb_id [] st st false
| tried_raised (new_lane : Z) (rest : list Z) (st st' : State) (changed : bool) :
    vehicle_changeLane amb_id new_lane 10 (sim st) = None ->
    tried amb_id rest
      (print (LaneChangeError amb_id new_lane) (send (ChangeLane amb_id new_lane 10) st))
      st' changed ->
    tried amb_id (new_lane :: rest) st st' changed
| tried_unchanged (new_lane : Z) (rest : list Z) (st st' : State) (s1 : Sim) (changed : bool) :
    vehicle_changeLane amb_id new_lane 10 (sim st) = Some s1 ->
    vehicle_getLaneID s1 amb_id = vehicle_getLaneID (sim st) amb_id ->
    tried amb_id rest (send (ChangeLane amb_id new_lane 10) st) st' changed ->
    tried amb_id (new_lane :: rest) st st' changed
| tried_changed (new_lane : Z) (rest : list Z) (st : State) (s1 : Sim) :
    vehicle_changeLane amb_id new_lane 10 (sim st) = Some s1 ->
    vehicle_getLaneID s1 amb_id <> vehicle_getLaneID (sim st) amb_id ->
    tried amb_id (new_lane :: rest) st
      (print (LaneChanged amb_id (vehicle_getLaneID (sim st) amb_id)
                (vehicle_getLaneID s1 amb_id))
         (send (ChangeLane amb_id new_lane 10) st))
      true.

(** The main script's state when the alert scan of [amb_id] starts: colour
    and speed mode are set and every light has been visited. *)
Definition before_scan (st : State) (amb_id : string) : State :=
  let amb_edge := vehicle_getRoadID (sim st) amb_id in
  let st2 := send (SetSpeedMode amb_id 0) (send (SetColor amb_id RED) st) in
  fold_left (process_tl amb_id amb_edge) (trafficlight_getIDList (sim st2)) st2.

(** The vehicle the main script's scan of [amb_id] stops at, if any. *)
Definition detected (vehicles : list string) (st : State) (amb_id : string) : option string :=
  scan (sim (before_scan st amb_id)) amb_id
    (vehicle_getPosition (sim st) amb_id) (vehicle_getRoadID (sim st) amb_id)
    (vehicle_getLaneIndex (sim st) amb_id) vehicles.

End LaneChangeRule.

(** The dashboard's worker. *)
Section WorkerVocabulary.
Context {Sim : Type} `{Traci Sim}.
Import Interface.
Local Abbreviation State := (@State Sim).

(** A part of the worker that touches neither the shared data nor the
    worker's counters. *)
Definition untouched (st st' : State) : Prop :=
  logs st' = logs st /\ released st' = released st /\ step st' = step st
  /\ total_alerted_this_step st' = total_alerted_this_step st
  /\ traffic_lights_controlled st' = traffic_lights_controlled st.

(** The list lengths agree: the four per-ambulance lists among
    themselves, and the two per-step lists. *)
Definition aligned (l : Logs) : Prop :=
  length (time_log l) = length (ambulance_speed_log l)
  /\ length (time_log l) = length (vehicle_alert_count l)
  /\ length (time_log l) = length (traffic_light_control_log l)
  /\ length (stopped_vehicle_counts l) = length (simulation_times l).

(** The worker's state of a step when every ambulance has had its turn,
    just before the block that fills [vehicle_data]. *)
Definition served (st : State) : State :=
  let st1 := send SimulationStep st in
  let vehicles := vehicle_getIDList (sim st1) in
  let ambulances := List.filter (is_ambulance (sim st1)) vehicles in
  fold_left (process_ambulance vehicles) ambulances
    (with_lock clear_vehicle_data (set_counters 0 0 st1)).

(** The worker's state when the alert scan of [amb_id] starts, with the
    number of lights found on the ambulance's road. *)
Definition worker_before_scan (st : State) (amb_id : string) : State * Z :=
  let amb_edge := vehicle_getRoadID (sim st) amb_id in
  let st2 := send (SetSpeedMode amb_id 0) (send (SetColor amb_id RED) st) in
  fold_left (process_tl amb_edge) (trafficlight_getIDList (sim st2)) (st2, 0).

(** A vehicle the stopped-vehicle count is about: slower than 0.1 and not
    an ambulance. *)
Definition stopped_other (s : Sim) (veh_id : string) : Prop :=
  (vehicle_getSpeed s veh_id < 1 / 10)%R /\ is_ambulance s veh_id = false.

#[export] Instance stopped_other_dec (s : Sim) (veh_id : string) :
  Decision (stopped_other s veh_id).
Proof.
  unfold stopped_other. apply and_dec; [apply Rlt_dec | apply _].
Defined.

End WorkerVocabulary.

(** ** Vocabulary of the further properties *)

(** The line that closes an ambulance's turn in the main script. *)
Definition status_line (e : Event) : bool :=
  match e with
  | Printed (LaneChanged _ _ _) | Printed (OthersStopping _) | Printed (MovingFreely _) => true
  | _ => false
  end.

(** The commands the dashboard's worker issues. *)
Definition quiet (e : Event) : bool :=
  match e with
  | Called SimulationStep | Called (SetColor _ _) | Called (SetSpeedMode _ _)
  | Called (SetRedYellowGreenState _ _) => true
  | _ => false
  end.

(** How often control of the light [tl] was taken, how often it was
    released, and how often its program was set, among some events. *)
Definition is_take (tl : string) (e : Event) : bool :=
  match e with Printed (TakingControl _ t) => String.eqb t tl | _ => false end.
Definition is_release (tl : string) (e : Event) : bool :=
  match e with Printed (ReleasingControl _ t) => String.eqb t tl | _ => false end.
Definition is_restore (tl : string) (e : Event) : bool :=
  match e with Called (SetProgram t _) => String.eqb t tl | _ => false end.

Definition takes (tl : string) (evs : list Event) : nat := length (List.filter (is_take tl) evs).
Definition releases (tl : string) (evs : list Event) : nat :=
  length (List.filter (is_release tl) evs).
Definition restores (tl : string) (evs : list Event) : nat :=
  length (List.filter (is_restore tl) evs).

(** The main script's books are balanced: each light was taken once more
    than released if it has a saved program, and as often as released if
    it has none; and its program was set as often as it was released. *)
Definition balanced (programs : gmap string string) (evs : list Event) : Prop :=
  forall tl,
    takes tl evs = (releases tl evs + (if programs !! tl is Some _ then 1 else 0))%nat
    /\ restores tl evs = releases tl evs.

(** An event that is no take, release or restore of any light. *)
Definition neutral (e : Event) : bool :=
  match e with
  | Printed (TakingControl _ _) | Printed (ReleasingControl _ _) | Called (SetProgram _ _) => false
  | _ => true
  end.

(** ** Facts about the built-ins *)

Section PyFacts.
Import Py.

Lemma Rltb_true (x y : R) : Rltb x y = true <-> (x < y)%R.
Proof. unfold Rltb. destruct (Rlt_dec x y); split; intros; try done. Qed.

Lemma Rltb_false (x y : R) : Rltb x y = false <-> (y <= x)%R.
Proof.
  unfold Rltb. destruct (Rlt_dec x y); split; intros; try done; lra.
Qed.

Lemma startswith_spec (n h : string) :
  startswith n h = true <-> exists t, h = n +:+ t.
Proof.
  revert h. induction n as [|a n IH]; intros h; simpl.
  - split; [exists h; reflexivity | done].
  - destruct h as [|b h].
    + split; [done | intros [t Ht]; discriminate].
    + rewrite andb_true_iff, IH. split.
      * intros [Hab [t ->]]. apply Ascii.eqb_eq in Hab as ->. by exists t.
      * intros [t Ht]. injection Ht as -> ->. split; [apply Ascii.eqb_refl | by exists t].
Qed.

Lemma str_in_spec (n h : string) :
  str_in n h = true <-> exists pre post, h = pre +:+ n +:+ post.
Proof.
  induction h as [|b h IH]; simpl.
  - rewrite orb_false_r, startswith_spec. split.
    + intros [t Ht]. by exists "", t.
    + intros [pre [post H]]. destruct pre; [by exists post | discriminate].
  - rewrite orb_true_iff, startswith_spec, IH. split.
    + intros [[t Ht] | [pre [post Ht]]].
      * by exists "", t.
      * exists (String b pre), post. simpl. by rewrite Ht.
    + intros [pre [post Ht]]. destruct pre as [|c pre]; simpl in Ht.
      * left. by exists post.
      * right. injection Ht as -> ->. by exists pre, post.
Qed.

Lemma append_cons (x : ascii) (a b : string) : String x a +:+ b = String x (a +:+ b).
Proof. reflexivity. Qed.

Lemma append_empty_l (a : string) : "" +:+ a = a.
Proof. reflexivity. Qed.

Lemma append_assoc (a b c : string) : (a +:+ b) +:+ c = a +:+ (b +:+ c).
Proof. induction a as [|x a IH]; [done | by rewrite !append_cons, IH]. Qed.

Lemma append_empty_r (a : string) : a +:+ "" = a.
Proof. induction a as [|x a IH]; [done | by rewrite append_cons, IH]. Qed.

Lemma length_append (a b : string) :
  String.length (a +:+ b) = (String.length a + String.length b)%nat.
Proof. induction a as [|x a IH]; [done | rewrite append_cons; simpl; by rewrite IH]. Qed.

Lemma append_inj_r (a b c : string) : a +:+ c = b +:+ c -> a = b.
Proof.
  revert b. induction a as [|x a IH]; intros [|y b] Heq.
  - done.
  - apply (f_equal String.length) in Heq.
    rewrite !length_append in Heq. simpl in Heq. lia.
  - apply (f_equal String.length) in Heq.
    rewrite !length_append in Heq. simpl in Heq. lia.
  - rewrite !append_cons in Heq. injection Heq as -> Heq. by rewrite (IH b Heq).
Qed.

Lemma str_in_occurs (n h : string) : str_in n h = true <-> occurs_in n h.
Proof. apply str_in_spec. Qed.

Lemma str_in_not_occurs (n h : string) : str_in n h = false <-> ~ occurs_in n h.
Proof. rewrite <- str_in_occurs. by destruct (str_in n h). Qed.

Lemma len_eq (a b : string) : (len a =? len b) = true <-> String.length a = String.length b.
Proof. unfold len. rewrite Z.eqb_eq. lia. Qed.

Lemma len_neq (a b : string) : (len a =? len b) = false <-> String.length a <> String.length b.
Proof. unfold len. rewrite Z.eqb_neq. lia. Qed.

End PyFacts.

(** ** The signal state built for a light *)

Section SignalState.
Import Py.

Lemma signal_state_from (amb_edge : string) (lanes : list string) (acc : string) :
  fold_left (fun state lane => state +:+ (if str_in amb_edge lane then "G" else "r")) lanes acc
  = acc +:+ marks amb_edge lanes.
Proof.
  revert acc. induction lanes as [|lane rest IH]; intros acc; simpl.
  - by rewrite append_empty_r.
  - rewrite IH. by destruct (str_in amb_edge lane); rewrite append_assoc.
Qed.

Lemma signal_state_marks (amb_edge : string) (lanes : list string) :
  signal_state amb_edge lanes = marks amb_edge lanes.
Proof. unfold signal_state. by rewrite signal_state_from. Qed.

Lemma marks_length (amb_edge : string) (lanes : list string) :
  String.length (marks amb_edge lanes) = length lanes.
Proof. induction lanes as [|lane rest IH]; simpl; [done | by rewrite IH]. Qed.

Lemma marks_get (amb_edge : string) (lanes : list string) (i : nat) :
  String.get i (marks amb_edge lanes)
  = (fun lane => if str_in amb_edge lane then "G"%char else "r"%char) <$> lanes !! i.
Proof.
  revert i. induction lanes as [|lane rest IH]; intros [|i]; simpl; done.
Qed.

Lemma on_controlled_lanes_occurs (amb_edge : string) (lanes : list string) :
  on_controlled_lanes amb_edge lanes = true
  <-> exists lane, lane ∈ lanes /\ occurs_in amb_edge lane.
Proof.
  unfold on_controlled_lanes. rewrite existsb_exists. split.
  - intros [lane [Hin Hs]]. exists lane. by rewrite list_elem_of_In, <- str_in_occurs.
  - intros [lane [Hin Hs]]. exists lane. by rewrite <- list_elem_of_In, str_in_occurs.
Qed.

Lemma issued_app (before evs : list Event) : issued before (before ++ evs) = evs.
Proof. unfold issued. apply drop_app_length. Qed.

Lemma issued_same (before : list Event) : issued before before = [].
Proof. unfold issued. apply drop_all. Qed.

End SignalState.

(** ** The helper [distance] *)

Lemma distance_level (x1 x2 y : R) : distance (x1, y) (x2, y) = Rabs (x1 - x2).
Proof.
  unfold distance. simpl.
  replace ((x1 - x2) * ((x1 - x2) * 1) + (y - y) * ((y - y) * 1))%R
    with (Rsqr (x1 - x2)) by (unfold Rsqr; ring).
  apply sqrt_Rsqr_abs.
Qed.

(** ** The helper [distance] on binary64 *)

Section DoubleFacts.
Import PrimFloat SpecFloat FloatOps FloatAxioms Double.
Local Open Scope float_scope.

(** *** Tests on a float, read on its sign, mantissa and exponent *)

Lemma SFcompare_refl (X : spec_float) : X <> S754_nan -> SFcompare X X = Some Eq.
Proof.
  destruct X as [s | s | | s m e]; [by destruct s | by destruct s | done |].
  intros _. cbn [SFcompare]. rewrite Z.compare_refl, Pos.compare_cont_refl. by destruct s.
Qed.

Lemma is_nan_spec (x : float) :
  is_nan x = match Prim2SF x with S754_nan => true | _ => false end.
Proof.
  unfold is_nan. rewrite eqb_spec. unfold SFeqb.
  destruct (Prim2SF x) as [s | s | | s m e] eqn:E; [| | done |];
    by rewrite SFcompare_refl.
Qed.

Lemma is_infinity_spec (x : float) :
  is_infinity x = match Prim2SF x with S754_infinity _ => true | _ => false end.
Proof.
  unfold is_infinity. rewrite eqb_spec, abs_spec.
  change (Prim2SF infinity) with (S754_infinity false).
  by destruct (Prim2SF x) as [s | s | | s m e].
Qed.

Lemma eqb_zero_spec (x : float) :
  (x =? 0) = match Prim2SF x with S754_zero _ => true | _ => false end.
Proof.
  rewrite eqb_spec. change (Prim2SF 0) with (S754_zero false).
  by destruct (Prim2SF x) as [s | [] | | [] m e].
Qed.

Lemma ltb_zero_spec (x : float) :
  (x <? 0) = match Prim2SF x with
             | S754_infinity true | S754_finite true _ _ => true
             | _ => false
             end.
Proof.
  rewrite ltb_spec. change (Prim2SF 0) with (S754_zero false).
  by destruct (Prim2SF x) as [s | [] | | [] m e].
Qed.

Lemma is_finite_spec (x : float) :
  is_finite x = match Prim2SF x with S754_zero _ | S754_finite _ _ _ => true | _ => false end.
Proof.
  unfold is_finite. rewrite is_nan_spec, is_infinity_spec.
  by destruct (Prim2SF x).
Qed.

Lemma binary_round_abs (s : bool) (m : positive) (e : Z) :
  SFabs (binary_round prec emax s m e) = SFabs (binary_round prec emax false m e).
Proof.
  unfold binary_round. destruct (shl_align _ _ _) as [mz ez].
  unfold binary_round_aux.
  destruct (shr_fexp prec emax (Z.pos mz) ez loc_Exact) as [mrs' e'].
  destruct (shr_fexp prec emax _ e' loc_Exact) as [mrs'' e''].
  destruct (shr_m mrs''); [done | | done]. by destruct (_ <=? _)%Z.
Qed.

Lemma binary_normalize_abs (m e : Z) :
  SFabs (binary_normalize prec emax (- m) e false) = SFabs (binary_normalize prec emax m e false).
Proof.
  destruct m as [|p|p]; cbn [Z.opp binary_normalize]; [done | |].
  - apply binary_round_abs.
  - symmetry. apply binary_round_abs.
Qed.

Lemma SFsub_abs (X Y : spec_float) : SFabs (SF64sub X Y) = SFabs (SF64sub Y X).
Proof.
  destruct X as [sx | sx | | sx mx ex], Y as [sy | sy | | sy my ey];
    try (by destruct sx, sy); try done.
  unfold SF64sub, SFsub. rewrite (Z.min_comm ey ex).
  rewrite <- binary_normalize_abs. f_equal. f_equal. lia.
Qed.

Lemma abs_sub_swap (x y : float) : abs (x - y) = abs (y - x).
Proof. apply Prim2SF_inj. rewrite !abs_spec, !sub_spec. apply SFsub_abs. Qed.

Lemma abs_abs (x : float) : abs (abs x) = abs x.
Proof. apply Prim2SF_inj. rewrite !abs_spec. by destruct (Prim2SF x). Qed.

Lemma float_pow_2_abs (pow : float -> float -> float * Errno) (x : float) :
  float_pow_2 pow x = float_pow_2 pow (abs x).
Proof.
  unfold float_pow_2.
  rewrite !is_nan_spec, !is_infinity_spec, !eqb_zero_spec, !ltb_zero_spec, !abs_spec.
  destruct (Prim2SF x) as [s | s | | s m e] eqn:E; cbn [SFabs].
  - done.
  - by rewrite abs_abs.
  - f_equal. apply Prim2SF_inj. by rewrite abs_spec, E.
  - assert (Hx : (if (if s then true else false) then - x else x) = abs x).
    { apply Prim2SF_inj. rewrite abs_spec, E. destruct s; [| done].
      by rewrite opp_spec, E. }
    by rewrite Hx.
Qed.

Lemma distance_swap (pow : float -> float -> float * Errno) (p q : point) :
  distance pow p q = distance pow q p.
Proof.
  unfold distance.
  rewrite (float_pow_2_abs pow (fst p - fst q)), (float_pow_2_abs pow (snd p - snd q)).
  rewrite (float_pow_2_abs pow (fst q - fst p)), (float_pow_2_abs pow (snd q - snd p)).
  by rewrite (abs_sub_swap (fst p)), (abs_sub_swap (snd p)).
Qed.

Lemma sqrt_sign (x : float) : is_nan (sqrt x) = true \/ (0 <=? sqrt x) = true.
Proof.
  rewrite is_nan_spec, leb_spec, sqrt_spec. change (Prim2SF 0) with (S754_zero false).
  destruct (Prim2SF x) as [s | [] | | [] m e]; cbn [SF64sqrt SFsqrt]; auto.
  destruct (SFsqrt_core_binary _ _ _ _) as [[mz ez] lz].
  unfold binary_round_aux.
  destruct (shr_fexp prec emax mz ez lz) as [mrs' e'].
  destruct (shr_fexp prec emax _ e' loc_Exact) as [mrs'' e''].
  destruct (shr_m mrs''); [by right | | by left].
  destruct (_ <=? _)%Z; by right.
Qed.

Lemma math_sqrt_sign (x r : float) :
  math_sqrt x = Returns r -> is_nan r = true \/ (0 <=? r) = true.
Proof.
  unfold math_sqrt. repeat case_match; try done. intros [= <-]. apply sqrt_sign.
Qed.

Lemma distance_sign (pow : float -> float -> float * Errno) (p q : point) (r : float) :
  distance pow p q = Returns r -> is_nan r = true \/ (0 <=? r) = true.
Proof.
  unfold distance. repeat case_match; try done. apply math_sqrt_sign.
Qed.

Lemma sub_diag (x : float) : x - x = if is_finite x then 0 else nan.
Proof.
  apply Prim2SF_inj. rewrite sub_spec, is_finite_spec.
  destruct (Prim2SF x) as [[] | [] | | s m e]; try done.
  unfold SF64sub, SFsub. by rewrite Z.sub_diag.
Qed.

Lemma distance_diag (pow : float -> float -> float * Errno) (p : point) :
  distance pow p p
  = Returns (if is_finite (fst p) && is_finite (snd p) then 0 else nan).
Proof.
  unfold distance. rewrite !sub_diag.
  by destruct (is_finite (fst p)), (is_finite (snd p)).
Qed.

(** C9: [distance], as the interpreter computes it on binary64 numbers
    with any C library, gives the same result for [p], [q] and for [q],
    [p]: the same float or the same exception.  A float it returns is NaN
    or not below zero.  From a point to itself it returns 0.0 when both
    coordinates are finite and NaN when one is infinite or NaN. *)
Theorem distance_binary64 (pow : float -> float -> float * Errno) (p q : point) :
  distance pow p q = distance pow q p
  /\ (forall r, distance pow p q = Returns r -> is_nan r = true \/ (0 <=? r) = true)
  /\ distance pow p p = Returns (if is_finite (fst p) && is_finite (snd p) then 0 else nan)
  /\ (is_finite (fst p) && is_finite (snd p) = true -> distance pow p p = Returns 0).
Proof.
  split_and!.
  - apply distance_swap.
  - apply distance_sign.
  - apply distance_diag.
  - intros Hfin. by rewrite distance_diag, Hfin.
Qed.

(** With a correctly rounded square, the distance between (0, 0) and
    (3, 4) is 5.0 in both orders, and from (3, 4) to itself it is 0.0. *)
Lemma distance_binary64_witness :
  distance rounded_square (0, 0) (3, 4) = Returns 5
  /\ distance rounded_square (3, 4) (0, 0) = Returns 5
  /\ (0 <=? 5) = true
  /\ distance rounded_square (3, 4) (3, 4) = Returns 0.
Proof.
  destruct (distance_binary64 rounded_square (3, 4) (0, 0)) as (Hswap & Hsign & _ & Hdiag).
  assert (H5 : distance rounded_square (0, 0) (3, 4) = Returns 5) by (vm_compute; reflexivity).
  split; [exact H5 |]. split; [by rewrite Hswap |].
  split; [| apply Hdiag; vm_compute; reflexivity].
  rewrite Hswap in Hsign. destruct (Hsign 5 H5) as [Hnan | Hle]; [| exact Hle].
  vm_compute in Hnan. discriminate.
Defined.

(** From the point (inf, 0) to itself [distance] returns NaN, with any C
    library: NaN is not 0 and is not at least 0.  Between (0, 0) and (1, 1)
    it returns the float nearest to the square root of 2, whose square is
    not 2.  With a correctly rounded square the call between (0, 0) and
    (1e200, 0) raises [OverflowError], and between (0, 0) and (1e-200, 0),
    two different points, it returns 0.0. *)
Lemma distance_at_infinity :
  (forall pow, distance pow (infinity, 0) (infinity, 0) = Returns nan)
  /\ (nan =? 0) = false
  /\ (0 <=? nan) = false
  /\ (forall pow, distance pow (0, 0) (1, 1) = Returns (sqrt 2))
  /\ (sqrt 2 * sqrt 2 =? 2) = false
  /\ distance rounded_square (0, 0) (0x1.4e718d7d7625ap+664, 0) = Raises OverflowError
  /\ distance rounded_square (0, 0) (0x1.87e92154ef7acp-665, 0) = Returns 0.
Proof.
  split; [intros pow; vm_compute; reflexivity |].
  split; [vm_compute; reflexivity |]. split; [vm_compute; reflexivity |].
  split; [intros pow; vm_compute; reflexivity |].
  split; [vm_compute; reflexivity |].
  split; vm_compute; reflexivity.
Qed.

End DoubleFacts.

(** ** Turns: what the events of a step can be *)

Section Turns.

Lemma forallb_excludes {A : Type} (f : A -> bool) (l : list A) (x : A) :
  forallb f l = true -> f x = false -> ~ In x l.
Proof.
  intros Hall Hx Hin. rewrite forallb_forall in Hall.
  specialize (Hall x Hin). congruence.
Qed.

Lemma turn_inv (amb_id : string) (evs : list Event) (e : Event) :
  turn amb_id evs -> In e evs ->
  e = Called (SetColor amb_id RED) \/ e = Called (SetSpeedMode amb_id 0)
  \/ about_light e = true
  \/ (exists veh_id dist, e = Printed (Alerting amb_id veh_id dist))
  \/ about_lane_change amb_id e = true.
Proof.
  intros [lights [alert [lane_evs [-> [Hl [Ha Hc]]]]]] Hin.
  simpl in Hin. destruct Hin as [<- | [<- | Hin]]; [by left | by right; left |].
  rewrite !in_app_iff in Hin. destruct Hin as [Hin | [Hin | Hin]].
  - right; right; left. rewrite forallb_forall in Hl. by apply Hl.
  - right; right; right; left. destruct Ha as [-> | [v [d ->]]]; [done |].
    destruct Hin as [<- | []]. by exists v, d.
  - right; right; right; right. rewrite forallb_forall in Hc. by apply Hc.
Qed.

Lemma turn_set_color (amb_id : string) (evs : list Event) (v : string) (c : rgba) :
  turn amb_id evs -> In (Called (SetColor v c)) evs <-> v = amb_id /\ c = RED.
Proof.
  intros Ht. split.
  - intros Hin. destruct (turn_inv _ _ _ Ht Hin) as [He | [He | [He | [[u [d He]] | He]]]];
      try discriminate. by injection He as -> ->.
  - intros [-> ->]. destruct Ht as [lights [alert [lane_evs [-> _]]]]. by left.
Qed.

Lemma turn_set_speed_mode (amb_id : string) (evs : list Event) (v : string) (m : Z) :
  turn amb_id evs -> In (Called (SetSpeedMode v m)) evs <-> v = amb_id /\ m = 0.
Proof.
  intros Ht. split.
  - intros Hin. destruct (turn_inv _ _ _ Ht Hin) as [He | [He | [He | [[u [d He]] | He]]]];
      try discriminate. by injection He as -> ->.
  - intros [-> ->]. destruct Ht as [lights [alert [lane_evs [-> _]]]]. right. by left.
Qed.


Lemma turn_alerting (amb_id : string) (evs : list Event) (a v : string) (d : Z) :
  turn amb_id evs -> In (Printed (Alerting a v d)) evs -> a = amb_id.
Proof.
  intros Ht Hin.
  destruct (turn_inv _ _ _ Ht Hin) as [He | [He | [He | [[u [d' He]] | He]]]];
    try discriminate. by injection He as -> _ _.
Qed.

Lemma steps_taken_app (l k : list Event) :
  steps_taken (l ++ k) = (steps_taken l + steps_taken k)%nat.
Proof. unfold steps_taken. by rewrite List.filter_app, length_app. Qed.

Lemma steps_taken_none (evs : list Event) :
  ~ In (Called SimulationStep) evs -> steps_taken evs = 0%nat.
Proof.
  unfold steps_taken. induction evs as [|e evs IH]; simpl; [done |].
  intros Hn. destruct e as [[] | m]; simpl;
    try (apply IH; intros Hin; apply Hn; by right).
  exfalso. apply Hn. by left.
Qed.

Lemma turn_steps (amb_id : string) (evs : list Event) :
  turn amb_id evs -> steps_taken evs = 0%nat.
Proof.
  intros Ht. apply steps_taken_none. intros Hin.
  destruct (turn_inv _ _ _ Ht Hin) as [He | [He | [He | [[u [d He]] | He]]]]; discriminate.
Qed.

Lemma Forall2_In_r {A B : Type} (P : A -> B -> Prop) (l : list A) (k : list B) (y : B) :
  Forall2 P l k -> In y k -> exists x, In x l /\ P x y.
Proof.
  induction 1 as [|x y' l k Hp Hall IH]; intros Hin; [done |].
  destruct Hin as [<- | Hin].
  - exists x. split; [by left | done].
  - destruct (IH Hin) as [x' [Hx Hp']]. exists x'. split; [by right | done].
Qed.

Lemma Forall2_In_l {A B : Type} (P : A -> B -> Prop) (l : list A) (k : list B) (x : A) :
  Forall2 P l k -> In x l -> exists y, In y k /\ P x y.
Proof.
  induction 1 as [|x' y l k Hp Hall IH]; intros Hin; [done |].
  destruct Hin as [<- | Hin].
  - exists y. split; [by left | done].
  - destruct (IH Hin) as [y' [Hy Hp']]. exists y'. split; [by right | done].
Qed.

Lemma turns_in (ambulances : list string) (evs : list Event) (e : Event) :
  turns ambulances evs -> In e evs ->
  exists amb_id chunk, In amb_id ambulances /\ turn amb_id chunk /\ In e chunk.
Proof.
  intros [chunks [-> Hall]] Hin. apply in_concat in Hin as [chunk [Hc He]].
  destruct (Forall2_In_r _ _ _ _ Hall Hc) as [amb [Ha Ht]].
  by exists amb, chunk.
Qed.

Lemma turns_of (ambulances : list string) (evs : list Event) (amb_id : string) :
  turns ambulances evs -> In amb_id ambulances ->
  exists chunk, turn amb_id chunk /\ forall e, In e chunk -> In e evs.
Proof.
  intros [chunks [-> Hall]] Hin.
  destruct (Forall2_In_l _ _ _ _ Hall Hin) as [chunk [Hc Ht]].
  exists chunk. split; [done |]. intros e He. apply in_concat. by exists chunk.
Qed.

Lemma turns_set_color (ambulances : list string) (evs : list Event) (v : string) (c : rgba) :
  turns ambulances evs -> In (Called (SetColor v c)) evs <-> In v ambulances /\ c = RED.
Proof.
  intros Ht. split.
  - intros Hin. destruct (turns_in _ _ _ Ht Hin) as [amb [chunk [Ha [Hc He]]]].
    apply (turn_set_color _ _ _ _ Hc) in He as [-> ->]. by split.
  - intros [Hin ->]. destruct (turns_of _ _ _ Ht Hin) as [chunk [Hc Hsub]].
    apply Hsub. by apply (turn_set_color _ _ _ _ Hc).
Qed.

Lemma turns_set_speed_mode (ambulances : list string) (evs : list Event) (v : string) (m : Z) :
  turns ambulances evs -> In (Called (SetSpeedMode v m)) evs <-> In v ambulances /\ m = 0.
Proof.
  intros Ht. split.
  - intros Hin. destruct (turns_in _ _ _ Ht Hin) as [amb [chunk [Ha [Hc He]]]].
    apply (turn_set_speed_mode _ _ _ _ Hc) in He as [-> ->]. by split.
  - intros [Hin ->]. destruct (turns_of _ _ _ Ht Hin) as [chunk [Hc Hsub]].
    apply Hsub. by apply (turn_set_speed_mode _ _ _ _ Hc).
Qed.

Lemma turns_steps (ambulances : list string) (evs : list Event) :
  turns ambulances evs -> steps_taken evs = 0%nat.
Proof.
  intros Ht. apply steps_taken_none. intros Hin.
  destruct (turns_in _ _ _ Ht Hin) as [amb [chunk [Ha [Hc He]]]].
  apply turn_steps in Hc. unfold steps_taken in Hc.
  apply (f_equal (fun n => (0 <? n)%nat)) in Hc. simpl in Hc.
  assert (Hf : In (Called SimulationStep)
                 (List.filter (fun e => match e with Called SimulationStep => true | _ => false end)
                    chunk)) by (by apply filter_In).
  destruct (List.filter _ chunk); [done | discriminate].
Qed.

End Turns.

(** ** The main script: what each part changes and issues *)

Section MainFacts.
Context {Sim : Type} `{Traci Sim}.
Import Py AmbulanceComm.
Local Abbreviation State := (@State Sim).

Lemma take_control_sim (amb_id tl : string) (st : State) :
  sim (take_control amb_id tl st) = sim st.
Proof. unfold take_control. by destruct (original_tl_programs st !! tl). Qed.

Lemma take_control_programs (amb_id tl : string) (st : State) :
  original_tl_programs (take_control amb_id tl st)
  = match original_tl_programs st !! tl with
    | None => <[tl := trafficlight_getProgram (sim st) tl]> (original_tl_programs st)
    | Some _ => original_tl_programs st
    end.
Proof. unfold take_control. by destruct (original_tl_programs st !! tl). Qed.

Lemma take_control_out (amb_id tl : string) (st : State) :
  out (take_control amb_id tl st)
  = out st ++ match original_tl_programs st !! tl with
              | None => [Printed (TakingControl amb_id tl)]
              | Some _ => []
              end.
Proof.
  unfold take_control. destruct (original_tl_programs st !! tl); simpl.
  - by rewrite app_nil_r.
  - done.
Qed.

Lemma process_tl_on (amb_id amb_edge tl : string) (st : State) :
  on_controlled_lanes amb_edge (trafficlight_getControlledLanes (sim st) tl) = true ->
  process_tl amb_id amb_edge st tl
  = override tl (signal_state amb_edge (trafficlight_getControlledLanes (sim st) tl))
      (trafficlight_getRedYellowGreenState (sim st) tl) (take_control amb_id tl st).
Proof. intros Hon. unfold process_tl. by rewrite Hon, take_control_sim. Qed.

Lemma process_tl_off (amb_id amb_edge tl : string) (st : State) :
  on_controlled_lanes amb_edge (trafficlight_getControlledLanes (sim st) tl) = false ->
  process_tl amb_id amb_edge st tl = release amb_id tl st.
Proof. intros Hoff. unfold process_tl. by rewrite Hoff. Qed.

Lemma override_out (tl state original_state : string) (st : State) :
  out (override tl state original_state st)
  = out st ++ [if len state =? len original_state
               then Called (SetRedYellowGreenState tl state)
               else Printed (StateLengthMismatch tl)].
Proof. unfold override. by destruct (len state =? len original_state). Qed.

Lemma override_programs (tl state original_state : string) (st : State) :
  original_tl_programs (override tl state original_state st) = original_tl_programs st.
Proof. unfold override. by destruct (len state =? len original_state). Qed.

Lemma override_step (tl state original_state : string) (st : State) :
  step (override tl state original_state st) = step st.
Proof. unfold override. by destruct (len state =? len original_state). Qed.

Lemma release_out (amb_id tl : string) (st : State) :
  out (release amb_id tl st)
  = out st ++ match original_tl_programs st !! tl with
              | Some prog => [Printed (ReleasingControl amb_id tl); Called (SetProgram tl prog)]
              | None => []
              end.
Proof.
  unfold release. destruct (original_tl_programs st !! tl); simpl.
  - by rewrite <- app_assoc.
  - by rewrite app_nil_r.
Qed.

Lemma process_tl_out (amb_id amb_edge tl : string) (st : State) :
  exists evs, out (process_tl amb_id amb_edge st tl) = out st ++ evs
              /\ forallb about_light evs = true.
Proof.
  destruct (on_controlled_lanes amb_edge (trafficlight_getControlledLanes (sim st) tl)) eqn:Hon.
  - rewrite process_tl_on by done. rewrite override_out, take_control_out, <- app_assoc.
    eexists. split; [done |].
    rewrite forallb_app. by destruct (original_tl_programs st !! tl), (len _ =? len _).
  - rewrite process_tl_off by done. rewrite release_out.
    eexists. split; [done |]. by destruct (original_tl_programs st !! tl).
Qed.

Lemma process_tl_step (amb_id amb_edge tl : string) (st : State) :
  step (process_tl amb_id amb_edge st tl) = step st.
Proof.
  unfold process_tl, take_control, release, override.
  repeat (case_match; simpl); done.
Qed.

Lemma junctions_out (amb_id amb_edge : string) (junctions : list string) (st : State) :
  exists evs, out (fold_left (process_tl amb_id amb_edge) junctions st) = out st ++ evs
              /\ forallb about_light evs = true.
Proof.
  revert st. induction junctions as [|tl rest IH]; intros st; simpl.
  - exists []. by rewrite app_nil_r.
  - destruct (IH (process_tl amb_id amb_edge st tl)) as [evs2 [-> H2]].
    destruct (process_tl_out amb_id amb_edge tl st) as [evs1 [-> H1]].
    exists (evs1 ++ evs2). by rewrite <- app_assoc, forallb_app, H1, H2.
Qed.

Lemma junctions_step (amb_id amb_edge : string) (junctions : list string) (st : State) :
  step (fold_left (process_tl amb_id amb_edge) junctions st) = step st.
Proof.
  revert st. induction junctions as [|tl rest IH]; intros st; simpl; [done |].
  by rewrite IH, process_tl_step.
Qed.

Lemma scan_find (s : Sim) (amb_id : string) (amb_pos : point) (amb_edge : string)
    (amb_lane_index : Z) (vehicles : list string) :
  scan s amb_id amb_pos amb_edge amb_lane_index vehicles
  = List.find (alerted s amb_id amb_pos amb_edge amb_lane_index) vehicles.
Proof.
  induction vehicles as [|v rest IH]; simpl; [done |]. unfold alerted at 1.
  destruct (skipped s amb_id v); simpl; [done |].
  by destruct (ahead_in_range s amb_pos amb_edge amb_lane_index v).
Qed.

Lemma scan_first (s : Sim) (amb_id : string) (amb_pos : point) (amb_edge : string)
    (amb_lane_index : Z) (vehicles : list string) (veh_id : string) :
  scan s amb_id amb_pos amb_edge amb_lane_index vehicles = Some veh_id
  <-> exists before after,
        vehicles = before ++ veh_id :: after
        /\ alerted s amb_id amb_pos amb_edge amb_lane_index veh_id = true
        /\ forall u, u ∈ before -> alerted s amb_id amb_pos amb_edge amb_lane_index u = false.
Proof.
  rewrite scan_find. induction vehicles as [|v rest IH]; simpl.
  - split; [done |]. intros [before [after [Heq _]]]. by destruct before.
  - destruct (alerted s amb_id amb_pos amb_edge amb_lane_index v) eqn:Hv.
    + split.
      * intros [= <-]. exists [], rest. repeat split; [done |]. intros u Hu. by inversion Hu.
      * intros [[|b before] [after [Heq [Ha Hb]]]]; simpl in Heq.
        -- by injection Heq as ->.
        -- injection Heq as -> _. rewrite Hb in Hv; [done | left].
    + rewrite IH. split.
      * intros [before [after [-> [Ha Hb]]]]. exists (v :: before), after.
        repeat split; [done |]. intros u Hu. inversion Hu; subst; [done | by apply Hb].
      * intros [[|b before] [after [Heq [Ha Hb]]]]; simpl in Heq.
        -- injection Heq as -> _. congruence.
        -- injection Heq as -> ->. exists before, after. repeat split; [done |].
           intros u Hu. apply Hb. by right.
Qed.

Lemma scan_none (s : Sim) (amb_id : string) (amb_pos : point) (amb_edge : string)
    (amb_lane_index : Z) (vehicles : list string) :
  scan s amb_id amb_pos amb_edge amb_lane_index vehicles = None
  <-> forall u, u ∈ vehicles -> alerted s amb_id amb_pos amb_edge amb_lane_index u = false.
Proof.
  rewrite scan_find. induction vehicles as [|v rest IH]; simpl.
  - split; [| done]. intros _ u Hu. by inversion Hu.
  - destruct (alerted s amb_id amb_pos amb_edge amb_lane_index v) eqn:Hv.
    + split; [done |]. intros Hall. rewrite Hall in Hv; [done | left].
    + rewrite IH. split.
      * intros Hall u Hu. inversion Hu; subst; [done | by apply Hall].
      * intros Hall u Hu. apply Hall. by right.
Qed.

Lemma raises_change_lane (amb_id : string) (lane : Z) (d : R) (s : Sim) :
  raises (ChangeLane amb_id lane d) s = true <-> vehicle_changeLane amb_id lane d s = None.
Proof. simpl. apply bool_decide_eq_true. Qed.

Lemma try_lanes_tried (amb_id : string) (options : list Z) (st : State) :
  tried amb_id options st (try_lanes amb_id options st).1 (try_lanes amb_id options st).2.
Proof.
  revert st. induction options as [|new_lane rest IH]; intros st; simpl.
  - constructor.
  - destruct (bool_decide (vehicle_changeLane amb_id new_lane 10 (sim st) = None)) eqn:Hr.
    + apply bool_decide_eq_true in Hr. by apply tried_raised.
    + apply bool_decide_eq_false in Hr.
      destruct (vehicle_changeLane amb_id new_lane 10 (sim st)) as [s1|] eqn:Hc; [| done].
      change (default (sim st) (Some s1)) with s1.
      destruct (String.eqb (vehicle_getLaneID s1 amb_id) (vehicle_getLaneID (sim st) amb_id))
        eqn:Hid; simpl.
      * apply String.eqb_eq in Hid. eapply tried_unchanged; [done | done | apply IH].
      * apply String.eqb_neq in Hid. by apply tried_changed.
Qed.

Lemma tried_frame (amb_id : string) (options : list Z) (st st' : State) (changed : bool) :
  tried amb_id options st st' changed ->
  original_tl_programs st' = original_tl_programs st /\ step st' = step st.
Proof.
  induction 1 as [st | l rest st st' ch Hc Ht [IH1 IH2] | l rest st st' s1 ch Hc Hid Ht [IH1 IH2]
                 | l rest st s1 Hc Hid]; simpl; try done.
Qed.

Lemma tried_out (amb_id : string) (options : list Z) (st st' : State) (changed : bool) :
  tried amb_id options st st' changed ->
  exists evs asked,
    out st' = out st ++ evs
    /\ forallb (about_lane_change amb_id) evs = true
    /\ lanes_asked evs = asked
    /\ asked `prefix_of` options
    /\ (changed = false -> asked = options)
    /\ (options <> [] -> asked <> []).
Proof.
  induction 1 as [st | l rest st st' ch Hc Ht IH | l rest st st' s1 ch Hc Hid Ht IH
                 | l rest st s1 Hc Hid].
  - exists [], []. by rewrite app_nil_r.
  - destruct IH as [evs [asked [Ho [Hf [Ha [Hp [Hn _]]]]]]]. simpl in Ho.
    exists (Called (ChangeLane amb_id l 10) :: Printed (LaneChangeError amb_id l) :: evs),
           (l :: asked).
    rewrite Ho, <- !app_assoc. simpl. rewrite String.eqb_refl, Hf.
    repeat split; try done.
    + by rewrite <- Ha.
    + by apply prefix_cons.
    + intros Hch. by rewrite Hn.
  - destruct IH as [evs [asked [Ho [Hf [Ha [Hp [Hn _]]]]]]]. simpl in Ho.
    exists (Called (ChangeLane amb_id l 10) :: evs), (l :: asked).
    rewrite Ho, <- !app_assoc. simpl. rewrite String.eqb_refl, Hf.
    repeat split; try done.
    + by rewrite <- Ha.
    + by apply prefix_cons.
    + intros Hch. by rewrite Hn.
  - exists [Called (ChangeLane amb_id l 10);
            Printed (LaneChanged amb_id (vehicle_getLaneID (sim st) amb_id)
                       (vehicle_getLaneID s1 amb_id))], [l].
    simpl. rewrite <- !app_assoc, String.eqb_refl. simpl.
    repeat split; try done. apply prefix_cons, prefix_nil.
Qed.

Lemma react_frame (amb_id amb_edge : string) (amb_lane_index : Z) (b : bool) (st : State) :
  original_tl_programs (react amb_id amb_edge amb_lane_index b st) = original_tl_programs st
  /\ step (react amb_id amb_edge amb_lane_index b st) = step st.
Proof.
  unfold react. destruct b; [| done].
  pose proof (try_lanes_tried amb_id
    (lane_options amb_lane_index (edge_getLaneNumber (sim st) amb_edge)) st) as Ht.
  apply tried_frame in Ht. destruct (try_lanes _ _ _) as [st1 changed]. simpl in Ht.
  by destruct changed.
Qed.

Lemma react_out (amb_id amb_edge : string) (amb_lane_index : Z) (b : bool) (st : State) :
  exists evs,
    out (react amb_id amb_edge amb_lane_index b st) = out st ++ evs
    /\ forallb (about_lane_change amb_id) evs = true
    /\ (b = false -> evs = [Printed (MovingFreely amb_id)])
    /\ (b = true ->
        let options := lane_options amb_lane_index (edge_getLaneNumber (sim st) amb_edge) in
        lanes_asked evs `prefix_of` options /\ (options <> [] -> lanes_asked evs <> [])).
Proof.
  unfold react. destruct b.
  - pose proof (try_lanes_tried amb_id
      (lane_options amb_lane_index (edge_getLaneNumber (sim st) amb_edge)) st) as Ht.
    apply tried_out in Ht. destruct (try_lanes _ _ _) as [st1 changed]. simpl in Ht.
    destruct Ht as [evs [asked [Ho [Hf [Ha [Hp [_ Hne]]]]]]]. subst asked.
    destruct changed; simpl.
    + exists evs. by repeat split.
    + exists (evs ++ [Printed (OthersStopping amb_id)]).
      rewrite Ho, <- app_assoc, forallb_app, Hf. unfold lanes_asked in *.
      rewrite omap_app. simpl. rewrite app_nil_r. by repeat split.
  - exists [Printed (MovingFreely amb_id)]. by repeat split.
Qed.

Lemma before_scan_frame (st : State) (amb_id : string) :
  step (before_scan st amb_id) = step st.
Proof. unfold before_scan. by rewrite junctions_step. Qed.

Lemma before_scan_out (st : State) (amb_id : string) :
  exists lights,
    out (before_scan st amb_id)
    = out st ++ [Called (SetColor amb_id RED); Called (SetSpeedMode amb_id 0)] ++ lights
    /\ forallb about_light lights = true.
Proof.
  unfold before_scan.
  destruct (junctions_out amb_id (vehicle_getRoadID (sim st) amb_id)
              (trafficlight_getIDList
                 (sim (send (SetSpeedMode amb_id 0) (send (SetColor amb_id RED) st))))
              (send (SetSpeedMode amb_id 0) (send (SetColor amb_id RED) st)))
    as [lights [Ho Hl]].
  exists lights. split; [| done]. rewrite Ho. simpl. by rewrite <- !app_assoc.
Qed.

Lemma process_ambulance_unfold (vehicles : list string) (st : State) (amb_id : string) :
  process_ambulance vehicles st amb_id
  = let st3 := before_scan st amb_id in
    let amb_pos := vehicle_getPosition (sim st) amb_id in
    let amb_edge := vehicle_getRoadID (sim st) amb_id in
    let amb_lane_index := vehicle_getLaneIndex (sim st) amb_id in
    match detected vehicles st amb_id with
    | Some veh_id =>
        react amb_id amb_edge amb_lane_index true
          (print (Alerting amb_id veh_id
                    (Int_part (distance amb_pos (vehicle_getPosition (sim st3) veh_id)))) st3)
    | None => react amb_id amb_edge amb_lane_index false st3
    end.
Proof. reflexivity. Qed.

Lemma process_ambulance_step (vehicles : list string) (st : State) (amb_id : string) :
  step (process_ambulance vehicles st amb_id) = step st.
Proof.
  rewrite process_ambulance_unfold. cbv zeta.
  destruct (detected vehicles st amb_id);
    rewrite (proj2 (react_frame _ _ _ _ _)); simpl; by rewrite ?before_scan_frame.
Qed.

Lemma process_ambulance_out (vehicles : list string) (st : State) (amb_id : string) :
  exists lights lane_evs,
    out (process_ambulance vehicles st amb_id)
    = out st ++ [Called (SetColor amb_id RED); Called (SetSpeedMode amb_id 0)] ++ lights
        ++ match detected vehicles st amb_id with
           | Some veh_id =>
               [Printed (Alerting amb_id veh_id
                  (Int_part (distance (vehicle_getPosition (sim st) amb_id)
                     (vehicle_getPosition (sim (before_scan st amb_id)) veh_id))))]
           | None => []
           end
        ++ lane_evs
    /\ forallb about_light lights = true
    /\ forallb (about_lane_change amb_id) lane_evs = true
    /\ (detected vehicles st amb_id = None -> lane_evs = [Printed (MovingFreely amb_id)])
    /\ (lanes_asked lane_evs
          `prefix_of` lane_options (vehicle_getLaneIndex (sim st) amb_id)
                        (edge_getLaneNumber (sim (before_scan st amb_id))
                           (vehicle_getRoadID (sim st) amb_id))).
Proof.
  rewrite process_ambulance_unfold. cbv zeta.
  destruct (before_scan_out st amb_id) as [lights [Hb Hl]].
  destruct (detected vehicles st amb_id) as [veh_id|].
  - match goal with |- context [react ?a ?e ?i true ?s] =>
      destruct (react_out a e i true s) as [evs [Ho [Hf [_ Ht]]]] end.
    destruct (Ht eq_refl) as [Hp _]. simpl in Hp.
    exists lights, evs. rewrite Ho. simpl. rewrite Hb, <- !app_assoc. simpl.
    by repeat split.
  - match goal with |- context [react ?a ?e ?i false ?s] =>
      destruct (react_out a e i false s) as [evs [Ho [Hf [Hn _]]]] end.
    rewrite (Hn eq_refl) in *.
    exists lights, [Printed (MovingFreely amb_id)]. rewrite Ho, Hb, <- !app_assoc. simpl.
    repeat split; try done. apply prefix_nil.
Qed.

Lemma process_ambulance_turn (vehicles : list string) (st : State) (amb_id : string) :
  exists evs, out (process_ambulance vehicles st amb_id) = out st ++ evs /\ turn amb_id evs.
Proof.
  destruct (process_ambulance_out vehicles st amb_id) as [lights [lane_evs [Ho [Hl [Hc _]]]]].
  eexists. split; [exact Ho |]. exists lights. eexists. exists lane_evs.
  repeat split; try done. destruct (detected vehicles st amb_id); eauto.
Qed.

Lemma ambulances_turns (vehicles ambulances : list string) (st : State) :
  exists evs,
    out (fold_left (process_ambulance vehicles) ambulances st) = out st ++ evs
    /\ turns ambulances evs.
Proof.
  revert st. induction ambulances as [|amb rest IH]; intros st; simpl.
  - exists []. rewrite app_nil_r. split; [done |]. exists []. by split.
  - destruct (IH (process_ambulance vehicles st amb)) as [evs2 [-> [chunks [-> Hc]]]].
    destruct (process_ambulance_turn vehicles st amb) as [evs1 [-> Ht]].
    exists (evs1 ++ concat chunks). rewrite <- app_assoc. split; [done |].
    exists (evs1 :: chunks). split; [done | by constructor].
Qed.

Lemma ambulances_step (vehicles ambulances : list string) (st : State) :
  step (fold_left (process_ambulance vehicles) ambulances st) = step st.
Proof.
  revert st. induction ambulances as [|amb rest IH]; intros st; simpl; [done |].
  by rewrite IH, process_ambulance_step.
Qed.

Lemma loop_body_step (st : State) : step (loop_body st) = step st + 1.
Proof. unfold loop_body. simpl. by rewrite ambulances_step. Qed.

Lemma loop_body_out (st : State) :
  exists evs,
    out (loop_body st) = out st ++ Called SimulationStep :: evs
    /\ turns (List.filter (is_ambulance (simulationStep (sim st)))
                (vehicle_getIDList (simulationStep (sim st)))) evs.
Proof.
  unfold loop_body. simpl.
  match goal with |- context [fold_left (process_ambulance ?vs) ?ambs ?s] =>
    destruct (ambulances_turns vs ambs s) as [evs [Ho Ht]] end.
  exists evs. rewrite Ho. simpl. by rewrite <- app_assoc.
Qed.

Lemma iter_loop_body (n : nat) (st : State) :
  Nat.iter (S n) loop_body st = Nat.iter n loop_body (loop_body st).
Proof. by rewrite Nat.iter_succ_r. Qed.

Lemma iter_loop_body_step (n : nat) (st : State) :
  step (Nat.iter n loop_body st) = step st + Z.of_nat n.
Proof.
  induction n as [|n IH]; [simpl; lia |]. rewrite Nat.iter_succ, loop_body_step, IH. lia.
Qed.

Lemma iter_loop_body_out (n : nat) (st : State) :
  exists evs, out (Nat.iter n loop_body st) = out st ++ evs /\ steps_taken evs = n.
Proof.
  induction n as [|n [evs [Ho Hs]]].
  - exists []. simpl. by rewrite app_nil_r.
  - rewrite Nat.iter_succ.
    destruct (loop_body_out (Nat.iter n loop_body st)) as [evs' [Ho' Ht]].
    exists (evs ++ Called SimulationStep :: evs'). rewrite Ho', Ho, <- app_assoc.
    split; [done |]. rewrite steps_taken_app, Hs.
    change (Called SimulationStep :: evs') with ([Called SimulationStep] ++ evs').
    rewrite steps_taken_app, (turns_steps _ _ Ht). simpl. lia.
Qed.

Lemma main_loop_stop (fuel : nat) (st : State) :
  simulation_getMinExpectedNumber (sim st) <= 0 -> main_loop fuel st = Some st.
Proof.
  intros Hle. destruct fuel; simpl;
    destruct (Z.gtb_spec (simulation_getMinExpectedNumber (sim st)) 0); (done || lia).
Qed.

Lemma main_loop_go (fuel : nat) (st : State) :
  simulation_getMinExpectedNumber (sim st) > 0 ->
  main_loop (S fuel) st = main_loop fuel (loop_body st) /\ main_loop 0 st = None.
Proof.
  intros Hgt. simpl.
  destruct (Z.gtb_spec (simulation_getMinExpectedNumber (sim st)) 0); (done || lia).
Qed.

Lemma main_loop_runs (n : nat) (st : State) :
  simulation_getMinExpectedNumber (sim (Nat.iter n loop_body st)) <= 0 ->
  exists m,
    (m <= n)%nat
    /\ (forall k, (k < m)%nat -> simulation_getMinExpectedNumber (sim (Nat.iter k loop_body st)) > 0)
    /\ simulation_getMinExpectedNumber (sim (Nat.iter m loop_body st)) <= 0
    /\ (forall fuel, (m <= fuel)%nat -> main_loop fuel st = Some (Nat.iter m loop_body st))
    /\ (forall fuel, (fuel < m)%nat -> main_loop fuel st = None).
Proof.
  revert st. induction n as [|n IH]; intros st Hn.
  - exists 0%nat. simpl in *.
    refine (conj _ (conj _ (conj _ (conj _ _)))); [lia | intros k Hk; lia | done | |].
    + intros fuel _. by apply main_loop_stop.
    + intros fuel Hf. lia.
  - destruct (Z_le_gt_dec (simulation_getMinExpectedNumber (sim st)) 0) as [Hneg | Hpos].
    + exists 0%nat. simpl.
      refine (conj _ (conj _ (conj _ (conj _ _)))); [lia | intros k Hk; lia | done | |].
      * intros fuel _. by apply main_loop_stop.
      * intros fuel Hf. lia.
    + rewrite iter_loop_body in Hn. destruct (IH _ Hn) as [m [Hle [Hbefore [Hat [Hrun Hnot]]]]].
      exists (S m). refine (conj _ (conj _ (conj _ (conj _ _)))).
      * lia.
      * intros [|k] Hk; [done |]. rewrite iter_loop_body. apply Hbefore. lia.
      * by rewrite iter_loop_body.
      * intros [|fuel] Hf; [lia |]. rewrite iter_loop_body.
        rewrite (proj1 (main_loop_go fuel st Hpos)). apply Hrun. lia.
      * intros [|fuel] Hf; [apply (main_loop_go 0 st Hpos) |].
        rewrite (proj1 (main_loop_go fuel st Hpos)). apply Hnot. lia.
Qed.

End MainFacts.

(** ** The dashboard's worker: what each part changes and issues *)

Section WorkerFacts.
Context {Sim : Type} `{Traci Sim}.
Import Py Interface.
Local Abbreviation State := (@State Sim).

Lemma untouched_refl (st : State) : untouched st st.
Proof. by repeat split. Qed.

Lemma untouched_trans (st1 st2 st3 : State) :
  untouched st1 st2 -> untouched st2 st3 -> untouched st1 st3.
Proof.
  intros (A1 & A2 & A3 & A4 & A5) (B1 & B2 & B3 & B4 & B5).
  repeat split; congruence.
Qed.

Lemma worker_take_control_sim (tl : string) (st : State) : sim (take_control tl st) = sim st.
Proof. unfold take_control. by destruct (original_tl_programs st !! tl). Qed.

Lemma worker_take_control_out (tl : string) (st : State) : out (take_control tl st) = out st.
Proof. unfold take_control. by destruct (original_tl_programs st !! tl). Qed.

Lemma worker_take_control_programs (tl : string) (st : State) :
  original_tl_programs (take_control tl st)
  = match original_tl_programs st !! tl with
    | None => <[tl := trafficlight_getProgram (sim st) tl]> (original_tl_programs st)
    | Some _ => original_tl_programs st
    end.
Proof. unfold take_control. by destruct (original_tl_programs st !! tl). Qed.

Lemma worker_process_tl_on (amb_edge tl : string) (st : State) (k : Z) :
  on_controlled_lanes amb_edge (trafficlight_getControlledLanes (sim st) tl) = true ->
  process_tl amb_edge (st, k) tl
  = (override tl (signal_state amb_edge (trafficlight_getControlledLanes (sim st) tl))
       (trafficlight_getRedYellowGreenState (sim st) tl) (take_control tl st), k + 1).
Proof. intros Hon. unfold process_tl. by rewrite Hon, worker_take_control_sim. Qed.

Lemma worker_process_tl_off (amb_edge tl : string) (st : State) (k : Z) :
  on_controlled_lanes amb_edge (trafficlight_getControlledLanes (sim st) tl) = false ->
  process_tl amb_edge (st, k) tl = (st, k).
Proof. intros Hoff. unfold process_tl. by rewrite Hoff. Qed.

Lemma worker_override_out (tl state original_state : string) (st : State) :
  out (override tl state original_state st)
  = out st ++ (if len state =? len original_state
               then [Called (SetRedYellowGreenState tl state)] else []).
Proof.
  unfold override. destruct (len state =? len original_state); simpl; [done |].
  by rewrite app_nil_r.
Qed.

Lemma worker_process_tl_spec (amb_edge tl : string) (st : State) (k : Z) :
  untouched st (process_tl amb_edge (st, k) tl).1
  /\ original_tl_programs st ⊆ original_tl_programs (process_tl amb_edge (st, k) tl).1
  /\ exists evs, out (process_tl amb_edge (st, k) tl).1 = out st ++ evs
                 /\ forallb about_light evs = true.
Proof.
  destruct (on_controlled_lanes amb_edge (trafficlight_getControlledLanes (sim st) tl)) eqn:Hon.
  - rewrite worker_process_tl_on by done. simpl. split; [| split].
    + unfold override, take_control.
      destruct (len _ =? len _), (original_tl_programs st !! tl); by repeat split.
    + unfold override, take_control.
      destruct (len _ =? len _), (original_tl_programs st !! tl) eqn:Hl; simpl;
        try done; by apply insert_subseteq.
    + rewrite worker_override_out, worker_take_control_out. eexists. split; [done |].
      by destruct (len _ =? len _).
  - rewrite worker_process_tl_off by done. simpl. split; [apply untouched_refl | split; [done |]].
    exists []. by rewrite app_nil_r.
Qed.

Lemma worker_junctions_spec (amb_edge : string) (junctions : list string) (st : State) (k : Z) :
  untouched st (fold_left (process_tl amb_edge) junctions (st, k)).1
  /\ original_tl_programs st ⊆ original_tl_programs (fold_left (process_tl amb_edge) junctions (st, k)).1
  /\ exists evs, out (fold_left (process_tl amb_edge) junctions (st, k)).1 = out st ++ evs
                 /\ forallb about_light evs = true.
Proof.
  revert st k. induction junctions as [|tl rest IH]; intros st k.
  - simpl. split; [apply untouched_refl | split; [done |]]. exists []. by rewrite app_nil_r.
  - change (fold_left (process_tl amb_edge) (tl :: rest) (st, k))
      with (fold_left (process_tl amb_edge) rest (process_tl amb_edge (st, k) tl)).
    destruct (worker_process_tl_spec amb_edge tl st k) as (U1 & S1 & evs1 & O1 & F1).
    destruct (process_tl amb_edge (st, k) tl) as [st1 k1]. simpl in U1, S1, O1.
    destruct (IH st1 k1) as (U2 & S2 & evs2 & O2 & F2).
    split; [by eapply untouched_trans | split; [by etrans |]].
    exists (evs1 ++ evs2). by rewrite O2, O1, <- app_assoc, forallb_app, F1, F2.
Qed.

Lemma count_alerted_length (s : Sim) (amb_id : string) (amb_pos : point) (amb_edge : string)
    (vehicles : list string) :
  count_alerted s amb_id amb_pos amb_edge vehicles
  = Z.of_nat (length (List.filter
                        (alerted s amb_id amb_pos amb_edge (vehicle_getLaneIndex s amb_id))
                        vehicles)).
Proof.
  unfold count_alerted.
  assert (Hgen : forall n,
    fold_left
      (fun alerted_vehicles_in_step veh_id =>
         if skipped s amb_id veh_id then alerted_vehicles_in_step
         else if ahead_in_range s amb_pos amb_edge (vehicle_getLaneIndex s amb_id) veh_id
              then alerted_vehicles_in_step + 1 else alerted_vehicles_in_step)
      vehicles n
    = n + Z.of_nat (length (List.filter
                              (alerted s amb_id amb_pos amb_edge (vehicle_getLaneIndex s amb_id))
                              vehicles))).
  { induction vehicles as [|v rest IH]; intros n; simpl; [lia |].
    rewrite IH. unfold alerted at 2.
    destruct (skipped s amb_id v); simpl; [done |].
    destruct (ahead_in_range s amb_pos amb_edge (vehicle_getLaneIndex s amb_id) v); simpl; lia. }
  by rewrite Hgen.
Qed.

Lemma worker_process_ambulance_spec (vehicles : list string) (st : State) (amb_id : string) :
  step (process_ambulance vehicles st amb_id) = step st
  /\ released (process_ambulance vehicles st amb_id)
     = released st ++ [logs (process_ambulance vehicles st amb_id)]
  /\ (exists amb_speed alerted_total controlled_total,
        logs (process_ambulance vehicles st amb_id)
        = log_ambulance (step st) amb_speed alerted_total controlled_total (logs st))
  /\ original_tl_programs st ⊆ original_tl_programs (process_ambulance vehicles st amb_id)
  /\ exists evs, out (process_ambulance vehicles st amb_id) = out st ++ evs /\ turn amb_id evs.
Proof.
  unfold process_ambulance.
  match goal with |- context [fold_left (process_tl ?e) ?js (?s, 0)] =>
    destruct (worker_junctions_spec e js s 0) as (U & S & evs & O & F);
    destruct (fold_left (process_tl e) js (s, 0)) as [st3 k]
  end.
  simpl in U, S, O. destruct U as (U1 & U2 & U3 & U4 & U5). simpl in *.
  rewrite U1, U2, U3. split; [done | split; [done | split; [eauto | split; [done |]]]].
  exists ([Called (SetColor amb_id RED); Called (SetSpeedMode amb_id 0)] ++ evs).
  rewrite O, <- !app_assoc. split; [done |].
  exists evs, [], []. rewrite !app_nil_r. split; [done | split; [done | split; [by left | done]]].
Qed.

Lemma aligned_log_ambulance (k : Z) (v : R) (a c : Z) (l : Logs) :
  aligned l -> aligned (log_ambulance k v a c l).
Proof.
  intros (A1 & A2 & A3 & A4). unfold aligned, log_ambulance. simpl.
  rewrite !length_app. simpl. lia.
Qed.

Lemma aligned_clear (l : Logs) : aligned l -> aligned (clear_vehicle_data l).
Proof. done. Qed.

Lemma aligned_log_vehicles (s : Sim) (vehicles : list string) (k : Z) (l : Logs) :
  aligned l -> aligned (log_vehicles s vehicles k l).
Proof.
  intros (A1 & A2 & A3 & A4). unfold aligned, log_vehicles. simpl.
  rewrite !length_app. simpl. lia.
Qed.

Lemma worker_ambulances_spec (vehicles ambulances : list string) (st : State) :
  let st' := fold_left (process_ambulance vehicles) ambulances st in
  step st' = step st
  /\ vehicle_data (logs st') = vehicle_data (logs st)
  /\ stopped_vehicle_counts (logs st') = stopped_vehicle_counts (logs st)
  /\ (aligned (logs st) -> Forall aligned (released st) ->
      aligned (logs st') /\ Forall aligned (released st'))
  /\ (logs st = default empty_logs (last (released st)) ->
      logs st' = default empty_logs (last (released st')))
  /\ original_tl_programs st ⊆ original_tl_programs st'
  /\ exists evs, out st' = out st ++ evs /\ turns ambulances evs.
Proof.
  revert st. induction ambulances as [|amb rest IH]; intros st; simpl.
  - split_and!; try done. exists []. rewrite app_nil_r. split; [done |]. exists []. by split.
  - destruct (worker_process_ambulance_spec vehicles st amb)
      as (P1 & P2 & (v & a & c & P3) & P4 & evs1 & P5 & P6).
    destruct (IH (process_ambulance vehicles st amb)) as (Q1 & Q2 & Q3 & Q4 & Q5 & Q6 & evs2 & Q7 & chunks & Q8 & Q9).
    split; [congruence |]. split; [by rewrite Q2, P3 |]. split; [by rewrite Q3, P3 |].
    split; [| split; [| split]].
    + intros Ha Hr. apply Q4.
      * rewrite P3. by apply aligned_log_ambulance.
      * rewrite P2. apply Forall_app. split; [done |]. constructor; [| done].
        rewrite P3. by apply aligned_log_ambulance.
    + intros _. apply Q5. by rewrite P2, last_snoc.
    + by etrans.
    + exists (evs1 ++ evs2). rewrite Q7, P5, <- app_assoc. split; [done |].
      exists (evs1 :: chunks). split; [by rewrite Q8 | by constructor].
Qed.

Lemma served_spec (st : State) :
  step (served st) = step st
  /\ vehicle_data (logs (served st)) = ∅
  /\ stopped_vehicle_counts (logs (served st)) = stopped_vehicle_counts (logs st)
  /\ (aligned (logs st) -> Forall aligned (released st) ->
      aligned (logs (served st)) /\ Forall aligned (released (served st)))
  /\ logs (served st) = default empty_logs (last (released (served st)))
  /\ original_tl_programs st ⊆ original_tl_programs (served st)
  /\ exists evs,
       out (served st) = out st ++ Called SimulationStep :: evs
       /\ turns (List.filter (is_ambulance (simulationStep (sim st)))
                   (vehicle_getIDList (simulationStep (sim st)))) evs.
Proof.
  unfold served.
  match goal with |- context [fold_left (process_ambulance ?vs) ?ambs ?s] =>
    destruct (worker_ambulances_spec vs ambs s) as (A1 & A2 & A3 & A4 & A5 & A6 & evs & A7 & A8)
  end.
  simpl in *. split; [done | split; [done | split; [done | split; [| split; [| split]]]]].
  - intros Ha Hr. apply A4; [done |]. apply Forall_app. split; [done |]. by constructor.
  - apply A5. by rewrite last_snoc.
  - done.
  - exists evs. rewrite A7, <- app_assoc. by split.
Qed.

Lemma worker_loop_body_unfold (st : State) :
  loop_body st
  = let st3 := served st in
    let vehicles := vehicle_getIDList (simulationStep (sim st)) in
    let st4 := with_lock (log_vehicles (sim st3) vehicles (step st3)) st3 in
    mkState (sim st4) (original_tl_programs st4) (step st4 + 1)
      (total_alerted_this_step st4) (traffic_lights_controlled st4)
      (out st4) (logs st4) (released st4).
Proof. reflexivity. Qed.

Lemma fill_lookup (s : Sim) (vehicles : list string) (d : gmap string VehicleData)
    (k : string) :
  fold_left (fun d veh_id => <[veh_id := vehicle_entry s veh_id]> d) vehicles d !! k
  = if decide (k ∈ vehicles) then Some (vehicle_entry s k) else d !! k.
Proof.
  revert d. induction vehicles as [|v rest IH]; intros d.
  - cbn [fold_left]. case_decide as Hin; [by apply elem_of_nil in Hin | done].
  - cbn [fold_left]. rewrite IH.
    destruct (decide (k ∈ rest)) as [Hin | Hnin], (decide (k ∈ v :: rest)) as [Hin' | Hnin'].
    + done.
    + exfalso. apply Hnin'. by right.
    + apply elem_of_cons in Hin' as [-> | Hin']; [| done]. by rewrite lookup_insert_eq.
    + rewrite lookup_insert_ne; [done |]. intros ->. apply Hnin'. left.
Qed.

Lemma counted_entry (s : Sim) (veh_id : string) :
  counted (vehicle_entry s veh_id) = true <-> stopped_other s veh_id.
Proof.
  unfold counted, vehicle_entry, stopped_other, is_ambulance. simpl.
  rewrite andb_true_iff, negb_true_iff, Rltb_true. done.
Qed.

Lemma stopped_count_fill (s : Sim) (vehicles : list string) :
  stopped_count (fold_left (fun d veh_id => <[veh_id := vehicle_entry s veh_id]> d) vehicles ∅)
  = Z.of_nat (size (filter (stopped_other s) (list_to_set vehicles : gset string))).
Proof.
  unfold stopped_count. f_equal. rewrite <- size_dom. f_equal.
  apply dom_filter_L. intros k. rewrite elem_of_filter, elem_of_list_to_set, fill_lookup.
  rewrite lookup_empty. split.
  - intros [Hs Hin]. exists (vehicle_entry s k). rewrite decide_True by done.
    split; [done |]. by apply counted_entry.
  - intros [x [Hl Hc]]. case_decide as Hin; [| done]. injection Hl as <-.
    split; [| done]. by apply counted_entry.
Qed.

Lemma worker_loop_body_spec (st : State) :
  step (loop_body st) = step st + 1
  /\ (aligned (logs st) -> Forall aligned (released st) ->
      aligned (logs (loop_body st)) /\ Forall aligned (released (loop_body st)))
  /\ logs (loop_body st) = default empty_logs (last (released (loop_body st)))
  /\ stopped_vehicle_counts (logs (loop_body st))
     = stopped_vehicle_counts (logs st)
       ++ [Z.of_nat (size (filter (stopped_other (sim (served st)))
                             (list_to_set (vehicle_getIDList (simulationStep (sim st)))
                                : gset string)))]
  /\ original_tl_programs st ⊆ original_tl_programs (loop_body st)
  /\ exists evs,
       out (loop_body st) = out st ++ Called SimulationStep :: evs
       /\ turns (List.filter (is_ambulance (simulationStep (sim st)))
                   (vehicle_getIDList (simulationStep (sim st)))) evs.
Proof.
  rewrite worker_loop_body_unfold. cbv zeta.
  destruct (served_spec st) as (S1 & S2 & S3 & S4 & S5 & S6 & evs & S7 & S8).
  simpl. split_and!.
  - lia.
  - intros Ha Hr. destruct (S4 Ha Hr) as [Ha' Hr']. split.
    + by apply aligned_log_vehicles.
    + apply Forall_app. split; [done |]. constructor; [| done]. by apply aligned_log_vehicles.
  - by rewrite last_snoc.
  - by rewrite S2, S3, stopped_count_fill.
  - done.
  - by exists evs.
Qed.

Lemma worker_iter (n : nat) (st : State) :
  Nat.iter (S n) loop_body st = Nat.iter n loop_body (loop_body st).
Proof. by rewrite Nat.iter_succ_r. Qed.

Lemma worker_iter_spec (n : nat) (st : State) :
  step (Nat.iter n loop_body st) = step st + Z.of_nat n
  /\ (aligned (logs st) -> Forall aligned (released st) ->
      aligned (logs (Nat.iter n loop_body st))
      /\ Forall aligned (released (Nat.iter n loop_body st)))
  /\ (logs st = default empty_logs (last (released st)) ->
      logs (Nat.iter n loop_body st)
      = default empty_logs (last (released (Nat.iter n loop_body st))))
  /\ original_tl_programs st ⊆ original_tl_programs (Nat.iter n loop_body st)
  /\ exists evs, out (Nat.iter n loop_body st) = out st ++ evs /\ steps_taken evs = n.
Proof.
  induction n as [|n (I1 & I2 & I3 & I4 & evs & I5 & I6)].
  - simpl. split_and!; try done; [lia |]. exists []. by rewrite app_nil_r.
  - rewrite Nat.iter_succ.
    destruct (worker_loop_body_spec (Nat.iter n loop_body st))
      as (L1 & L2 & L3 & _ & L5 & evs' & L6 & L7).
    split_and!.
    + lia.
    + intros Ha Hr. destruct (I2 Ha Hr). by apply L2.
    + done.
    + by etrans.
    + exists (evs ++ Called SimulationStep :: evs'). rewrite L6, I5, <- app_assoc.
      split; [done |]. rewrite steps_taken_app, I6.
      change (Called SimulationStep :: evs') with ([Called SimulationStep] ++ evs').
      rewrite steps_taken_app, (turns_steps _ _ L7). simpl. lia.
Qed.

Lemma worker_loop_stop (fuel : nat) (st : State) :
  simulation_getMinExpectedNumber (sim st) <= 0 -> worker_loop fuel st = Some st.
Proof.
  intros Hle. destruct fuel; simpl;
    destruct (Z.gtb_spec (simulation_getMinExpectedNumber (sim st)) 0); (done || lia).
Qed.

Lemma worker_loop_go (fuel : nat) (st : State) :
  simulation_getMinExpectedNumber (sim st) > 0 ->
  worker_loop (S fuel) st = worker_loop fuel (loop_body st) /\ worker_loop 0 st = None.
Proof.
  intros Hgt. simpl.
  destruct (Z.gtb_spec (simulation_getMinExpectedNumber (sim st)) 0); (done || lia).
Qed.

Lemma worker_loop_runs (n : nat) (st : State) :
  simulation_getMinExpectedNumber (sim (Nat.iter n loop_body st)) <= 0 ->
  exists m,
    (m <= n)%nat
    /\ (forall k, (k < m)%nat -> simulation_getMinExpectedNumber (sim (Nat.iter k loop_body st)) > 0)
    /\ simulation_getMinExpectedNumber (sim (Nat.iter m loop_body st)) <= 0
    /\ (forall fuel, (m <= fuel)%nat -> worker_loop fuel st = Some (Nat.iter m loop_body st))
    /\ (forall fuel, (fuel < m)%nat -> worker_loop fuel st = None).
Proof.
  revert st. induction n as [|n IH]; intros st Hn.
  - exists 0%nat. simpl in *.
    refine (conj _ (conj _ (conj _ (conj _ _)))); [lia | intros k Hk; lia | done | |].
    + intros fuel _. by apply worker_loop_stop.
    + intros fuel Hf. lia.
  - destruct (Z_le_gt_dec (simulation_getMinExpectedNumber (sim st)) 0) as [Hneg | Hpos].
    + exists 0%nat. simpl.
      refine (conj _ (conj _ (conj _ (conj _ _)))); [lia | intros k Hk; lia | done | |].
      * intros fuel _. by apply worker_loop_stop.
      * intros fuel Hf. lia.
    + rewrite worker_iter in Hn. destruct (IH _ Hn) as [m [Hle [Hbefore [Hat [Hrun Hnot]]]]].
      exists (S m). refine (conj _ (conj _ (conj _ (conj _ _)))).
      * lia.
      * intros [|k] Hk; [done |]. rewrite worker_iter. apply Hbefore. lia.
      * by rewrite worker_iter.
      * intros [|fuel] Hf; [lia |]. rewrite worker_iter.
        rewrite (proj1 (worker_loop_go fuel st Hpos)). apply Hrun. lia.
      * intros [|fuel] Hf; [apply (worker_loop_go 0 st Hpos) |].
        rewrite (proj1 (worker_loop_go fuel st Hpos)). apply Hnot. lia.
Qed.

End WorkerFacts.

(** ** The traffic-light override *)

Section Override.
Context {Sim : Type} `{Traci Sim}.
Import Py.

(** C1: for an ambulance on road [amb_edge] and a light [tl] one of whose
    controlled lanes contains [amb_edge] as a substring, both scripts build
    a signal state with one character per controlled lane, ['G'] where the
    lane identifier contains [amb_edge] and ['r'] elsewhere; when the guard
    lets it through, that string is what [setRedYellowGreenState] is called
    with, and the call is the last thing the light's turn does. *)
Theorem override_string (s : Sim) (st : AmbulanceComm.State) (wst : Interface.State)
    (k : Z) (amb_id amb_edge tl : string) :
  AmbulanceComm.sim st = s ->
  Interface.sim wst = s ->
  let controlled_lanes := trafficlight_getControlledLanes s tl in
  let state := signal_state amb_edge controlled_lanes in
  (exists lane, lane ∈ controlled_lanes /\ occurs_in amb_edge lane) ->
  String.length state = length controlled_lanes
  /\ (forall i lane, controlled_lanes !! i = Some lane ->
        (occurs_in amb_edge lane -> String.get i state = Some "G"%char)
        /\ (~ occurs_in amb_edge lane -> String.get i state = Some "r"%char))
  /\ (String.length state = String.length (trafficlight_getRedYellowGreenState s tl) ->
        let st' := AmbulanceComm.process_tl amb_id amb_edge st tl in
        let wst' := (Interface.process_tl amb_edge (wst, k) tl).1 in
        AmbulanceComm.sim st' = trafficlight_setRedYellowGreenState tl state s
        /\ last (AmbulanceComm.out st') = Some (Called (SetRedYellowGreenState tl state))
        /\ Interface.sim wst' = trafficlight_setRedYellowGreenState tl state s
        /\ last (Interface.out wst') = Some (Called (SetRedYellowGreenState tl state))).
Proof.
  intros Hs Hw controlled_lanes state Hzone. subst state. split_and!.
  - by rewrite signal_state_marks, marks_length.
  - intros i lane Hi. rewrite signal_state_marks, marks_get, Hi. simpl. split.
    + intros Ho. apply str_in_occurs in Ho. by rewrite Ho.
    + intros Ho. apply str_in_not_occurs in Ho. by rewrite Ho.
  - intros Hlen. apply on_controlled_lanes_occurs in Hzone. apply len_eq in Hlen.
    subst controlled_lanes. cbv zeta.
    rewrite process_tl_on by (by rewrite Hs).
    rewrite worker_process_tl_on by (by rewrite Hw).
    rewrite Hs, Hw. unfold AmbulanceComm.override, Interface.override. rewrite Hlen.
    simpl. rewrite take_control_sim, worker_take_control_sim, Hs, Hw, !last_snoc. done.
Qed.

End Override.

Lemma override_string_witness :
  let s := Toy.mkSim (Toy.road [] 1) [] in
  signal_state "e1" (trafficlight_getControlledLanes s "tl1") = "GGr"
  /\ last (AmbulanceComm.out
             (AmbulanceComm.process_tl "ambulance_1" "e1" (AmbulanceComm.initial s) "tl1"))
     = Some (Called (SetRedYellowGreenState "tl1" "GGr"))
  /\ last (Interface.out
             (Interface.process_tl "e1" (Interface.initial s, 0) "tl1").1)
     = Some (Called (SetRedYellowGreenState "tl1" "GGr")).
Proof.
  intros s.
  assert (Hzone : exists lane, lane ∈ trafficlight_getControlledLanes s "tl1"
                               /\ occurs_in "e1" lane).
  { exists "e1_0". split; [left | by exists "", "_0"]. }
  pose proof (override_string s (AmbulanceComm.initial s) (Interface.initial s) 0
                "ambulance_1" "e1" "tl1" eq_refl eq_refl Hzone) as (_ & _ & Happly).
  specialize (Happly eq_refl). destruct Happly as (_ & Hm & _ & Hd).
  split; [reflexivity |]. split; [exact Hm | exact Hd].
Defined.

Section Guard.
Context {Sim : Type} `{Traci Sim}.
Import Py.

(** C2: for a light in the ambulance's zone, the override is applied
    exactly when the built string is as long as the light's current state.
    On a mismatch the main script prints its warning and the dashboard does
    nothing: the simulator and the saved programs are as the guard found
    them.  Nothing else is looked at: equal lengths are enough for the
    override to go through. *)
Theorem override_guard (s : Sim) (st : AmbulanceComm.State) (wst : Interface.State)
    (k : Z) (amb_id amb_edge tl : string) :
  AmbulanceComm.sim st = s ->
  Interface.sim wst = s ->
  let controlled_lanes := trafficlight_getControlledLanes s tl in
  let state := signal_state amb_edge controlled_lanes in
  let original_state := trafficlight_getRedYellowGreenState s tl in
  (exists lane, lane ∈ controlled_lanes /\ occurs_in amb_edge lane) ->
  let st0 := AmbulanceComm.take_control amb_id tl st in
  let st' := AmbulanceComm.process_tl amb_id amb_edge st tl in
  let wst0 := Interface.take_control tl wst in
  let wst' := (Interface.process_tl amb_edge (wst, k) tl).1 in
  (forall tl' x,
     In (Called (SetRedYellowGreenState tl' x))
        (issued (AmbulanceComm.out st) (AmbulanceComm.out st'))
     <-> tl' = tl /\ x = state /\ String.length state = String.length original_state)
  /\ (forall tl' x,
        In (Called (SetRedYellowGreenState tl' x))
           (issued (Interface.out wst) (Interface.out wst'))
        <-> tl' = tl /\ x = state /\ String.length state = String.length original_state)
  /\ (String.length state = String.length original_state ->
        st' = AmbulanceComm.send (SetRedYellowGreenState tl state) st0
        /\ wst' = Interface.send (SetRedYellowGreenState tl state) wst0)
  /\ (String.length state <> String.length original_state ->
        st' = AmbulanceComm.print (StateLengthMismatch tl) st0
        /\ AmbulanceComm.sim st' = s
        /\ AmbulanceComm.original_tl_programs st' = AmbulanceComm.original_tl_programs st0
        /\ wst' = wst0
        /\ Interface.sim wst' = s
        /\ Interface.original_tl_programs wst' = Interface.original_tl_programs wst0).
Proof.
  intros Hs Hw controlled_lanes state original_state Hzone st0 st' wst0 wst'.
  apply on_controlled_lanes_occurs in Hzone.
  assert (Hst : st' = AmbulanceComm.override tl state original_state st0).
  { subst st' st0 state original_state controlled_lanes.
    rewrite process_tl_on by (by rewrite Hs). by rewrite Hs. }
  assert (Hwst : wst' = Interface.override tl state original_state wst0).
  { subst wst' wst0 state original_state controlled_lanes.
    rewrite worker_process_tl_on by (by rewrite Hw). by rewrite Hw. }
  split_and!.
  - intros tl' x. rewrite Hst, override_out. subst st0.
    rewrite take_control_out, <- app_assoc, issued_app, in_app_iff.
    destruct (len state =? len original_state) eqn:Hlen.
    + apply len_eq in Hlen. split.
      * intros [Hin | [[= -> ->] | []]]; [| done].
        destruct (AmbulanceComm.original_tl_programs st !! tl); [done |].
        by destruct Hin as [? | []].
      * intros (-> & -> & _). right. by left.
    + apply len_neq in Hlen. split; [| by intros (_ & _ & ?)].
      intros [Hin | [? | []]]; [| done].
      destruct (AmbulanceComm.original_tl_programs st !! tl); [done |].
      by destruct Hin as [? | []].
  - intros tl' x. rewrite Hwst, worker_override_out. subst wst0.
    rewrite worker_take_control_out, issued_app.
    destruct (len state =? len original_state) eqn:Hlen.
    + apply len_eq in Hlen. split.
      * by intros [[= -> ->] | []].
      * intros (-> & -> & _). by left.
    + apply len_neq in Hlen. split; [done | by intros (_ & _ & ?)].
  - intros Hlen. apply len_eq in Hlen. rewrite Hst, Hwst.
    unfold AmbulanceComm.override, Interface.override. by rewrite Hlen.
  - intros Hlen. apply len_neq in Hlen. rewrite Hst, Hwst.
    unfold AmbulanceComm.override, Interface.override. rewrite Hlen. simpl.
    subst st0 wst0. by rewrite take_control_sim, worker_take_control_sim.
Qed.

End Guard.

Lemma override_guard_witness :
  let s := Toy.mkSim (Toy.road [] 1) [] in
  let st' := AmbulanceComm.process_tl "ambulance_1" "e1" (AmbulanceComm.initial s) "tl3" in
  let wst' := (Interface.process_tl "e1" (Interface.initial s, 0) "tl3").1 in
  signal_state "e1" (trafficlight_getControlledLanes s "tl3") = "Gr"
  /\ trafficlight_getRedYellowGreenState s "tl3" = "rrGG"
  /\ last (AmbulanceComm.out st') = Some (Printed (StateLengthMismatch "tl3"))
  /\ AmbulanceComm.sim st' = s
  /\ Interface.out wst' = []
  /\ Interface.sim wst' = s.
Proof.
  intros s st' wst'.
  assert (Hzone : exists lane, lane ∈ trafficlight_getControlledLanes s "tl3"
                               /\ occurs_in "e1" lane).
  { exists "e1_0". split; [left | by exists "", "_0"]. }
  pose proof (override_guard s (AmbulanceComm.initial s) (Interface.initial s) 0
                "ambulance_1" "e1" "tl3" eq_refl eq_refl Hzone) as (_ & _ & _ & Hskip).
  assert (Hne : String.length (signal_state "e1" (trafficlight_getControlledLanes s "tl3"))
                <> String.length (trafficlight_getRedYellowGreenState s "tl3")).
  { simpl. discriminate. }
  destruct (Hskip Hne) as (Hm & Hms & _ & Hd & Hds & _).
  split; [reflexivity |]. split; [reflexivity |].
  split; [subst st'; rewrite Hm; reflexivity |].
  split; [exact Hms |]. split; [subst wst'; rewrite Hd; reflexivity | exact Hds].
Defined.

(** ** The saved programs *)

Section SavedPrograms.
Context {Sim : Type} `{Traci Sim}.
Import Py.

(** C3, as the code has it: in the main script, the turn of an ambulance
    at a light whose lanes do not contain its road puts a saved program
    back with [setProgram] and forgets the entry, and does nothing when
    there is no entry; at a light whose lanes contain its road, the
    light's program is saved if there is no entry and an existing entry is
    left as it is; no other light's entry is touched.  The dashboard's
    worker saves in the same way and never removes an entry.  A step
    without ambulances leaves the dict as it is, so an entry stays until
    some ambulance that is off the light's lanes has its turn. *)
Theorem saved_program_rule (st : AmbulanceComm.State) (wst : Interface.State)
    (k : Z) (amb_id amb_edge tl : string) :
  let zone (s : Sim) :=
    exists lane, lane ∈ trafficlight_getControlledLanes s tl /\ occurs_in amb_edge lane in
  let st' := AmbulanceComm.process_tl amb_id amb_edge st tl in
  let m := AmbulanceComm.original_tl_programs st in
  let m' := AmbulanceComm.original_tl_programs st' in
  let wst' := (Interface.process_tl amb_edge (wst, k) tl).1 in
  let wm := Interface.original_tl_programs wst in
  let wm' := Interface.original_tl_programs wst' in
  (forall prog, ~ zone (AmbulanceComm.sim st) -> m !! tl = Some prog ->
     AmbulanceComm.sim st' = trafficlight_setProgram tl prog (AmbulanceComm.sim st)
     /\ m' = delete tl m
     /\ issued (AmbulanceComm.out st) (AmbulanceComm.out st')
        = [Printed (ReleasingControl amb_id tl); Called (SetProgram tl prog)])
  /\ (~ zone (AmbulanceComm.sim st) -> m !! tl = None -> st' = st)
  /\ (zone (AmbulanceComm.sim st) -> m !! tl = None ->
      m' = <[tl := trafficlight_getProgram (AmbulanceComm.sim st) tl]> m)
  /\ (zone (AmbulanceComm.sim st) -> forall prog, m !! tl = Some prog -> m' = m)
  /\ (forall tl', tl' <> tl -> m' !! tl' = m !! tl')
  /\ (zone (Interface.sim wst) -> wm !! tl = None ->
      wm' = <[tl := trafficlight_getProgram (Interface.sim wst) tl]> wm)
  /\ (zone (Interface.sim wst) -> forall prog, wm !! tl = Some prog -> wm' = wm)
  /\ (~ zone (Interface.sim wst) -> wst' = wst)
  /\ wm ⊆ wm'
  /\ (List.filter (is_ambulance (simulationStep (AmbulanceComm.sim st)))
        (vehicle_getIDList (simulationStep (AmbulanceComm.sim st))) = [] ->
      AmbulanceComm.original_tl_programs (AmbulanceComm.loop_body st) = m).
Proof.
  intros zone st' m m' wst' wm wm'.
  assert (Hz : forall s, zone s
                <-> on_controlled_lanes amb_edge (trafficlight_getControlledLanes s tl) = true).
  { intros s. symmetry. apply on_controlled_lanes_occurs. }
  assert (Hnz : forall s, ~ zone s
                <-> on_controlled_lanes amb_edge (trafficlight_getControlledLanes s tl) = false).
  { intros s. rewrite Hz. by destruct (on_controlled_lanes _ _). }
  split_and!.
  - intros prog Hout Hm. apply Hnz in Hout. subst st' m'.
    rewrite process_tl_off by done. fold m. unfold AmbulanceComm.release.
    fold m. rewrite Hm. simpl. split; [done | split; [done |]].
    by rewrite <- app_assoc, issued_app.
  - intros Hout Hm. apply Hnz in Hout. subst st'. rewrite process_tl_off by done.
    unfold AmbulanceComm.release. fold m. by rewrite Hm.
  - intros Hin Hm. apply Hz in Hin. subst m' st'. rewrite process_tl_on by done.
    rewrite override_programs, take_control_programs. fold m. by rewrite Hm.
  - intros Hin prog Hm. apply Hz in Hin. subst m' st'. rewrite process_tl_on by done.
    rewrite override_programs, take_control_programs. fold m. by rewrite Hm.
  - intros tl' Hne. subst m' st'.
    destruct (on_controlled_lanes amb_edge
                (trafficlight_getControlledLanes (AmbulanceComm.sim st) tl)) eqn:Hon.
    + rewrite process_tl_on by done. rewrite override_programs, take_control_programs.
      fold m. destruct (m !! tl); [done | by rewrite lookup_insert_ne].
    + rewrite process_tl_off by done. unfold AmbulanceComm.release. fold m.
      destruct (m !! tl); [simpl; by rewrite lookup_delete_ne | done].
  - intros Hin Hm. apply Hz in Hin. subst wm' wst'. rewrite worker_process_tl_on by done.
    simpl. unfold Interface.override.
    destruct (len _ =? len _); simpl; rewrite worker_take_control_programs; fold wm;
      by rewrite Hm.
  - intros Hin prog Hm. apply Hz in Hin. subst wm' wst'. rewrite worker_process_tl_on by done.
    simpl. unfold Interface.override.
    destruct (len _ =? len _); simpl; rewrite worker_take_control_programs; fold wm;
      by rewrite Hm.
  - intros Hout. apply Hnz in Hout. subst wst'. by rewrite worker_process_tl_off.
  - apply worker_process_tl_spec.
  - intros Hnone. unfold AmbulanceComm.loop_body. simpl. by rewrite Hnone.
Qed.

End SavedPrograms.

(** An entry that is never removed: the ambulance takes control of [tl1]
    in the first step and has left the simulation in the second, where the
    run ends; the entry is still there and [setProgram] was never called. *)
Lemma entry_left_behind :
  let s0 := Toy.mkSim (Toy.empty_road 1) [Toy.lonely_road 1; Toy.empty_road 0] in
  exists st,
    AmbulanceComm.main_loop 2 (AmbulanceComm.initial s0) = Some st
    /\ AmbulanceComm.original_tl_programs st !! "tl1" = Some "0"
    /\ In (Printed (TakingControl "ambulance_1" "tl1")) (AmbulanceComm.out st)
    /\ vehicle_getIDList (AmbulanceComm.sim st) = []
    /\ simulation_getMinExpectedNumber (AmbulanceComm.sim st) = 0
    /\ List.filter
         (fun e => match e with Called (SetProgram _ _) => true | _ => false end)
         (AmbulanceComm.out st) = [].
Proof.
  intros s0. exists (Nat.iter 2 AmbulanceComm.loop_body (AmbulanceComm.initial s0)).
  split_and!; vm_compute; try reflexivity. tauto.
Qed.

(** The light [tl2] is not on the ambulance's road [e1] and has the saved
    program "7": the turn puts it back and forgets it. *)
Lemma saved_program_rule_witness :
  let s := Toy.mkSim (Toy.road [] 1) [] in
  let st := AmbulanceComm.mkState s {["tl2" := "7"]} 0 [] in
  let st' := AmbulanceComm.process_tl "ambulance_1" "e1" st "tl2" in
  AmbulanceComm.sim st' = trafficlight_setProgram "tl2" "7" s
  /\ AmbulanceComm.original_tl_programs st' = delete "tl2" {["tl2" := "7"]}
  /\ AmbulanceComm.out st'
     = [Printed (ReleasingControl "ambulance_1" "tl2"); Called (SetProgram "tl2" "7")].
Proof.
  intros s st st'.
  destruct (saved_program_rule st (Interface.initial s) 0 "ambulance_1" "e1" "tl2")
    as (Hrestore & _).
  apply (Hrestore "7").
  - intros Hzone. apply on_controlled_lanes_occurs in Hzone. vm_compute in Hzone.
    discriminate.
  - reflexivity.
Defined.


(** ** The alert scan *)

Section AlertScan.
Context {Sim : Type} `{Traci Sim}.
Import Py.

Lemma alerted_spec (s : Sim) (amb_id : string) (amb_pos : point) (amb_edge : string)
    (amb_lane_index : Z) (veh_id : string) :
  alerted s amb_id amb_pos amb_edge amb_lane_index veh_id = true
  <-> veh_id <> amb_id
      /\ vehicle_getVehicleClass s veh_id <> "emergency"
      /\ vehicle_getRoadID s veh_id = amb_edge
      /\ vehicle_getLaneIndex s veh_id = amb_lane_index
      /\ (0 < distance amb_pos (vehicle_getPosition s veh_id) < 100)%R
      /\ (fst (vehicle_getPosition s veh_id) > fst amb_pos)%R.
Proof.
  unfold alerted, skipped, ahead_in_range, Rgtb, PROACTIVE_DISTANCE.
  rewrite !andb_true_iff, negb_true_iff, orb_false_iff, !String.eqb_neq, String.eqb_eq,
    Z.eqb_eq, !Rltb_true.
  unfold Rgt. tauto.
Qed.


Lemma worker_process_ambulance_unfold (vehicles : list string) (wst : Interface.State)
    (amb_id : string) :
  Interface.process_ambulance vehicles wst amb_id
  = let st3 := (worker_before_scan wst amb_id).1 in
    let controlled_total :=
      Interface.traffic_lights_controlled st3 + (worker_before_scan wst amb_id).2 in
    let alerted_total :=
      Interface.total_alerted_this_step st3
      + Interface.count_alerted (Interface.sim st3) amb_id
          (vehicle_getPosition (Interface.sim wst) amb_id)
          (vehicle_getRoadID (Interface.sim wst) amb_id) vehicles in
    Interface.with_lock
      (Interface.log_ambulance (Interface.step st3)
         (vehicle_getSpeed (Interface.sim wst) amb_id) alerted_total controlled_total)
      (Interface.set_counters alerted_total controlled_total st3).
Proof.
  unfold Interface.process_ambulance, worker_before_scan. cbv zeta.
  by destruct (fold_left _ _ _).
Qed.

Lemma worker_before_scan_untouched (wst : Interface.State) (amb_id : string) :
  untouched wst (worker_before_scan wst amb_id).1.
Proof.
  unfold worker_before_scan. cbv zeta.
  match goal with |- context [fold_left (Interface.process_tl ?e) ?js (?s, 0)] =>
    destruct (worker_junctions_spec e js s 0) as (U & _) end.
  eapply untouched_trans; [| exact U]. by repeat split.
Qed.


End AlertScan.



(** ** The lane change *)

Section LaneChange.
Context {Sim : Type} `{Traci Sim}.
Import Py AmbulanceComm.
Local Abbreviation State := (@State Sim).

Lemma tried_calls (amb_id : string) (options : list Z) (st st' : State) (changed : bool) :
  tried amb_id options st st' changed ->
  forall c, In (Called c) (issued (out st) (out st')) ->
            exists lane, c = ChangeLane amb_id lane 10 /\ In lane options.
Proof.
  induction 1 as [st | l rest st st' ch Hc Ht IH | l rest st st' s1 ch Hc Hid Ht IH
                 | l rest st s1 Hc Hid]; intros c Hin.
  - by rewrite issued_same in Hin.
  - destruct (tried_out _ _ _ _ _ Ht) as (evs & asked & Ho & _).
    simpl in Ho. rewrite Ho, <- !app_assoc, issued_app in Hin. simpl in Hin.
    destruct Hin as [[= <-] | [? | Hin]]; [exists l; split; [done | by left] | done |].
    destruct (IH c) as (lane & -> & Hl).
    { rewrite Ho. simpl. by rewrite issued_app. }
    exists lane. split; [done | by right].
  - destruct (tried_out _ _ _ _ _ Ht) as (evs & asked & Ho & _).
    simpl in Ho. rewrite Ho, <- !app_assoc, issued_app in Hin. simpl in Hin.
    destruct Hin as [[= <-] | Hin]; [exists l; split; [done | by left] |].
    destruct (IH c) as (lane & -> & Hl).
    { rewrite Ho. simpl. by rewrite issued_app. }
    exists lane. split; [done | by right].
  - simpl in Hin. rewrite <- !app_assoc, issued_app in Hin. simpl in Hin.
    destruct Hin as [[= <-] | [? | []]]; [| done]. exists l. split; [done | by left].
Qed.

Lemma tried_first (amb_id : string) (l : Z) (rest : list Z) (st st' : State) (changed : bool) :
  tried amb_id (l :: rest) st st' changed ->
  let succeeded :=
    exists s1, vehicle_changeLane amb_id l 10 (sim st) = Some s1
               /\ vehicle_getLaneID s1 amb_id <> vehicle_getLaneID (sim st) amb_id in
  (succeeded -> changed = true /\ lanes_asked (issued (out st) (out st')) = [l])
  /\ (~ succeeded ->
      exists st1,
        sim st1 = effect (ChangeLane amb_id l 10) (sim st)
        /\ tried amb_id rest st1 st' changed
        /\ lanes_asked (issued (out st) (out st')) = l :: lanes_asked (issued (out st1) (out st'))
        /\ (vehicle_changeLane amb_id l 10 (sim st) = None ->
            In (Printed (LaneChangeError amb_id l)) (issued (out st) (out st1)))).
Proof.
  intros Ht succeeded. inversion Ht as [| l' rest' sa sb ch Hc Hr | l' rest' sa sb s1 ch Hc Hid Hr
                                        | l' rest' sa s1 Hc Hid]; subst.
  - split; [intros (s1 & Hs & _); congruence |]. intros _.
    eexists. split_and!; [| exact Hr | |].
    + done.
    + destruct (tried_out _ _ _ _ _ Hr) as (evs & asked & Ho & _). rewrite Ho. simpl.
      by rewrite (issued_app ((out st ++ [_]) ++ [_]) evs), <- !app_assoc, issued_app.
    + intros _. simpl. rewrite <- app_assoc, issued_app. right. by left.
  - split; [intros (s2 & Hs & Hne); congruence |]. intros _.
    eexists. split_and!; [| exact Hr | |].
    + done.
    + destruct (tried_out _ _ _ _ _ Hr) as (evs & asked & Ho & _). rewrite Ho. simpl.
      by rewrite (issued_app (out st ++ [_]) evs), <- !app_assoc, issued_app.
    + intros Hnone. congruence.
  - split; [| intros Hn; exfalso; apply Hn; by exists s1].
    intros _. split; [done |]. simpl. by rewrite <- !app_assoc, issued_app.
Qed.

Lemma detected_without_candidate (vehicles : list string) (st : State) (amb_id veh_id : string) :
  detected vehicles st amb_id = Some veh_id ->
  lane_options (vehicle_getLaneIndex (sim st) amb_id)
    (edge_getLaneNumber (sim (before_scan st amb_id)) (vehicle_getRoadID (sim st) amb_id)) = [] ->
  process_ambulance vehicles st amb_id
  = print (OthersStopping amb_id)
      (print (Alerting amb_id veh_id
                (Int_part (distance (vehicle_getPosition (sim st) amb_id)
                             (vehicle_getPosition (sim (before_scan st amb_id)) veh_id))))
         (before_scan st amb_id)).
Proof.
  intros Hd Hopt. rewrite process_ambulance_unfold. cbv zeta. rewrite Hd.
  unfold react. cbn [sim print]. rewrite Hopt. reflexivity.
Qed.

Lemma lanes_asked_call (evs : list Event) :
  lanes_asked evs <> [] -> exists v lane d, In (Called (ChangeLane v lane d)) evs.
Proof.
  induction evs as [|e evs IH]; [done |]. intros Hne.
  destruct e as [[| | | | | v lane d] | m];
    try (destruct (IH Hne) as (v' & lane' & d' & Hin); exists v', lane', d'; by right).
  exists v, lane, d. by left.
Qed.

(** C5: in the main script a lane change is attempted exactly in the
    turns whose scan detected a vehicle while the ambulance has a candidate
    lane; a detection on an edge without a candidate lane (lane 0 of a
    one-lane edge) is followed by the alert and the stopping line only.
    The candidates are the lane index plus one, if below the edge's lane
    number, then the lane index minus one, if not negative.  They are tried
    in that order by the rule [tried]: the next candidate is tried only
    after an attempt that raised (caught and logged, the loop goes on) or
    left the lane identifier as it was, and trying stops at the first
    attempt after which the identifier has changed. *)
Theorem lane_change_rule (vehicles : list string) (st : State) (amb_id : string) :
  let amb_pos := vehicle_getPosition (sim st) amb_id in
  let amb_edge := vehicle_getRoadID (sim st) amb_id in
  let amb_lane_index := vehicle_getLaneIndex (sim st) amb_id in
  let st3 := before_scan st amb_id in
  let num_lanes := edge_getLaneNumber (sim st3) amb_edge in
  let options := lane_options amb_lane_index num_lanes in
  let st' := process_ambulance vehicles st amb_id in
  let evs := issued (out st3) (out st') in
  options = (if decide (amb_lane_index + 1 < num_lanes) then [amb_lane_index + 1] else [])
            ++ (if decide (amb_lane_index - 1 >= 0) then [amb_lane_index - 1] else [])
  /\ (detected vehicles st amb_id = None ->
      evs = [Printed (MovingFreely amb_id)] /\ sim st' = sim st3)
  /\ (forall veh_id, detected vehicles st amb_id = Some veh_id ->
        exists st4 changed,
          tried amb_id options
            (print (Alerting amb_id veh_id
                      (Int_part (distance amb_pos (vehicle_getPosition (sim st3) veh_id)))) st3)
            st4 changed
          /\ st' = (if changed then st4 else print (OthersStopping amb_id) st4)
          /\ lanes_asked evs `prefix_of` options
          /\ (options <> [] -> lanes_asked evs <> [])
          /\ (changed = false -> lanes_asked evs = options))
  /\ (forall c, In (Called c) evs ->
        is_Some (detected vehicles st amb_id)
        /\ exists lane, c = ChangeLane amb_id lane 10 /\ In lane options)
  /\ (forall l rest sa sb changed,
        tried amb_id (l :: rest) sa sb changed ->
        let succeeded :=
          exists s1, vehicle_changeLane amb_id l 10 (sim sa) = Some s1
                     /\ vehicle_getLaneID s1 amb_id <> vehicle_getLaneID (sim sa) amb_id in
        (succeeded -> changed = true /\ lanes_asked (issued (out sa) (out sb)) = [l])
        /\ (~ succeeded ->
            exists sa1,
              sim sa1 = effect (ChangeLane amb_id l 10) (sim sa)
              /\ tried amb_id rest sa1 sb changed
              /\ lanes_asked (issued (out sa) (out sb))
                 = l :: lanes_asked (issued (out sa1) (out sb))
              /\ (vehicle_changeLane amb_id l 10 (sim sa) = None ->
                  In (Printed (LaneChangeError amb_id l)) (issued (out sa) (out sa1)))))
  /\ (lanes_asked evs <> [] <-> is_Some (detected vehicles st amb_id) /\ options <> [])
  /\ (forall veh_id, detected vehicles st amb_id = Some veh_id -> options = [] ->
        evs = [Printed (Alerting amb_id veh_id
                 (Int_part (distance amb_pos (vehicle_getPosition (sim st3) veh_id))));
               Printed (OthersStopping amb_id)]
        /\ sim st' = sim st3).
Proof.
  intros amb_pos amb_edge amb_lane_index st3 num_lanes options st' evs.
  assert (Hst' : st' = match detected vehicles st amb_id with
                       | Some veh_id =>
                           react amb_id amb_edge amb_lane_index true
                             (print (Alerting amb_id veh_id
                                (Int_part (distance amb_pos
                                             (vehicle_getPosition (sim st3) veh_id)))) st3)
                       | None => react amb_id amb_edge amb_lane_index false st3
                       end) by done.
  assert (Hdet : forall veh_id, detected vehicles st amb_id = Some veh_id ->
            exists st4 changed,
              tried amb_id options
                (print (Alerting amb_id veh_id
                   (Int_part (distance amb_pos (vehicle_getPosition (sim st3) veh_id)))) st3)
                st4 changed
              /\ st' = (if changed then st4 else print (OthersStopping amb_id) st4)).
  { intros veh_id Hd. rewrite Hst', Hd. unfold react.
    match goal with |- context [try_lanes ?a ?o ?s] =>
      pose proof (try_lanes_tried a o s) as Ht; destruct (try_lanes a o s) as [st4 changed] end.
    exists st4, changed. split; [exact Ht | by destruct changed]. }
  assert (Hasked : forall veh_id, detected vehicles st amb_id = Some veh_id ->
            exists st4 changed,
              tried amb_id options
                (print (Alerting amb_id veh_id
                   (Int_part (distance amb_pos (vehicle_getPosition (sim st3) veh_id)))) st3)
                st4 changed
              /\ st' = (if changed then st4 else print (OthersStopping amb_id) st4)
              /\ lanes_asked evs `prefix_of` options
              /\ (options <> [] -> lanes_asked evs <> [])
              /\ (changed = false -> lanes_asked evs = options)).
  { intros veh_id Hd. destruct (Hdet veh_id Hd) as (st4 & changed & Ht & Heq).
    exists st4, changed. split; [done | split; [done |]].
    destruct (tried_out _ _ _ _ _ Ht) as (evs4 & asked & Ho & _ & Ha & Hp & Hall & Hne).
    simpl in Ho.
    assert (Hevs : lanes_asked evs = asked).
    { subst evs. rewrite Heq. destruct changed; simpl; rewrite Ho, <- !app_assoc, issued_app.
      - done.
      - unfold lanes_asked in *. simpl. rewrite omap_app. simpl. by rewrite app_nil_r. }
    rewrite Hevs. done. }
  assert (Hcalls : forall c, In (Called c) evs ->
            is_Some (detected vehicles st amb_id)
            /\ exists lane, c = ChangeLane amb_id lane 10 /\ In lane options).
  { intros c Hin. destruct (detected vehicles st amb_id) as [veh_id|] eqn:Hd.
    + split; [done |]. destruct (Hdet veh_id eq_refl) as (st4 & changed & Ht & Heq).
      apply (tried_calls _ _ _ _ _ Ht).
      destruct (tried_out _ _ _ _ _ Ht) as (evs4 & asked & Ho & _).
      subst evs. rewrite Heq in Hin. simpl in Ho. rewrite Ho. simpl.
      rewrite issued_app.
      destruct changed; simpl in Hin; rewrite Ho, <- !app_assoc, issued_app in Hin.
      * simpl in Hin. by destruct Hin as [? | Hin].
      * simpl in Hin. destruct Hin as [? | Hin]; [done |].
        by apply in_app_iff in Hin as [Hin | [? | []]].
    + exfalso. subst evs. rewrite Hst' in Hin. unfold react in Hin. simpl in Hin.
      rewrite issued_app in Hin. by destruct Hin as [? | []]. }
  split_and!.
  - subst options. unfold lane_options.
    destruct (Z.ltb_spec (amb_lane_index + 1) num_lanes), (Z.geb_spec (amb_lane_index - 1) 0);
      repeat case_decide; (done || lia).
  - intros Hd. subst evs. rewrite Hst', Hd. unfold react. simpl.
    by rewrite issued_app.
  - exact Hasked.
  - exact Hcalls.
  - intros l rest sa sb changed Ht. by apply tried_first.
  - split.
    + intros Hne. destruct (lanes_asked_call _ Hne) as (v & lane & d & Hin).
      destruct (Hcalls _ Hin) as (Hsome & lane' & _ & Hl).
      split; [exact Hsome |]. intros Hnil. rewrite Hnil in Hl. destruct Hl.
    + intros [[veh_id Hd] Hne].
      destruct (Hasked veh_id Hd) as (st4 & changed & _ & _ & _ & Hask & _). by apply Hask.
  - intros veh_id Hd Hnil.
    destruct (Hdet veh_id Hd) as (st4 & changed & Ht & Heq).
    rewrite Hnil in Ht. inversion Ht; subst. subst evs. rewrite Heq. simpl.
    split; [| done]. by rewrite <- app_assoc, issued_app.
Qed.

End LaneChange.

(** The ambulance follows [car_1] on lane 0 of the two-lane road [e1] and
    the simulator honours a change to lane 1 at once: the only candidate
    is lane 1, and it is asked for. *)
Lemma lane_change_rule_witness :
  let s := Toy.mkSim (Toy.road [(1, Toy.Honour)] 1) [] in
  let vehicles := vehicle_getIDList s in
  let st := AmbulanceComm.initial s in
  let st3 := before_scan st "ambulance_1" in
  let st' := AmbulanceComm.process_ambulance vehicles st "ambulance_1" in
  detected vehicles st "ambulance_1" = Some "car_1"
  /\ AmbulanceComm.lane_options 0 (edge_getLaneNumber (AmbulanceComm.sim st3) "e1") = [1]
  /\ lanes_asked (issued (AmbulanceComm.out st3) (AmbulanceComm.out st')) = [1].
Proof.
  intros s vehicles st st3 st'.
  assert (Hp1 : vehicle_getPosition (AmbulanceComm.sim st3) "car_1" = (40%R, 0%R))
    by (vm_compute; reflexivity).
  assert (Hd1 : distance (10%R, 0%R) (40%R, 0%R) = 30%R).
  { rewrite distance_level, Rabs_left; lra. }
  assert (Hdet : detected vehicles st "ambulance_1" = Some "car_1").
  { apply scan_first. exists ["ambulance_1"], ["car_2"].
    split; [reflexivity | split].
    - apply alerted_spec. fold st3. rewrite Hp1.
      change (vehicle_getPosition (AmbulanceComm.sim st) "ambulance_1") with (10%R, 0%R).
      rewrite Hd1. cbn [fst]. split_and!; try (vm_compute; congruence); lra.
    - intros u Hu. apply list_elem_of_singleton in Hu. subst u. vm_compute. reflexivity. }
  assert (Hopt : AmbulanceComm.lane_options 0 (edge_getLaneNumber (AmbulanceComm.sim st3) "e1") = [1])
    by (vm_compute; reflexivity).
  destruct (lane_change_rule vehicles st "ambulance_1") as (_ & _ & Hrule & _).
  destruct (Hrule "car_1" Hdet) as (st4 & changed & _ & _ & Hpre & Hne & _).
  change (AmbulanceComm.lane_options _ _) with (AmbulanceComm.lane_options 0 (edge_getLaneNumber (AmbulanceComm.sim st3) "e1"))
    in Hpre, Hne.
  rewrite Hopt in Hpre, Hne. fold st3 st' in Hpre, Hne.
  split; [exact Hdet | split; [exact Hopt |]].
  destruct (lanes_asked (issued (AmbulanceComm.out st3) (AmbulanceComm.out st')))
    as [|a [|b rest]].
  - exfalso. by apply Hne.
  - destruct Hpre as [k Hk]. by injection Hk as ->.
  - destruct Hpre as [k Hk]. discriminate.
Defined.

(** [ambulance_2] follows [car_3] on lane 0 of the one-lane road [e5]: the
    scan detects the car, neither lane 1 nor lane -1 is a candidate, and
    the turn is the two commands on the ambulance, the alert and the
    stopping line; no lane change is asked for. *)
Lemma no_lane_to_try :
  let s := Toy.mkSim (Toy.narrow_road 1) [] in
  let vehicles := vehicle_getIDList s in
  let st := AmbulanceComm.initial s in
  let st3 := before_scan st "ambulance_2" in
  let st' := AmbulanceComm.process_ambulance vehicles st "ambulance_2" in
  detected vehicles st "ambulance_2" = Some "car_3"
  /\ vehicle_getLaneIndex s "ambulance_2" = 0
  /\ edge_getLaneNumber (AmbulanceComm.sim st3) "e5" = 1
  /\ AmbulanceComm.lane_options 0 1 = []
  /\ issued (AmbulanceComm.out st) (AmbulanceComm.out st')
     = [Called (SetColor "ambulance_2" RED); Called (SetSpeedMode "ambulance_2" 0);
        Printed (Alerting "ambulance_2" "car_3" 30);
        Printed (OthersStopping "ambulance_2")]
  /\ lanes_asked (issued (AmbulanceComm.out st) (AmbulanceComm.out st')) = [].
Proof.
  intros s vehicles st st3 st'.
  assert (Hp : vehicle_getPosition (AmbulanceComm.sim st3) "car_3" = (40%R, 0%R))
    by (vm_compute; reflexivity).
  assert (Hd1 : distance (10%R, 0%R) (40%R, 0%R) = 30%R).
  { rewrite distance_level, Rabs_left; lra. }
  assert (Hdet : detected vehicles st "ambulance_2" = Some "car_3").
  { apply scan_first. exists ["ambulance_2"], [].
    split; [reflexivity | split].
    - apply alerted_spec. fold st3. rewrite Hp.
      change (vehicle_getPosition (AmbulanceComm.sim st) "ambulance_2") with (10%R, 0%R).
      rewrite Hd1. cbn [fst]. split_and!; try (vm_compute; congruence); lra.
    - intros u Hu. apply list_elem_of_singleton in Hu. subst u. vm_compute. reflexivity. }
  assert (Hout : issued (AmbulanceComm.out st) (AmbulanceComm.out st')
                 = [Called (SetColor "ambulance_2" RED); Called (SetSpeedMode "ambulance_2" 0);
                    Printed (Alerting "ambulance_2" "car_3" 30);
                    Printed (OthersStopping "ambulance_2")]).
  { unfold st'. rewrite (detected_without_candidate vehicles st "ambulance_2" "car_3" Hdet)
      by (vm_compute; reflexivity).
    fold st3. rewrite Hp.
    change (vehicle_getPosition (AmbulanceComm.sim st) "ambulance_2") with (10%R, 0%R).
    rewrite Hd1. replace (Int_part 30) with 30 by (apply Int_part_spec; lra).
    cbn [AmbulanceComm.out AmbulanceComm.print].
    replace (AmbulanceComm.out st3)
      with [Called (SetColor "ambulance_2" RED); Called (SetSpeedMode "ambulance_2" 0)]
      by (vm_compute; reflexivity).
    reflexivity. }
  split; [exact Hdet |]. split; [vm_compute; reflexivity |].
  split; [vm_compute; reflexivity |]. split; [reflexivity |].
  split; [exact Hout |]. rewrite Hout. reflexivity.
Qed.

(** ** Who gets the priority treatment *)

(** *** The commands reach the simulator *)

Section ReplayFacts.
Context {Sim : Type} `{Traci Sim}.

Lemma replay_app (evs1 evs2 : list Event) (s : Sim) :
  replay (evs1 ++ evs2) s = replay evs2 (replay evs1 s).
Proof. apply fold_left_app. Qed.

Lemma replay_call (c : Call) (s : Sim) : replay [Called c] s = effect c s.
Proof. by destruct c. Qed.

Lemma replayed_refl (s : Sim) (o : list Event) : replayed s o s o.
Proof. exists []. by rewrite app_nil_r. Qed.

Lemma replayed_trans (s1 s2 s3 : Sim) (o1 o2 o3 : list Event) :
  replayed s1 o1 s2 o2 -> replayed s2 o2 s3 o3 -> replayed s1 o1 s3 o3.
Proof.
  intros (e1 & -> & ->) (e2 & -> & ->). exists (e1 ++ e2).
  by rewrite app_assoc, replay_app.
Qed.

Lemma replayed_call (c : Call) (s : Sim) (o : list Event) :
  replayed s o (effect c s) (o ++ [Called c]).
Proof. exists [Called c]. by rewrite replay_call. Qed.

Lemma replayed_print (m : Message) (s : Sim) (o : list Event) :
  replayed s o s (o ++ [Printed m]).
Proof. by exists [Printed m]. Qed.

Lemma replayed_fold {A B : Type} (sm : A -> Sim) (ou : A -> list Event)
    (f : A -> B -> A) (l : list B) (a : A) :
  (forall a b, replayed (sm a) (ou a) (sm (f a b)) (ou (f a b))) ->
  replayed (sm a) (ou a) (sm (fold_left f l a)) (ou (fold_left f l a)).
Proof.
  intros Hf. revert a. induction l as [|b l IH]; intros a; [apply replayed_refl |].
  cbn [fold_left]. eapply replayed_trans; [apply Hf | apply IH].
Qed.

Lemma replayed_issued (s s' : Sim) (o o' : list Event) :
  replayed s o s' o' -> s' = replay (issued o o') s.
Proof. intros (evs & -> & ->). by rewrite issued_app. Qed.

End ReplayFacts.


Section MainReplay.
Context {Sim : Type} `{Traci Sim}.
Import AmbulanceComm.
Local Abbreviation State := (@State Sim).
Local Abbreviation follows st st' := (replayed (sim st) (out st) (sim st') (out st')).

Lemma main_send_follows (c : Call) (st : State) : follows st (send c st).
Proof. apply replayed_call. Qed.

Lemma main_print_follows (m : Message) (st : State) : follows st (print m st).
Proof. apply replayed_print. Qed.

Lemma main_process_tl_follows (amb_id amb_edge : string) (st : State) (tl : string) :
  follows st (process_tl amb_id amb_edge st tl).
Proof.
  unfold process_tl, take_control, override, release.
  repeat case_match; cbn [sim out print send set_programs];
    eauto using replayed_trans, replayed_refl, replayed_call, replayed_print.
Qed.

Lemma main_try_lanes_follows (amb_id : string) (options : list Z) (st : State) :
  follows st (try_lanes amb_id options st).1.
Proof.
  revert st. induction options as [|l rest IH]; intros st; [apply replayed_refl |].
  cbn [try_lanes]. repeat case_match; cbn [fst sim out print send].
  - eapply replayed_trans; [| apply IH]. cbn [sim out print send].
    eauto using replayed_trans, replayed_call, replayed_print.
  - eauto using replayed_trans, replayed_call, replayed_print.
  - eapply replayed_trans; [| apply IH]. apply replayed_call.
Qed.

Lemma main_react_follows (amb_id amb_edge : string) (amb_lane_index : Z) (b : bool) (st : State) :
  follows st (react amb_id amb_edge amb_lane_index b st).
Proof.
  unfold react. destruct b; [| apply replayed_print].
  pose proof (main_try_lanes_follows amb_id
    (lane_options amb_lane_index (edge_getLaneNumber (sim st) amb_edge)) st) as Ht.
  destruct (try_lanes _ _ st) as [st1 changed]. cbn [fst] in Ht.
  destruct changed; cbn [negb]; [exact Ht |].
  eapply replayed_trans; [exact Ht | apply replayed_print].
Qed.

Lemma main_process_ambulance_follows (vehicles : list string) (st : State) (amb_id : string) :
  follows st (process_ambulance vehicles st amb_id).
Proof.
  unfold process_ambulance. cbv zeta.
  eapply replayed_trans; [apply (main_send_follows (SetColor amb_id RED)) |].
  eapply replayed_trans; [apply (main_send_follows (SetSpeedMode amb_id 0)) |].
  eapply replayed_trans;
    [apply (replayed_fold sim out (process_tl amb_id (vehicle_getRoadID (sim st) amb_id)));
     intros; apply main_process_tl_follows |].
  case_match.
  - eapply replayed_trans; [apply main_print_follows | apply main_react_follows].
  - apply main_react_follows.
Qed.

Lemma main_loop_body_replay (st : State) :
  sim (loop_body st) = replay (issued (out st) (out (loop_body st))) (sim st).
Proof.
  apply replayed_issued. unfold loop_body. cbv zeta. cbn [sim out].
  eapply replayed_trans; [apply (main_send_follows SimulationStep) |].
  apply (replayed_fold sim out (process_ambulance (vehicle_getIDList (sim (send SimulationStep st))))).
  intros. apply main_process_ambulance_follows.
Qed.

End MainReplay.

Section WorkerReplay.
Context {Sim : Type} `{Traci Sim}.
Import Interface.
Local Abbreviation State := (@State Sim).
Local Abbreviation follows st st' := (replayed (sim st) (out st) (sim st') (out st')).

Lemma worker_process_tl_follows (amb_edge : string) (acc : State * Z) (tl : string) :
  follows acc.1 (process_tl amb_edge acc tl).1.
Proof.
  destruct acc as [st n]. unfold process_tl, take_control, override.
  repeat case_match; cbn [fst sim out send set_programs];
    eauto using replayed_trans, replayed_refl, replayed_call.
Qed.

Lemma worker_process_ambulance_follows (vehicles : list string) (st : State) (amb_id : string) :
  follows st (process_ambulance vehicles st amb_id).
Proof.
  unfold process_ambulance. cbv zeta.
  pose proof (replayed_fold (fun acc : State * Z => sim acc.1) (fun acc => out acc.1)
                (process_tl (vehicle_getRoadID (sim st) amb_id))
                (trafficlight_getIDList (sim (send (SetSpeedMode amb_id 0) (send (SetColor amb_id RED) st))))
                (send (SetSpeedMode amb_id 0) (send (SetColor amb_id RED) st), 0)
                (fun acc tl => worker_process_tl_follows _ acc tl)) as Hf.
  destruct (fold_left _ _ _) as [st3 n]. cbn [fst with_lock set_counters sim out] in *.
  eapply replayed_trans; [| exact Hf].
  eapply replayed_trans; apply replayed_call.
Qed.

Lemma worker_loop_body_replay (st : State) :
  sim (loop_body st) = replay (issued (out st) (out (loop_body st))) (sim st).
Proof.
  apply replayed_issued. unfold loop_body. cbv zeta. cbn [sim out with_lock].
  eapply replayed_trans; [apply (replayed_call SimulationStep) |].
  apply (replayed_fold sim out
           (process_ambulance (vehicle_getIDList (sim (send SimulationStep st))))
           _ (with_lock clear_vehicle_data (set_counters 0 0 (send SimulationStep st)))).
  intros. apply worker_process_ambulance_follows.
Qed.

End WorkerReplay.

(** *** Lowercasing *)

Section Lowercase.
Import Py.

Lemma lower_app (u v : string) : lower (u +:+ v) = lower u +:+ lower v.
Proof.
  induction u as [|c u IH]; [done |].
  rewrite append_cons. cbn [lower]. by rewrite IH, append_cons.
Qed.

Lemma lower_char_other (c : ascii) :
  (nat_of_ascii c < 128)%nat ->
  ~ In c (list_ascii_of_string "ABCDEFGHIJKLMNOPQRSTUVWXYZ") ->
  lower_char c = c.
Proof.
  intros Hascii Hnot.
  destruct c as [[] [] [] [] [] [] [] []];
    first [ reflexivity
          | exfalso; vm_compute in Hascii; lia
          | exfalso; apply Hnot; vm_compute; tauto ].
Qed.

End Lowercase.

(** *** The rule *)

Section Priority.
Context {Sim : Type} `{Traci Sim}.
Import Py.

Lemma issued_loop_body (st : AmbulanceComm.State) :
  exists evs,
    issued (AmbulanceComm.out st) (AmbulanceComm.out (AmbulanceComm.loop_body st))
    = Called SimulationStep :: evs
    /\ turns (List.filter (is_ambulance (simulationStep (AmbulanceComm.sim st)))
                (vehicle_getIDList (simulationStep (AmbulanceComm.sim st)))) evs.
Proof.
  destruct (loop_body_out st) as (evs & Ho & Ht). exists evs. by rewrite Ho, issued_app.
Qed.

Lemma issued_worker_loop_body (wst : Interface.State) :
  exists evs,
    issued (Interface.out wst) (Interface.out (Interface.loop_body wst))
    = Called SimulationStep :: evs
    /\ turns (List.filter (is_ambulance (simulationStep (Interface.sim wst)))
                (vehicle_getIDList (simulationStep (Interface.sim wst)))) evs.
Proof.
  destruct (worker_loop_body_spec wst) as (_ & _ & _ & _ & _ & evs & Ho & Ht).
  exists evs. by rewrite Ho, issued_app.
Qed.

(** C6: a vehicle is an ambulance when its identifier, lowercased,
    contains "ambulance" or its class is "emergency".  In every step of
    either script, after the simulation step, the vehicles present that
    satisfy this are exactly the vehicles [setColor] is called for, always
    with red, and exactly the vehicles [setSpeedMode] is called for, always
    with mode 0.  The calls are what the simulator is given: the simulator
    after the step is the simulator before it with the step's calls made in
    order, the two calls on an ambulance being TraCI's [vehicle.setColor]
    and then [vehicle.setSpeedMode].  Lowercasing works character by
    character; it takes each capital A to Z to its small letter and leaves
    every other ASCII character as it is. *)
Theorem priority_treatment (st : AmbulanceComm.State) (wst : Interface.State) :
  let s1 := simulationStep (AmbulanceComm.sim st) in
  let evs := issued (AmbulanceComm.out st) (AmbulanceComm.out (AmbulanceComm.loop_body st)) in
  let w1 := simulationStep (Interface.sim wst) in
  let wevs := issued (Interface.out wst) (Interface.out (Interface.loop_body wst)) in
  (forall s v, is_ambulance s v = true
               <-> occurs_in "ambulance" (lower v) \/ vehicle_getVehicleClass s v = "emergency")
  /\ (forall v c, In (Called (SetColor v c)) evs
                  <-> In v (vehicle_getIDList s1) /\ is_ambulance s1 v = true /\ c = RED)
  /\ (forall v m, In (Called (SetSpeedMode v m)) evs
                  <-> In v (vehicle_getIDList s1) /\ is_ambulance s1 v = true /\ m = 0)
  /\ (forall v c, In (Called (SetColor v c)) wevs
                  <-> In v (vehicle_getIDList w1) /\ is_ambulance w1 v = true /\ c = RED)
  /\ (forall v m, In (Called (SetSpeedMode v m)) wevs
                  <-> In v (vehicle_getIDList w1) /\ is_ambulance w1 v = true /\ m = 0)
  /\ AmbulanceComm.sim (AmbulanceComm.loop_body st) = replay evs (AmbulanceComm.sim st)
  /\ Interface.sim (Interface.loop_body wst) = replay wevs (Interface.sim wst)
  /\ (forall v s, replay [Called (SetColor v RED); Called (SetSpeedMode v 0)] s
                  = vehicle_setSpeedMode v 0 (vehicle_setColor v RED s))
  /\ (forall u v, lower (u +:+ v) = lower u +:+ lower v)
  /\ (forall c, lower (String c "") = String (lower_char c) "")
  /\ lower "ABCDEFGHIJKLMNOPQRSTUVWXYZ" = "abcdefghijklmnopqrstuvwxyz"
  /\ (forall c, (nat_of_ascii c < 128)%nat ->
                ~ In c (list_ascii_of_string "ABCDEFGHIJKLMNOPQRSTUVWXYZ") ->
                lower_char c = c).
Proof.
  intros s1 evs w1 wevs.
  destruct (issued_loop_body st) as (evs' & He & Ht).
  destruct (issued_worker_loop_body wst) as (wevs' & Hwe & Hwt).
  fold evs s1 in He, Ht. fold wevs w1 in Hwe, Hwt.
  split_and!.
  - intros s v. unfold is_ambulance.
    by rewrite orb_true_iff, str_in_occurs, String.eqb_eq.
  - intros v c. rewrite He. simpl. rewrite (turns_set_color _ _ v c Ht), filter_In.
    split; [intros [? | ?]; [done | tauto] | tauto].
  - intros v m. rewrite He. simpl. rewrite (turns_set_speed_mode _ _ v m Ht), filter_In.
    split; [intros [? | ?]; [done | tauto] | tauto].
  - intros v c. rewrite Hwe. simpl. rewrite (turns_set_color _ _ v c Hwt), filter_In.
    split; [intros [? | ?]; [done | tauto] | tauto].
  - intros v m. rewrite Hwe. simpl. rewrite (turns_set_speed_mode _ _ v m Hwt), filter_In.
    split; [intros [? | ?]; [done | tauto] | tauto].
  - apply main_loop_body_replay.
  - apply worker_loop_body_replay.
  - reflexivity.
  - apply lower_app.
  - reflexivity.
  - reflexivity.
  - apply lower_char_other.
Qed.

End Priority.

(** After the step the road carries [Ambulance_7], marked by its name only
    and written with a capital, [van_1], marked by its class only, and
    [car_4]: the first two are coloured red and given speed mode 0, in the
    calls and in the simulator; the car keeps its colour and its mode. *)
Lemma priority_treatment_witness :
  let s := Toy.mkSim (Toy.empty_road 1) [Toy.mixed_road 1] in
  let st := AmbulanceComm.initial s in
  let st' := AmbulanceComm.loop_body st in
  let evs := issued (AmbulanceComm.out st) (AmbulanceComm.out st') in
  let after := fun id => Toy.vehicle (AmbulanceComm.sim st') id in
  vehicle_getIDList (simulationStep s) = ["Ambulance_7"; "van_1"; "car_4"]
  /\ Py.lower "Ambulance_7" = "ambulance_7"
  /\ In (Called (SetColor "Ambulance_7" RED)) evs
  /\ In (Called (SetSpeedMode "Ambulance_7" 0)) evs
  /\ In (Called (SetColor "van_1" RED)) evs
  /\ In (Called (SetSpeedMode "van_1" 0)) evs
  /\ (forall c, ~ In (Called (SetColor "car_4" c)) evs)
  /\ (forall m, ~ In (Called (SetSpeedMode "car_4" m)) evs)
  /\ AmbulanceComm.sim st' = replay evs s
  /\ (Toy.v_color (after "Ambulance_7") = RED /\ Toy.v_speed_mode (after "Ambulance_7") = 0)
  /\ (Toy.v_color (after "van_1") = RED /\ Toy.v_speed_mode (after "van_1") = 0)
  /\ (Toy.v_color (after "car_4") = (255, 255, 0, 255)
      /\ Toy.v_speed_mode (after "car_4") = 31).
Proof.
  intros s st st' evs after.
  destruct (priority_treatment st (Interface.initial s))
    as (_ & Hcol & Hmode & _ & _ & Hsim & _).
  split; [reflexivity |]. split; [reflexivity |].
  split; [apply Hcol; vm_compute; tauto |].
  split; [apply Hmode; vm_compute; tauto |].
  split; [apply Hcol; vm_compute; tauto |].
  split; [apply Hmode; vm_compute; tauto |].
  split.
  { intros c Hin. destruct (proj1 (Hcol "car_4" c) Hin) as (_ & Ha & _).
    vm_compute in Ha. discriminate. }
  split.
  { intros m Hin. destruct (proj1 (Hmode "car_4" m) Hin) as (_ & Ha & _).
    vm_compute in Ha. discriminate. }
  split; [exact Hsim |].
  split; [split; vm_compute; reflexivity |].
  split; [split; vm_compute; reflexivity |].
  split; vm_compute; reflexivity.
Defined.

(** ** The stepping loop *)

Section Stepping.
Context {Sim : Type} `{Traci Sim}.

Lemma main_loop_some (fuel : nat) (st st' : AmbulanceComm.State) :
  AmbulanceComm.main_loop fuel st = Some st' ->
  exists m,
    (m <= fuel)%nat
    /\ st' = Nat.iter m AmbulanceComm.loop_body st
    /\ simulation_getMinExpectedNumber (AmbulanceComm.sim st') <= 0
    /\ forall k, (k < m)%nat ->
         simulation_getMinExpectedNumber
           (AmbulanceComm.sim (Nat.iter k AmbulanceComm.loop_body st)) > 0.
Proof.
  revert st. induction fuel as [|fuel IH]; intros st Hrun.
  - destruct (Z_le_gt_dec (simulation_getMinExpectedNumber (AmbulanceComm.sim st)) 0)
      as [Hle | Hgt].
    + rewrite main_loop_stop in Hrun by done. injection Hrun as <-.
      exists 0%nat. split_and!; [lia | done | done |]. intros k Hk. lia.
    + by rewrite (proj2 (main_loop_go 0 st Hgt)) in Hrun.
  - destruct (Z_le_gt_dec (simulation_getMinExpectedNumber (AmbulanceComm.sim st)) 0)
      as [Hle | Hgt].
    + rewrite main_loop_stop in Hrun by done. injection Hrun as <-.
      exists 0%nat. split_and!; [lia | done | done |]. intros k Hk. lia.
    + rewrite (proj1 (main_loop_go fuel st Hgt)) in Hrun.
      destruct (IH _ Hrun) as (m & Hm & -> & Hstop & Hbefore).
      exists (S m). split_and!; [lia | by rewrite iter_loop_body | done |].
      intros [|k] Hk; [done |]. rewrite iter_loop_body. apply Hbefore. lia.
Qed.

Lemma worker_loop_some (fuel : nat) (wst wst' : Interface.State) :
  Interface.worker_loop fuel wst = Some wst' ->
  exists m,
    (m <= fuel)%nat
    /\ wst' = Nat.iter m Interface.loop_body wst
    /\ simulation_getMinExpectedNumber (Interface.sim wst') <= 0
    /\ forall k, (k < m)%nat ->
         simulation_getMinExpectedNumber
           (Interface.sim (Nat.iter k Interface.loop_body wst)) > 0.
Proof.
  revert wst. induction fuel as [|fuel IH]; intros wst Hrun.
  - destruct (Z_le_gt_dec (simulation_getMinExpectedNumber (Interface.sim wst)) 0)
      as [Hle | Hgt].
    + rewrite worker_loop_stop in Hrun by done. injection Hrun as <-.
      exists 0%nat. split_and!; [lia | done | done |]. intros k Hk. lia.
    + by rewrite (proj2 (worker_loop_go 0 wst Hgt)) in Hrun.
  - destruct (Z_le_gt_dec (simulation_getMinExpectedNumber (Interface.sim wst)) 0)
      as [Hle | Hgt].
    + rewrite worker_loop_stop in Hrun by done. injection Hrun as <-.
      exists 0%nat. split_and!; [lia | done | done |]. intros k Hk. lia.
    + rewrite (proj1 (worker_loop_go fuel wst Hgt)) in Hrun.
      destruct (IH _ Hrun) as (m & Hm & -> & Hstop & Hbefore).
      exists (S m). split_and!; [lia | by rewrite worker_iter | done |].
      intros [|k] Hk; [done |]. rewrite worker_iter. apply Hbefore. lia.
Qed.

(** C7: [report k] is what [getMinExpectedNumber] answers at the loop
    test after [k] iterations.  If some report is not positive, both loops
    end: there is a first such report, at test [m]; every earlier test
    found a positive number and went on; with room for [m] iterations the
    loop returns the state after exactly [m] of them, having called
    [simulationStep] [m] times and counted [step] up by [m]; with less
    room it is still running.  Conversely a loop that has ended has
    stopped at a report that is not positive after positive ones only. *)
Theorem loop_runs_while_expected (st : AmbulanceComm.State) (wst : Interface.State) :
  let after k := Nat.iter k AmbulanceComm.loop_body st in
  let report k := simulation_getMinExpectedNumber (AmbulanceComm.sim (after k)) in
  let wafter k := Nat.iter k Interface.loop_body wst in
  let wreport k := simulation_getMinExpectedNumber (Interface.sim (wafter k)) in
  (forall n, report n <= 0 ->
     exists m,
       (m <= n)%nat
       /\ (forall k, (k < m)%nat -> report k > 0)
       /\ report m <= 0
       /\ (forall fuel, (m <= fuel)%nat -> AmbulanceComm.main_loop fuel st = Some (after m))
       /\ (forall fuel, (fuel < m)%nat -> AmbulanceComm.main_loop fuel st = None)
       /\ steps_taken (issued (AmbulanceComm.out st) (AmbulanceComm.out (after m))) = m
       /\ AmbulanceComm.step (after m) = AmbulanceComm.step st + Z.of_nat m)
  /\ (forall n, wreport n <= 0 ->
        exists m,
          (m <= n)%nat
          /\ (forall k, (k < m)%nat -> wreport k > 0)
          /\ wreport m <= 0
          /\ (forall fuel, (m <= fuel)%nat -> Interface.worker_loop fuel wst = Some (wafter m))
          /\ (forall fuel, (fuel < m)%nat -> Interface.worker_loop fuel wst = None)
          /\ steps_taken (issued (Interface.out wst) (Interface.out (wafter m))) = m
          /\ Interface.step (wafter m) = Interface.step wst + Z.of_nat m)
  /\ (forall fuel st', AmbulanceComm.main_loop fuel st = Some st' ->
        exists m, st' = after m /\ report m <= 0 /\ forall k, (k < m)%nat -> report k > 0)
  /\ (forall fuel wst', Interface.worker_loop fuel wst = Some wst' ->
        exists m, wst' = wafter m /\ wreport m <= 0 /\ forall k, (k < m)%nat -> wreport k > 0).
Proof.
  intros after report wafter wreport. split_and!.
  - intros n Hn. destruct (main_loop_runs n st Hn) as (m & Hm & Hb & Hs & Hr & Hnr).
    exists m. split_and!; try done.
    + destruct (iter_loop_body_out m st) as (evs & Ho & Hsteps).
      subst after. cbv beta. by rewrite Ho, issued_app.
    + apply iter_loop_body_step.
  - intros n Hn. destruct (worker_loop_runs n wst Hn) as (m & Hm & Hb & Hs & Hr & Hnr).
    exists m. destruct (worker_iter_spec m wst) as (Hstep & _ & _ & _ & evs & Ho & Hsteps).
    split_and!; try done.
    subst wafter. cbv beta. by rewrite Ho, issued_app.
  - intros fuel st' Hrun. destruct (main_loop_some fuel st st' Hrun) as (m & _ & -> & Hs & Hb).
    by exists m.
  - intros fuel wst' Hrun.
    destruct (worker_loop_some fuel wst wst' Hrun) as (m & _ & -> & Hs & Hb).
    by exists m.
Qed.

End Stepping.

(** A run of three loop tests: the reports are 1, 1 and 0. *)
Lemma loop_runs_while_expected_witness :
  let s0 := Toy.mkSim (Toy.empty_road 1) [Toy.lonely_road 1; Toy.empty_road 0] in
  (exists m st',
     AmbulanceComm.main_loop 2 (AmbulanceComm.initial s0) = Some st'
     /\ steps_taken (AmbulanceComm.out st') = m
     /\ AmbulanceComm.step st' = Z.of_nat m
     /\ simulation_getMinExpectedNumber (AmbulanceComm.sim st') <= 0)
  /\ (exists m wst',
        Interface.run_simulation 2 s0 = Some wst'
        /\ steps_taken (Interface.out wst') = m
        /\ Interface.step wst' = Z.of_nat m
        /\ simulation_getMinExpectedNumber (Interface.sim wst') <= 0).
Proof.
  intros s0.
  destruct (loop_runs_while_expected (AmbulanceComm.initial s0) (Interface.initial s0))
    as (Hmain & Hworker & _ & _).
  split.
  - destruct (Hmain 2%nat) as (m & Hm & _ & Hstop & Hrun & _ & Hsteps & Hstep).
    { vm_compute. discriminate. }
    exists m, (Nat.iter m AmbulanceComm.loop_body (AmbulanceComm.initial s0)).
    split; [exact (Hrun 2%nat Hm) | split; [exact Hsteps | split; [exact Hstep | exact Hstop]]].
  - destruct (Hworker 2%nat) as (m & Hm & _ & Hstop & Hrun & _ & Hsteps & Hstep).
    { vm_compute. discriminate. }
    exists m, (Nat.iter m Interface.loop_body (Interface.initial s0)).
    split; [exact (Hrun 2%nat Hm) | split; [exact Hsteps | split; [exact Hstep | exact Hstop]]].
Defined.

(** ** The induction loops of [generate_rsu.py] *)

Section Rsu.
Context {Sim : Type} `{Traci Sim}.
Import GenerateRsu.

Lemma collect_spec (s : Sim) (emergency_edges : gset string) (e : string) :
  e ∈ collect s emergency_edges
  <-> e ∈ emergency_edges
      \/ exists veh_id, veh_id ∈ vehicle_getIDList s
                        /\ vehicle_getVehicleClass s veh_id = "emergency"
                        /\ e ∈ vehicle_getRoute s veh_id.
Proof.
  unfold collect. revert emergency_edges.
  induction (vehicle_getIDList s) as [|v rest IH]; intros edges; simpl.
  - split; [by left |]. intros [? | (v & Hv & _)]; [done | by apply elem_of_nil in Hv].
  - rewrite IH. destruct (String.eqb_spec (vehicle_getVehicleClass s v) "emergency") as [Hc | Hc].
    + rewrite elem_of_union, elem_of_list_to_set. split.
      * intros [[? | Hr] | (u & Hu & Hcu & Hru)]; [by left | |].
        -- right. exists v. split; [left | done].
        -- right. exists u. split; [by right | done].
      * intros [? | (u & Hu & Hcu & Hru)]; [by left; left |].
        apply elem_of_cons in Hu as [-> | Hu]; [by left; right |].
        right. by exists u.
    + split.
      * intros [? | (u & Hu & Hcu & Hru)]; [by left |].
        right. exists u. split; [by right | done].
      * intros [? | (u & Hu & Hcu & Hru)]; [by left |].
        apply elem_of_cons in Hu as [-> | Hu]; [done |]. right. by exists u.
Qed.

Lemma advance_spec (n : nat) (s : Sim) (emergency_edges : gset string) :
  (advance n s emergency_edges).1 = Nat.iter n simulationStep s
  /\ forall e, e ∈ (advance n s emergency_edges).2 ->
       e ∈ emergency_edges
       \/ exists k veh_id,
            (k <= n)%nat
            /\ veh_id ∈ vehicle_getIDList (Nat.iter k simulationStep s)
            /\ vehicle_getVehicleClass (Nat.iter k simulationStep s) veh_id = "emergency"
            /\ e ∈ vehicle_getRoute (Nat.iter k simulationStep s) veh_id.
Proof.
  revert s emergency_edges. induction n as [|n IH]; intros s edges; simpl.
  - split; [done |]. intros e He. by left.
  - destruct (IH (simulationStep s) (collect (simulationStep s) edges)) as [IH1 IH2].
    split; [by rewrite IH1, <- Nat.iter_succ_r |].
    intros e He. destruct (IH2 e He) as [Hc | (k & v & Hk & Hv & Hcl & Hr)].
    + apply collect_spec in Hc as [? | (v & Hv & Hcl & Hr)]; [by left |].
      right. exists 1%nat, v. split; [lia | done].
    + right. exists (S k), v. rewrite Nat.iter_succ_r. split; [lia | done].
Qed.

Lemma scan_edges_spec (s : Sim) :
  (exists k, (k <= 200)%nat /\ (scan_edges s).1 = Nat.iter k simulationStep s)
  /\ forall e, e ∈ (scan_edges s).2 ->
       exists k veh_id,
         (k <= 200)%nat
         /\ veh_id ∈ vehicle_getIDList (Nat.iter k simulationStep s)
         /\ vehicle_getVehicleClass (Nat.iter k simulationStep s) veh_id = "emergency"
         /\ e ∈ vehicle_getRoute (Nat.iter k simulationStep s) veh_id.
Proof.
  unfold scan_edges. destruct (decide (collect s ∅ = ∅)) as [Hempty | Hsome].
  - destruct (advance_spec 200 s (collect s ∅)) as [A1 A2]. split.
    + exists 200%nat. by split.
    + intros e He. destruct (A2 e He) as [Hc | ?]; [| done].
      rewrite Hempty in Hc. by apply not_elem_of_empty in Hc.
  - simpl. split; [by exists 0%nat; split; [lia |] |].
    intros e He. apply collect_spec in He as [He | (v & Hv & Hc & Hr)].
    + by apply not_elem_of_empty in He.
    + exists 0%nat, v. split; [lia | done].
Qed.

Lemma place_from (s : Sim) (edges : list string) (acc : list (string * R)) :
  fold_left
    (fun (rsu_list : list (string * R)) edge_id =>
       let lane_id := edge_id +:+ "_0" in
       if bool_decide (lane_id ∈ lane_getIDList s)
       then rsu_list ++ [(lane_id, rsu_pos (lane_getLength s lane_id))]
       else rsu_list)
    edges acc
  = acc ++ ((fun e => (e +:+ "_0", rsu_pos (lane_getLength s (e +:+ "_0"))))
              <$> filter (fun e => e +:+ "_0" ∈ lane_getIDList s) edges).
Proof.
  revert acc. induction edges as [|e rest IH]; intros acc; simpl.
  - by rewrite app_nil_r.
  - rewrite IH, filter_cons. case_bool_decide as Hin.
    + rewrite decide_True by done. by rewrite <- app_assoc.
    + by rewrite decide_False by done.
Qed.

Lemma place_spec (s : Sim) (edges : list string) :
  place s edges
  = (fun e => (e +:+ "_0", rsu_pos (lane_getLength s (e +:+ "_0"))))
      <$> filter (fun e => e +:+ "_0" ∈ lane_getIDList s) edges.
Proof. unfold place. by rewrite place_from. Qed.

Lemma rsu_pos_bounds (lane_length : R) :
  (2 <= lane_length)%R -> (1 <= rsu_pos lane_length <= lane_length - 1)%R.
Proof.
  intros Hlen. unfold rsu_pos, Rmax, Rmin.
  repeat destruct (Rle_dec _ _); lra.
Qed.

(** C8: the file written is "osm.add.xml".  Its [i]-th [inductionLoop]
    has identifier "rsu_<i>", lies on the first lane [<edge>_0] of an edge
    collected from the route of an emergency vehicle, a lane the simulator
    knows, at position [max(1, min(length / 2, length - 1))]; every
    collected edge whose first lane exists has exactly one loop; the
    identifiers are pairwise distinct; and for a lane of length at least 2
    the position lies in [[1, length - 1]]. *)
Theorem rsu_file (s : Sim) :
  let file := (generate_rsu s).1 in
  let loops := (generate_rsu s).2 in
  let s1 := (scan_edges s).1 in
  let emergency_edges := (scan_edges s).2 in
  file = "osm.add.xml"
  /\ (forall i il, loops !! i = Some il ->
        il_id il = "rsu_" +:+ pretty i
        /\ (exists edge_id, edge_id ∈ emergency_edges /\ il_lane il = edge_id +:+ "_0")
        /\ il_lane il ∈ lane_getIDList s1
        /\ il_pos il = Rmax 1 (Rmin (lane_getLength s1 (il_lane il) / 2)
                                 (lane_getLength s1 (il_lane il) - 1))
        /\ il_freq il = "1"
        /\ il_file il = "ev_detection_output.xml")
  /\ (forall edge_id,
        edge_id ∈ emergency_edges -> edge_id +:+ "_0" ∈ lane_getIDList s1 ->
        exists i il,
          loops !! i = Some il /\ il_lane il = edge_id +:+ "_0"
          /\ forall j il', loops !! j = Some il' -> il_lane il' = edge_id +:+ "_0" -> j = i)
  /\ NoDup (il_id <$> loops)
  /\ length loops
     = length (filter (fun e => e +:+ "_0" ∈ lane_getIDList s1) (elements emergency_edges))
  /\ (forall e, e ∈ emergency_edges ->
        exists k veh_id,
          (k <= 200)%nat
          /\ veh_id ∈ vehicle_getIDList (Nat.iter k simulationStep s)
          /\ vehicle_getVehicleClass (Nat.iter k simulationStep s) veh_id = "emergency"
          /\ e ∈ vehicle_getRoute (Nat.iter k simulationStep s) veh_id)
  /\ (forall lane_length, (2 <= lane_length)%R ->
        (1 <= rsu_pos lane_length <= lane_length - 1)%R).
Proof.
  intros file loops s1 emergency_edges.
  set (kept := filter (fun e => e +:+ "_0" ∈ lane_getIDList s1) (elements emergency_edges)).
  assert (Hloops : loops
            = imap (fun i rsu => mkInductionLoop ("rsu_" +:+ pretty i) (fst rsu) (snd rsu)
                                   "1" "ev_detection_output.xml")
                ((fun e => (e +:+ "_0", rsu_pos (lane_getLength s1 (e +:+ "_0")))) <$> kept)).
  { subst loops kept s1 emergency_edges. unfold generate_rsu.
    destruct (scan_edges s) as [s1 edges]. simpl. by rewrite place_spec. }
  assert (Hfile : file = "osm.add.xml").
  { subst file. unfold generate_rsu. by destruct (scan_edges s). }
  assert (Hlook : forall i il, loops !! i = Some il ->
            exists e, kept !! i = Some e
                      /\ il = mkInductionLoop ("rsu_" +:+ pretty i) (e +:+ "_0")
                                (rsu_pos (lane_getLength s1 (e +:+ "_0")))
                                "1" "ev_detection_output.xml").
  { intros i il Hi. rewrite Hloops in Hi. apply list_lookup_imap_Some in Hi as (rsu & Hr & ->).
    rewrite list_lookup_fmap in Hr. destruct (kept !! i) as [e|]; [| done].
    injection Hr as <-. by exists e. }
  assert (Hkept : forall e, e ∈ kept <-> e ∈ emergency_edges /\ e +:+ "_0" ∈ lane_getIDList s1).
  { intros e. subst kept. rewrite list_elem_of_filter, elem_of_elements. tauto. }
  assert (Hnodup : NoDup kept).
  { subst kept. apply NoDup_filter, NoDup_elements. }
  split_and!.
  - done.
  - intros i il Hi. destruct (Hlook i il Hi) as (e & He & ->). simpl.
    assert (Hin : e ∈ kept) by (apply list_elem_of_lookup; by exists i).
    apply Hkept in Hin as [Hin Hlane]. split_and!; try done. by exists e.
  - intros e He Hlane.
    assert (Hin : e ∈ kept) by (by apply Hkept).
    apply list_elem_of_lookup in Hin as [i Hi].
    exists i. eexists. split_and!.
    + rewrite Hloops, list_lookup_imap, list_lookup_fmap, Hi. done.
    + done.
    + intros j il' Hj Hl. destruct (Hlook j il' Hj) as (e' & He' & ->). simpl in Hl.
      apply append_inj_r in Hl as ->.
      by apply (proj1 (NoDup_alt kept) Hnodup j i e).
  - apply NoDup_alt. intros i j x Hi Hj.
    rewrite list_lookup_fmap in Hi, Hj.
    destruct (loops !! i) as [ili|] eqn:Hli; [| done].
    destruct (loops !! j) as [ilj|] eqn:Hlj; [| done].
    destruct (Hlook i ili Hli) as (ei & _ & ->). destruct (Hlook j ilj Hlj) as (ej & _ & ->).
    simpl in Hi, Hj. injection Hi as <-. injection Hj as Hj.
    apply String.app_inj in Hj. by apply pretty_nat_inj in Hj.
  - by rewrite Hloops, length_imap, length_fmap.
  - apply scan_edges_spec.
  - apply rsu_pos_bounds.
Qed.

End Rsu.

(** The ambulance of the small road drives over [e1] and [e2]; the lane
    [e1_0] is 80 long and gets its loop at 40. *)
Lemma rsu_file_witness :
  let s := Toy.mkSim (Toy.road [] 1) [] in
  exists i il,
    (GenerateRsu.generate_rsu s).2 !! i = Some il
    /\ GenerateRsu.il_lane il = "e1_0"
    /\ GenerateRsu.il_id il = "rsu_" +:+ pretty i
    /\ GenerateRsu.il_pos il = 40%R.
Proof.
  intros s.
  destruct (rsu_file s) as (_ & Hloop & Hone & _).
  assert (Hedge : "e1" ∈ (GenerateRsu.scan_edges s).2) by (vm_compute; reflexivity).
  assert (Hlane : "e1" +:+ "_0" ∈ lane_getIDList (GenerateRsu.scan_edges s).1).
  { change ("e1_0" ∈ ["e1_0"; "e1_1"; "e2_0"]). left. }
  destruct (Hone "e1" Hedge Hlane) as (i & il & Hi & Hl & _).
  destruct (Hloop i il Hi) as (Hid & _ & _ & Hpos & _).
  exists i, il. split; [exact Hi | split; [exact Hl | split; [exact Hid |]]].
  rewrite Hpos, Hl.
  change (lane_getLength (GenerateRsu.scan_edges s).1 ("e1" +:+ "_0")) with 80%R.
  unfold Rmax, Rmin. repeat destruct (Rle_dec _ _); lra.
Defined.

(** ** The dashboard's logs *)

Section Logs.
Context {Sim : Type} `{Traci Sim}.
Import Py Interface.

(** C10: [released] lists the values of the shared data at the moments the
    worker lets go of [log_lock], and the data change at no other moment.
    In every one of them, and so whenever the lock is free, the four
    per-ambulance lists have the same length, and so have
    [stopped_vehicle_counts] and [simulation_times].  The number a step
    appends to [stopped_vehicle_counts] is the number of the step's
    distinct vehicles that are slower than 0.1 and are not ambulances. *)
Theorem logs_aligned (s : Sim) (n : nat) :
  let st := Nat.iter n loop_body (initial s) in
  Forall aligned (released st)
  /\ aligned (logs st)
  /\ logs st = default empty_logs (last (released st))
  /\ (forall fuel st', run_simulation fuel s = Some st' ->
        Forall aligned (released st') /\ aligned (logs st')
        /\ logs st' = default empty_logs (last (released st')))
  /\ (forall k amb_speed alerted_total controlled_total l,
        let l' := log_ambulance k amb_speed alerted_total controlled_total l in
        length (time_log l') = S (length (time_log l))
        /\ length (ambulance_speed_log l') = S (length (ambulance_speed_log l))
        /\ length (vehicle_alert_count l') = S (length (vehicle_alert_count l))
        /\ length (traffic_light_control_log l') = S (length (traffic_light_control_log l)))
  /\ stopped_vehicle_counts (logs (loop_body st))
     = stopped_vehicle_counts (logs st)
       ++ [Z.of_nat (size (filter (stopped_other (sim (served st)))
                             (list_to_set (vehicle_getIDList (simulationStep (sim st)))
                                : gset string)))]
  /\ (forall veh_id, stopped_other (sim (served st)) veh_id
                     <-> (vehicle_getSpeed (sim (served st)) veh_id < 1 / 10)%R
                         /\ ~ (occurs_in "ambulance" (lower veh_id)
                               \/ vehicle_getVehicleClass (sim (served st)) veh_id = "emergency")).
Proof.
  intros st.
  assert (Hinit : aligned (logs (initial s)) /\ Forall aligned (released (initial s))
                  /\ logs (initial s) = default empty_logs (last (released (initial s)))).
  { by repeat split. }
  destruct Hinit as (I1 & I2 & I3).
  assert (Hall : forall m,
            Forall aligned (released (Nat.iter m loop_body (initial s)))
            /\ aligned (logs (Nat.iter m loop_body (initial s)))
            /\ logs (Nat.iter m loop_body (initial s))
               = default empty_logs (last (released (Nat.iter m loop_body (initial s))))).
  { intros m. destruct (worker_iter_spec m (initial s)) as (_ & Ha & Hl & _).
    destruct (Ha I1 I2). split_and!; try done. by apply Hl. }
  destruct (Hall n) as (A1 & A2 & A3). split_and!; try done.
  - intros fuel st' Hrun. apply worker_loop_some in Hrun as (m & _ & -> & _). apply Hall.
  - intros k v a c l. simpl. rewrite !length_app. simpl. lia.
  - apply worker_loop_body_spec.
  - intros veh_id. unfold stopped_other, is_ambulance.
    rewrite orb_false_iff, str_in_not_occurs, String.eqb_neq. tauto.
Qed.

End Logs.

(** * Further properties of the scripts *)

(** ** The signal state and the zone test, again *)

Section Zone.
Import Py.

Lemma occurs_in_trans (a b c : string) : occurs_in a b -> occurs_in b c -> occurs_in a c.
Proof.
  intros (p1 & q1 & ->) (p2 & q2 & ->). exists (p2 +:+ p1), (q1 +:+ q2).
  by rewrite !append_assoc.
Qed.

Lemma marks_has_green (amb_edge : string) (lanes : list string) :
  (exists i, String.get i (marks amb_edge lanes) = Some "G"%char)
  <-> on_controlled_lanes amb_edge lanes = true.
Proof.
  unfold on_controlled_lanes. rewrite existsb_exists. split.
  - intros [i Hi]. rewrite marks_get in Hi.
    destruct (lanes !! i) as [lane|] eqn:Hl; [| done]. simpl in Hi.
    exists lane. split.
    + apply list_elem_of_In, list_elem_of_lookup. by exists i.
    + by destruct (str_in amb_edge lane).
  - intros (lane & Hin & Hs). apply list_elem_of_In, list_elem_of_lookup in Hin as [i Hi].
    exists i. rewrite marks_get, Hi. simpl. by rewrite Hs.
Qed.

(** X13: the string built for a light is made of ['G'] and ['r'] only
    (never yellow, never a lower-case green), and it holds a ['G'] exactly
    when the light is on the ambulance's road, which is when the scripts
    use it: an override never turns every lane red. *)
Theorem signal_state_alphabet (amb_edge : string) (controlled_lanes : list string) :
  (forall i c, String.get i (signal_state amb_edge controlled_lanes) = Some c ->
               c = "G"%char \/ c = "r"%char)
  /\ ((exists i, String.get i (signal_state amb_edge controlled_lanes) = Some "G"%char)
      <-> on_controlled_lanes amb_edge controlled_lanes = true).
Proof.
  rewrite signal_state_marks. split.
  - intros i c Hi. rewrite marks_get in Hi.
    destruct (controlled_lanes !! i) as [lane|]; [| done]. simpl in Hi.
    destruct (str_in amb_edge lane); injection Hi as <-; [by left | by right].
  - apply marks_has_green.
Qed.

(** X14: the zone test matches substrings, so it is coarser than lane
    membership: when the road id [amb_edge] occurs inside another road id
    [other_edge], every light that is in the zone for [other_edge] is in
    the zone for [amb_edge] too; and with the empty road id every light
    that controls a lane is in the zone. *)
Theorem zone_is_coarse (amb_edge other_edge : string) (controlled_lanes : list string) :
  occurs_in amb_edge other_edge ->
  (on_controlled_lanes other_edge controlled_lanes = true ->
   on_controlled_lanes amb_edge controlled_lanes = true)
  /\ (on_controlled_lanes "" controlled_lanes = true <-> controlled_lanes <> []).
Proof.
  intros Hsub. split.
  - rewrite !on_controlled_lanes_occurs. intros (lane & Hin & Ho).
    exists lane. split; [done | by eapply occurs_in_trans].
  - rewrite on_controlled_lanes_occurs. split.
    + intros (lane & Hin & _) ->. by apply elem_of_nil in Hin.
    + destruct controlled_lanes as [|lane rest]; [done |]. intros _.
      exists lane. split; [left | by exists "", lane].
Qed.

End Zone.

Lemma zone_is_coarse_witness :
  on_controlled_lanes "e1" ["e10_0"; "e7_0"] = true
  /\ on_controlled_lanes "" ["e10_0"; "e7_0"] = true.
Proof.
  assert (Hsub : occurs_in "e1" "e10") by (by exists "", "0").
  destruct (zone_is_coarse "e1" "e10" ["e10_0"; "e7_0"] Hsub) as [Hzone Hempty].
  split; [apply Hzone; reflexivity | apply Hempty; discriminate].
Defined.

(** ** The candidate lanes, again *)

(** X2: for an ambulance on a lane of the edge ([0 <= index < lanes]),
    every candidate is a lane of the edge next to the ambulance's own;
    there are at most two candidates, no lane twice, and there is none
    exactly on a one-lane edge. *)
Theorem lane_options_in_range (amb_lane_index num_lanes : Z) :
  0 <= amb_lane_index < num_lanes ->
  (forall lane, In lane (AmbulanceComm.lane_options amb_lane_index num_lanes) ->
     0 <= lane < num_lanes /\ Z.abs (lane - amb_lane_index) = 1)
  /\ NoDup (AmbulanceComm.lane_options amb_lane_index num_lanes)
  /\ (length (AmbulanceComm.lane_options amb_lane_index num_lanes) <= 2)%nat
  /\ (AmbulanceComm.lane_options amb_lane_index num_lanes = [] <-> num_lanes = 1).
Proof.
  intros Hrange. unfold AmbulanceComm.lane_options.
  destruct (Z.ltb_spec (amb_lane_index + 1) num_lanes) as [Hup | Hup],
           (Z.geb_spec (amb_lane_index - 1) 0) as [Hdown | Hdown]; simpl; split_and!.
  all: try (intros lane Hin; repeat destruct Hin as [<- | Hin]; try done; lia).
  all: try (apply NoDup_nil_2 || apply NoDup_singleton).
  all: try (apply NoDup_cons_2; [| apply NoDup_singleton];
            intros Hin; apply list_elem_of_singleton in Hin; lia).
  all: try lia.
  all: split; intros; first [discriminate | reflexivity | lia | exfalso; lia].
Qed.

Lemma lane_options_in_range_witness :
  AmbulanceComm.lane_options 1 3 = [2; 0]
  /\ NoDup (AmbulanceComm.lane_options 1 3)
  /\ (AmbulanceComm.lane_options 0 1 = [] <-> 1 = 1).
Proof.
  destruct (lane_options_in_range 1 3 ltac:(lia)) as (_ & Hnd & _).
  destruct (lane_options_in_range 0 1 ltac:(lia)) as (_ & _ & _ & Hnone).
  split; [reflexivity | split; [exact Hnd | exact Hnone]].
Defined.

(** ** The loop position, again *)

(** X11: the position of a loop in closed form: the middle of the lane
    when the lane is at least 2 long, and 1 otherwise.  It is never below
    1; on a lane shorter than 2 it is past [length - 1], and on a lane
    shorter than 1 it is past the end of the lane. *)
Theorem rsu_pos_closed_form (lane_length : R) :
  ((2 <= lane_length)%R -> GenerateRsu.rsu_pos lane_length = (lane_length / 2)%R)
  /\ ((lane_length <= 2)%R -> GenerateRsu.rsu_pos lane_length = 1%R)
  /\ (1 <= GenerateRsu.rsu_pos lane_length)%R
  /\ ((lane_length < 2)%R -> (lane_length - 1 < GenerateRsu.rsu_pos lane_length)%R)
  /\ ((lane_length < 1)%R -> (lane_length < GenerateRsu.rsu_pos lane_length)%R).
Proof.
  unfold GenerateRsu.rsu_pos, Rmax, Rmin.
  split_and!; try intros Hl; repeat destruct (Rle_dec _ _); lra.
Qed.

(** ** An ambulance's turn in the main script, again *)

Section Turn.
Context {Sim : Type} `{Traci Sim}.
Import Py AmbulanceComm.
Local Abbreviation State := (@State Sim).

Lemma lanes_asked_app (l k : list Event) : lanes_asked (l ++ k) = lanes_asked l ++ lanes_asked k.
Proof. unfold lanes_asked. apply omap_app. Qed.

Lemma lanes_asked_light (evs : list Event) :
  forallb about_light evs = true -> lanes_asked evs = [].
Proof.
  induction evs as [|e evs IH]; simpl; [done |]. rewrite andb_true_iff. intros [He Hr].
  unfold lanes_asked in *. simpl. rewrite (IH Hr).
  destruct e as [[] | []]; done.
Qed.

Lemma status_light (evs : list Event) :
  forallb about_light evs = true -> List.filter status_line evs = [].
Proof.
  induction evs as [|e evs IH]; simpl; [done |]. rewrite andb_true_iff. intros [He Hr].
  rewrite (IH Hr). destruct e as [[] | []]; done.
Qed.

Lemma lane_options_shape (amb_lane_index num_lanes : Z) :
  (length (lane_options amb_lane_index num_lanes) <= 2)%nat
  /\ NoDup (lane_options amb_lane_index num_lanes)
  /\ forall lane, In lane (lane_options amb_lane_index num_lanes) ->
       Z.abs (lane - amb_lane_index) = 1.
Proof.
  unfold lane_options.
  destruct (amb_lane_index + 1 <? num_lanes), (amb_lane_index - 1 >=? 0); simpl; split_and!.
  all: try lia.
  all: try (apply NoDup_nil_2 || apply NoDup_singleton).
  all: try (apply NoDup_cons_2; [| apply NoDup_singleton];
            intros Hin; apply list_elem_of_singleton in Hin; lia).
  all: intros lane Hin; repeat destruct Hin as [<- | Hin]; try done; lia.
Qed.

Lemma prefix_shape (asked options : list Z) (index : Z) :
  asked `prefix_of` options ->
  (length options <= 2)%nat /\ NoDup options
  /\ (forall lane, In lane options -> Z.abs (lane - index) = 1) ->
  (length asked <= 2)%nat /\ NoDup asked
  /\ (forall lane, In lane asked -> Z.abs (lane - index) = 1).
Proof.
  intros [rest ->] (Hlen & Hnd & Hadj). rewrite length_app in Hlen.
  apply NoDup_app in Hnd as (Hnd & _ & _). split_and!; [lia | done |].
  intros lane Hin. apply Hadj, in_app_iff. by left.
Qed.

(** X3: in one turn the main script asks for at most two lanes, never for
    the same lane twice, and only for lanes next to the lane the ambulance
    was on when its turn began. *)
Theorem lane_calls_per_turn (vehicles : list string) (st : State) (amb_id : string) :
  let asked :=
    lanes_asked (issued (out st) (out (process_ambulance vehicles st amb_id))) in
  (length asked <= 2)%nat
  /\ NoDup asked
  /\ (forall lane, In lane asked ->
        Z.abs (lane - vehicle_getLaneIndex (sim st) amb_id) = 1).
Proof.
  intros asked.
  destruct (process_ambulance_out vehicles st amb_id)
    as (lights & lane_evs & Ho & Hl & _ & _ & Hp).
  assert (Heq : asked = lanes_asked lane_evs).
  { subst asked. rewrite Ho, issued_app.
    change ([Called (SetColor amb_id RED); Called (SetSpeedMode amb_id 0)] ++ ?x)
      with (Called (SetColor amb_id RED) :: Called (SetSpeedMode amb_id 0) :: x).
    unfold lanes_asked at 1. simpl. fold (lanes_asked (lights ++
      match detected vehicles st amb_id with
      | Some veh_id => [Printed (Alerting amb_id veh_id
            (Int_part (distance (vehicle_getPosition (sim st) amb_id)
               (vehicle_getPosition (sim (before_scan st amb_id)) veh_id))))]
      | None => []
      end ++ lane_evs)).
    rewrite !lanes_asked_app, (lanes_asked_light _ Hl).
    by destruct (detected vehicles st amb_id). }
  rewrite Heq. eapply prefix_shape; [exact Hp | apply lane_options_shape].
Qed.

Lemma tried_status (amb_id : string) (options : list Z) (st st' : State) (changed : bool) :
  tried amb_id options st st' changed ->
  exists evs,
    out st' = out st ++ evs
    /\ ((changed = false /\ List.filter status_line evs = [])
        \/ (changed = true
            /\ exists pre before_lane_id after_lane_id,
                 evs = pre ++ [Printed (LaneChanged amb_id before_lane_id after_lane_id)]
                 /\ before_lane_id <> after_lane_id
                 /\ List.filter status_line pre = [])).
Proof.
  induction 1 as [st | l rest st st' ch Hc Ht IH | l rest st st' s1 ch Hc Hid Ht IH
                 | l rest st s1 Hc Hid].
  - exists []. rewrite app_nil_r. split; [done | by left].
  - destruct IH as (evs & Ho & Hcase). simpl in Ho.
    exists (Called (ChangeLane amb_id l 10) :: Printed (LaneChangeError amb_id l) :: evs).
    split; [by rewrite Ho, <- !app_assoc |].
    destruct Hcase as [[-> Hf] | (-> & pre & b & a & -> & Hne & Hf)]; [by left |].
    right. split; [done |].
    by exists (Called (ChangeLane amb_id l 10) :: Printed (LaneChangeError amb_id l) :: pre), b, a.
  - destruct IH as (evs & Ho & Hcase). simpl in Ho.
    exists (Called (ChangeLane amb_id l 10) :: evs).
    split; [by rewrite Ho, <- !app_assoc |].
    destruct Hcase as [[-> Hf] | (-> & pre & b & a & -> & Hne & Hf)]; [by left |].
    right. split; [done |]. by exists (Called (ChangeLane amb_id l 10) :: pre), b, a.
  - eexists. split; [simpl; by rewrite <- !app_assoc |]. right. split; [done |].
    exists [Called (ChangeLane amb_id l 10)], (vehicle_getLaneID (sim st) amb_id),
           (vehicle_getLaneID (effect (ChangeLane amb_id l 10) (sim st)) amb_id).
    simpl. rewrite Hc. simpl. by split_and!.
Qed.

Lemma out_print (m : Message) (st : State) : out (print m st) = out st ++ [Printed m].
Proof. reflexivity. Qed.

Lemma closing_shape (amb_id : string) (lights mid tail : list Event) (m : Message) :
  forallb about_light lights = true ->
  List.filter status_line mid = [] ->
  List.filter status_line tail = [] ->
  status_line (Printed m) = true ->
  let evs := [Called (SetColor amb_id RED); Called (SetSpeedMode amb_id 0)]
               ++ lights ++ mid ++ tail ++ [Printed m] in
  length (List.filter status_line evs) = 1%nat /\ last evs = Some (Printed m).
Proof.
  intros Hl Hm Ht Hs evs. subst evs. split.
  - rewrite !List.filter_app, (status_light _ Hl), Hm, Ht.
    cbn [List.filter app]. by rewrite Hs.
  - by rewrite !app_assoc, last_snoc.
Qed.

(** X15: every turn of the main script ends with exactly one closing
    line, and prints no other: "moving freely" exactly when the scan
    detected nothing; otherwise "changed lane", with two different lane
    identifiers, or "vehicles on other edges are stopping". *)
Theorem turn_closing_line (vehicles : list string) (st : State) (amb_id : string) :
  let evs := issued (out st) (out (process_ambulance vehicles st amb_id)) in
  length (List.filter status_line evs) = 1%nat
  /\ exists m,
       last evs = Some (Printed m)
       /\ (m = MovingFreely amb_id
           \/ m = OthersStopping amb_id
           \/ exists before_lane_id after_lane_id,
                m = LaneChanged amb_id before_lane_id after_lane_id
                /\ before_lane_id <> after_lane_id)
       /\ (m = MovingFreely amb_id <-> detected vehicles st amb_id = None).
Proof.
  intros evs.
  destruct (before_scan_out st amb_id) as (lights & Hb & Hl).
  assert (Hst' : process_ambulance vehicles st amb_id
                 = match detected vehicles st amb_id with
                   | Some veh_id =>
                       react amb_id (vehicle_getRoadID (sim st) amb_id)
                         (vehicle_getLaneIndex (sim st) amb_id) true
                         (print (Alerting amb_id veh_id
                            (Int_part (distance (vehicle_getPosition (sim st) amb_id)
                               (vehicle_getPosition (sim (before_scan st amb_id)) veh_id))))
                            (before_scan st amb_id))
                   | None =>
                       react amb_id (vehicle_getRoadID (sim st) amb_id)
                         (vehicle_getLaneIndex (sim st) amb_id) false (before_scan st amb_id)
                   end) by done.
  subst evs. rewrite Hst'. destruct (detected vehicles st amb_id) as [veh_id|].
  - unfold react.
    match goal with |- context [try_lanes ?a ?o ?s] =>
      pose proof (try_lanes_tried a o s) as Ht; destruct (try_lanes a o s) as [st4 changed] end.
    cbn [fst snd] in Ht. apply tried_status in Ht as (tevs & Ho & Hcase).
    rewrite out_print in Ho.
    destruct Hcase as [[-> Hf] | (-> & pre & b & a & -> & Hne & Hf)]; cbn [negb].
    + rewrite out_print, Ho, Hb, <- !app_assoc, issued_app.
      match goal with |- context [?l1 ++ lights ++ ?mid ++ tevs ++ [Printed ?m]] =>
        destruct (closing_shape amb_id lights mid tevs m Hl eq_refl Hf eq_refl) as [Hn Hlast]
      end.
      split; [exact Hn |]. exists (OthersStopping amb_id).
      split; [exact Hlast | split; [by right; left |]]. split; intros; discriminate.
    + rewrite Ho, Hb, <- !app_assoc, issued_app.
      match goal with |- context [?l1 ++ lights ++ ?mid ++ pre ++ [Printed ?m]] =>
        destruct (closing_shape amb_id lights mid pre m Hl eq_refl Hf eq_refl) as [Hn Hlast]
      end.
      split; [exact Hn |]. exists (LaneChanged amb_id b a).
      split; [exact Hlast | split; [right; right; by exists b, a |]].
      split; intros; discriminate.
  - unfold react. rewrite out_print, Hb, <- !app_assoc, issued_app.
    destruct (closing_shape amb_id lights [] [] (MovingFreely amb_id) Hl eq_refl eq_refl eq_refl)
      as [Hn Hlast].
    split; [exact Hn |]. exists (MovingFreely amb_id).
    split; [exact Hlast | split; [by left | done]].
Qed.

(** X8: the two scans agree: on the same simulator answers, the main
    script's scan detects a vehicle exactly when the dashboard's count is
    not zero; the count is never negative and never more than the number
    of vehicles. *)
Theorem scan_agrees_with_count (s : Sim) (amb_id : string) (amb_pos : point)
    (amb_edge : string) (vehicles : list string) :
  let counted := Interface.count_alerted s amb_id amb_pos amb_edge vehicles in
  0 <= counted <= Z.of_nat (length vehicles)
  /\ (counted = 0
      <-> scan s amb_id amb_pos amb_edge (vehicle_getLaneIndex s amb_id) vehicles = None).
Proof.
  intros counted. subst counted. rewrite count_alerted_length, scan_none. split.
  - pose proof (filter_length_le
      (alerted s amb_id amb_pos amb_edge (vehicle_getLaneIndex s amb_id)) vehicles). lia.
  - induction vehicles as [|v rest IH]; simpl.
    + split; [| done]. intros _ u Hu. by apply elem_of_nil in Hu.
    + destruct (alerted s amb_id amb_pos amb_edge (vehicle_getLaneIndex s amb_id) v) eqn:Hv;
        simpl.
      * split; [lia |]. intros Hall. rewrite Hall in Hv; [done | left].
      * rewrite IH. split.
        -- intros Hall u Hu. apply elem_of_cons in Hu as [-> | Hu]; [done | by apply Hall].
        -- intros Hall u Hu. apply Hall. by right.
Qed.

End Turn.

(** ** What the dashboard's worker never does *)

Section Quiet.
Context {Sim : Type} `{Traci Sim}.
Import Py Interface.
Local Abbreviation State := (@State Sim).

Lemma quiet_process_tl (amb_edge tl : string) (st : State) (k : Z) :
  forallb quiet (out st) = true ->
  forallb quiet (out (process_tl amb_edge (st, k) tl).1) = true.
Proof.
  intros Hq.
  destruct (on_controlled_lanes amb_edge (trafficlight_getControlledLanes (sim st) tl)) eqn:Hon.
  - rewrite worker_process_tl_on by done. cbn [fst].
    rewrite worker_override_out, worker_take_control_out, forallb_app, Hq.
    by destruct (len _ =? len _).
  - by rewrite worker_process_tl_off.
Qed.

Lemma quiet_junctions (amb_edge : string) (junctions : list string) (st : State) (k : Z) :
  forallb quiet (out st) = true ->
  forallb quiet (out (fold_left (process_tl amb_edge) junctions (st, k)).1) = true.
Proof.
  revert st k. induction junctions as [|tl rest IH]; intros st k Hq; [done |].
  change (fold_left (process_tl amb_edge) (tl :: rest) (st, k))
    with (fold_left (process_tl amb_edge) rest (process_tl amb_edge (st, k) tl)).
  pose proof (quiet_process_tl amb_edge tl st k Hq) as Hq'.
  destruct (process_tl amb_edge (st, k) tl) as [st1 k1]. by apply IH.
Qed.

Lemma quiet_process_ambulance (vehicles : list string) (st : State) (amb_id : string) :
  forallb quiet (out st) = true ->
  forallb quiet (out (process_ambulance vehicles st amb_id)) = true.
Proof.
  intros Hq. rewrite worker_process_ambulance_unfold. cbv zeta. cbn [out with_lock set_counters].
  unfold worker_before_scan. apply quiet_junctions.
  cbn [out send]. by rewrite !forallb_app, Hq.
Qed.

Lemma quiet_ambulances (vehicles ambulances : list string) (st : State) :
  forallb quiet (out st) = true ->
  forallb quiet (out (fold_left (process_ambulance vehicles) ambulances st)) = true.
Proof.
  revert st. induction ambulances as [|amb rest IH]; intros st Hq; [done |].
  cbn [fold_left]. by apply IH, quiet_process_ambulance.
Qed.

Lemma quiet_loop_body (st : State) :
  forallb quiet (out st) = true -> forallb quiet (out (loop_body st)) = true.
Proof.
  intros Hq. rewrite worker_loop_body_unfold. cbv zeta. cbn [out with_lock].
  unfold served. apply quiet_ambulances. cbn [out with_lock set_counters send].
  by rewrite forallb_app, Hq.
Qed.

(** X4: whatever the simulator does and however long the worker runs, the
    dashboard's worker only ever calls [simulationStep], [setColor],
    [setSpeedMode] and [setRedYellowGreenState]: it never calls
    [setProgram] or [changeLane] and prints nothing; and its dict of saved
    programs only grows. *)
Theorem worker_never_restores (s : Sim) (n : nat) :
  let st := Nat.iter n loop_body (initial s) in
  forallb quiet (out st) = true
  /\ (forall tl prog, ~ In (Called (SetProgram tl prog)) (out st))
  /\ (forall veh_id lane duration, ~ In (Called (ChangeLane veh_id lane duration)) (out st))
  /\ (forall m, ~ In (Printed m) (out st))
  /\ original_tl_programs st ⊆ original_tl_programs (loop_body st).
Proof.
  intros st.
  assert (Hq : forallb quiet (out st) = true).
  { subst st. induction n as [|n IH]; [done |]. rewrite Nat.iter_succ. by apply quiet_loop_body. }
  split_and!.
  - exact Hq.
  - intros tl prog. by apply (forallb_excludes _ _ _ Hq).
  - intros veh_id lane duration. by apply (forallb_excludes _ _ _ Hq).
  - intros m. by apply (forallb_excludes _ _ _ Hq).
  - apply worker_loop_body_spec.
Qed.

End Quiet.

(** ** Taking and releasing control in the main script *)

Section Balance.
Context {Sim : Type} `{Traci Sim}.
Import Py AmbulanceComm.
Local Abbreviation State := (@State Sim).

Lemma takes_app (tl : string) (l k : list Event) :
  takes tl (l ++ k) = (takes tl l + takes tl k)%nat.
Proof. unfold takes. by rewrite List.filter_app, length_app. Qed.

Lemma releases_app (tl : string) (l k : list Event) :
  releases tl (l ++ k) = (releases tl l + releases tl k)%nat.
Proof. unfold releases. by rewrite List.filter_app, length_app. Qed.

Lemma restores_app (tl : string) (l k : list Event) :
  restores tl (l ++ k) = (restores tl l + restores tl k)%nat.
Proof. unfold restores. by rewrite List.filter_app, length_app. Qed.

Lemma neutral_counts (tl : string) (evs : list Event) :
  forallb neutral evs = true ->
  takes tl evs = 0%nat /\ releases tl evs = 0%nat /\ restores tl evs = 0%nat.
Proof.
  unfold takes, releases, restores.
  induction evs as [|e evs IH]; simpl; [done |]. rewrite andb_true_iff. intros [He Hr].
  destruct (IH Hr) as (I1 & I2 & I3). destruct e as [[] | []]; simpl; done.
Qed.

Lemma lane_change_neutral (amb_id : string) (evs : list Event) :
  forallb (about_lane_change amb_id) evs = true -> forallb neutral evs = true.
Proof.
  induction evs as [|e evs IH]; simpl; [done |]. rewrite !andb_true_iff. intros [He Hr].
  split; [| by apply IH]. destruct e as [[] | []]; done.
Qed.

Lemma balanced_neutral (m : gmap string string) (evs more : list Event) :
  forallb neutral more = true -> balanced m evs -> balanced m (evs ++ more).
Proof.
  intros Hn Hb tl. destruct (Hb tl) as [B1 B2].
  destruct (neutral_counts tl more Hn) as (N1 & N2 & N3).
  rewrite takes_app, releases_app, restores_app. lia.
Qed.

Lemma balanced_process_tl (amb_id amb_edge tl : string) (st : State) :
  balanced (original_tl_programs st) (out st) ->
  balanced (original_tl_programs (process_tl amb_id amb_edge st tl))
    (out (process_tl amb_id amb_edge st tl)).
Proof.
  intros Hb.
  destruct (on_controlled_lanes amb_edge (trafficlight_getControlledLanes (sim st) tl)) eqn:Hon.
  - rewrite process_tl_on by done.
    rewrite override_programs, override_out, take_control_programs, take_control_out.
    apply balanced_neutral; [by destruct (len _ =? len _) |].
    destruct (original_tl_programs st !! tl) as [prog|] eqn:Hm.
    + by rewrite app_nil_r.
    + intros t. destruct (Hb t) as [B1 B2].
      unfold takes, releases, restores in *.
      rewrite !List.filter_app, !length_app. simpl.
      destruct (String.eqb_spec tl t) as [<- | Hne].
      * rewrite lookup_insert_eq. rewrite Hm in B1. simpl. lia.
      * rewrite lookup_insert_ne by done. simpl. lia.
  - rewrite process_tl_off by done. unfold release.
    destruct (original_tl_programs st !! tl) as [prog|] eqn:Hm; [| done].
    simpl. intros t. destruct (Hb t) as [B1 B2].
    unfold takes, releases, restores in *.
    rewrite <- app_assoc, !List.filter_app, !length_app. simpl.
    destruct (String.eqb_spec tl t) as [<- | Hne].
    + rewrite lookup_delete_eq. rewrite Hm in B1. simpl. lia.
    + rewrite lookup_delete_ne by done. simpl. lia.
Qed.

Lemma balanced_junctions (amb_id amb_edge : string) (junctions : list string) (st : State) :
  balanced (original_tl_programs st) (out st) ->
  balanced (original_tl_programs (fold_left (process_tl amb_id amb_edge) junctions st))
    (out (fold_left (process_tl amb_id amb_edge) junctions st)).
Proof.
  revert st. induction junctions as [|tl rest IH]; intros st Hb; [done |].
  cbn [fold_left]. by apply IH, balanced_process_tl.
Qed.

Lemma balanced_process_ambulance (vehicles : list string) (st : State) (amb_id : string) :
  balanced (original_tl_programs st) (out st) ->
  balanced (original_tl_programs (process_ambulance vehicles st amb_id))
    (out (process_ambulance vehicles st amb_id)).
Proof.
  intros Hb.
  assert (Hscan : balanced (original_tl_programs (before_scan st amb_id))
                    (out (before_scan st amb_id))).
  { unfold before_scan. apply balanced_junctions. cbn [out send original_tl_programs].
    rewrite <- app_assoc. by apply balanced_neutral. }
  rewrite process_ambulance_unfold. cbv zeta.
  destruct (detected vehicles st amb_id) as [veh_id|].
  - match goal with |- context [react ?a ?e ?i true ?s] =>
      destruct (react_out a e i true s) as (evs & Ho & Hf & _);
      destruct (react_frame a e i true s) as [Hm _] end.
    rewrite Ho, Hm. cbn [out print original_tl_programs]. rewrite <- app_assoc.
    apply balanced_neutral; [| done].
    rewrite forallb_app. cbn [forallb neutral andb]. by apply (lane_change_neutral amb_id).
  - match goal with |- context [react ?a ?e ?i false ?s] =>
      destruct (react_out a e i false s) as (evs & Ho & Hf & _);
      destruct (react_frame a e i false s) as [Hm _] end.
    rewrite Ho, Hm. apply balanced_neutral; [| done]. by apply (lane_change_neutral amb_id).
Qed.

Lemma balanced_ambulances (vehicles ambulances : list string) (st : State) :
  balanced (original_tl_programs st) (out st) ->
  balanced (original_tl_programs (fold_left (process_ambulance vehicles) ambulances st))
    (out (fold_left (process_ambulance vehicles) ambulances st)).
Proof.
  revert st. induction ambulances as [|amb rest IH]; intros st Hb; [done |].
  cbn [fold_left]. by apply IH, balanced_process_ambulance.
Qed.

Lemma balanced_loop_body (st : State) :
  balanced (original_tl_programs st) (out st) ->
  balanced (original_tl_programs (loop_body st)) (out (loop_body st)).
Proof.
  intros Hb. unfold loop_body. cbv zeta. cbn [out original_tl_programs].
  apply balanced_ambulances. cbn [out send original_tl_programs].
  by apply balanced_neutral.
Qed.

(** X5: in every run of the main script, as long as it may last and
    whatever the simulator answers, taking and releasing a light
    alternate: a light with a saved program has been taken once more than
    released, a light without one as often as released; and [setProgram]
    has been called for a light exactly as often as the light was
    released, so never more often than it was taken. *)
Theorem take_release_balance (s : Sim) (n : nat) (tl : string) :
  let st := Nat.iter n loop_body (initial s) in
  takes tl (out st)
  = (releases tl (out st) + (if original_tl_programs st !! tl is Some _ then 1 else 0))%nat
  /\ restores tl (out st) = releases tl (out st)
  /\ (restores tl (out st) <= takes tl (out st))%nat.
Proof.
  intros st.
  assert (Hb : balanced (original_tl_programs st) (out st)).
  { subst st. induction n as [|n IH]; [by intros t |].
    rewrite Nat.iter_succ. by apply balanced_loop_body. }
  destruct (Hb tl) as [B1 B2]. split_and!; [done | done | lia].
Qed.

End Balance.

(** ** The saved programs after the lights of a turn *)

Section SavedLights.
Context {Sim : Type} `{Traci Sim}.
Import Py AmbulanceComm.
Local Abbreviation State := (@State Sim).

Hypothesis lanes_kept_by_state : forall (tl' state : string) (s : Sim) (tl : string),
  trafficlight_getControlledLanes (trafficlight_setRedYellowGreenState tl' state s) tl
  = trafficlight_getControlledLanes s tl.
Hypothesis lanes_kept_by_program : forall (tl' prog : string) (s : Sim) (tl : string),
  trafficlight_getControlledLanes (trafficlight_setProgram tl' prog s) tl
  = trafficlight_getControlledLanes s tl.

Lemma process_tl_lanes (amb_id amb_edge tl t : string) (st : State) :
  trafficlight_getControlledLanes (sim (process_tl amb_id amb_edge st tl)) t
  = trafficlight_getControlledLanes (sim st) t.
Proof.
  unfold process_tl, override, take_control, release.
  repeat (case_match; simpl); by rewrite ?lanes_kept_by_state, ?lanes_kept_by_program.
Qed.

Lemma process_tl_entry (amb_id amb_edge tl : string) (st : State) :
  is_Some (original_tl_programs (process_tl amb_id amb_edge st tl) !! tl)
  <-> on_controlled_lanes amb_edge (trafficlight_getControlledLanes (sim st) tl) = true.
Proof.
  destruct (on_controlled_lanes amb_edge (trafficlight_getControlledLanes (sim st) tl)) eqn:Hon.
  - rewrite process_tl_on by done. rewrite override_programs, take_control_programs.
    split; [done |]. intros _.
    destruct (original_tl_programs st !! tl) eqn:Hm; [by rewrite Hm |].
    by rewrite lookup_insert_eq.
  - rewrite process_tl_off by done. unfold release. split; [| done].
    destruct (original_tl_programs st !! tl) eqn:Hm; simpl.
    + rewrite lookup_delete_eq. by intros [? ?].
    + rewrite Hm. by intros [? ?].
Qed.

Lemma process_tl_others (amb_id amb_edge tl t : string) (st : State) :
  t <> tl ->
  original_tl_programs (process_tl amb_id amb_edge st tl) !! t = original_tl_programs st !! t.
Proof.
  intros Hne.
  destruct (on_controlled_lanes amb_edge (trafficlight_getControlledLanes (sim st) tl)) eqn:Hon.
  - rewrite process_tl_on by done. rewrite override_programs, take_control_programs.
    destruct (original_tl_programs st !! tl); [done | by rewrite lookup_insert_ne].
  - rewrite process_tl_off by done. unfold release.
    destruct (original_tl_programs st !! tl); [simpl; by rewrite lookup_delete_ne | done].
Qed.

Lemma junctions_entries (amb_id amb_edge : string) (junctions : list string) (st : State) :
  let st' := fold_left (process_tl amb_id amb_edge) junctions st in
  (forall t, trafficlight_getControlledLanes (sim st') t
             = trafficlight_getControlledLanes (sim st) t)
  /\ (forall t, In t junctions ->
        is_Some (original_tl_programs st' !! t)
        <-> on_controlled_lanes amb_edge (trafficlight_getControlledLanes (sim st) t) = true)
  /\ (forall t, ~ In t junctions -> original_tl_programs st' !! t = original_tl_programs st !! t).
Proof.
  revert st. induction junctions as [|tl rest IH]; intros st; cbn [fold_left].
  - split_and!; [done | intros t [] | done].
  - destruct (IH (process_tl amb_id amb_edge st tl)) as (L & E & O). split_and!.
    + intros t. by rewrite L, process_tl_lanes.
    + intros t Hin. destruct (in_dec string_dec t rest) as [Hr | Hr].
      * by rewrite (E t Hr), process_tl_lanes.
      * destruct Hin as [-> | Hin]; [| done]. rewrite (O t Hr). apply process_tl_entry.
    + intros t Hn. rewrite O by (intros Hr; apply Hn; by right).
      apply process_tl_others. intros ->. apply Hn. by left.
Qed.

(** X6: on a simulator whose light commands leave the controlled lanes
    of every light as they are, when the lights of an ambulance's turn are
    done the lights of the junction list that have a saved program are
    exactly those with the ambulance's road on their lanes, and the
    entries of all other lights are as before the turn.  So the turn of an
    ambulance on another road releases the lights a first ambulance
    holds. *)
Theorem saved_lights_after_scan (st : State) (amb_id : string) :
  let s2 := effect (SetSpeedMode amb_id 0) (effect (SetColor amb_id RED) (sim st)) in
  let amb_edge := vehicle_getRoadID (sim st) amb_id in
  let st3 := before_scan st amb_id in
  (forall tl, In tl (trafficlight_getIDList s2) ->
     is_Some (original_tl_programs st3 !! tl)
     <-> on_controlled_lanes amb_edge (trafficlight_getControlledLanes s2 tl) = true)
  /\ (forall tl, ~ In tl (trafficlight_getIDList s2) ->
        original_tl_programs st3 !! tl = original_tl_programs st !! tl).
Proof.
  intros s2 amb_edge st3.
  destruct (junctions_entries amb_id amb_edge (trafficlight_getIDList s2)
              (send (SetSpeedMode amb_id 0) (send (SetColor amb_id RED) st))) as (_ & E & O).
  split; [exact E | exact O].
Qed.

End SavedLights.

Lemma toy_lanes_kept (id : string) (f : Toy.Light -> Toy.Light) (s : Toy.Sim) (tl : string) :
  (forall l, Toy.l_id (f l) = Toy.l_id l /\ Toy.l_lanes (f l) = Toy.l_lanes l) ->
  Toy.l_lanes (Toy.light (Toy.update_light id f s) tl) = Toy.l_lanes (Toy.light s tl).
Proof.
  intros Hf. unfold Toy.light, Toy.update_light. simpl.
  induction (Toy.lights (Toy.now s)) as [|l rest IH]; simpl; [done |].
  destruct (String.eqb (Toy.l_id l) id).
  - destruct (Hf l) as [-> Hl]. by destruct (String.eqb (Toy.l_id l) tl).
  - by destruct (String.eqb (Toy.l_id l) tl).
Qed.

(** On the small road the ambulance is on [e1]: after its lights, [tl1]
    and [tl3] have a saved program and [tl2], which was held before, has
    none. *)
Lemma saved_lights_after_scan_witness :
  let s := Toy.mkSim (Toy.road [] 1) [] in
  let st := AmbulanceComm.mkState s {["tl2" := "7"]} 0 [] in
  let st3 := before_scan st "ambulance_1" in
  is_Some (AmbulanceComm.original_tl_programs st3 !! "tl1")
  /\ is_Some (AmbulanceComm.original_tl_programs st3 !! "tl3")
  /\ ~ is_Some (AmbulanceComm.original_tl_programs st3 !! "tl2").
Proof.
  intros s st st3.
  assert (K1 : forall (tl' state : string) (s : Toy.Sim) (tl : string),
            trafficlight_getControlledLanes (trafficlight_setRedYellowGreenState tl' state s) tl
            = trafficlight_getControlledLanes s tl).
  { intros tl' state s' tl. apply toy_lanes_kept. intros l. by split. }
  assert (K2 : forall (tl' prog : string) (s : Toy.Sim) (tl : string),
            trafficlight_getControlledLanes (trafficlight_setProgram tl' prog s) tl
            = trafficlight_getControlledLanes s tl).
  { intros tl' prog s' tl. apply toy_lanes_kept. intros l. by split. }
  destruct (saved_lights_after_scan K1 K2 st "ambulance_1") as [Hin _].
  split; [| split].
  - apply (Hin "tl1"); [by left | reflexivity].
  - apply (Hin "tl3"); [right; right; by left | reflexivity].
  - intros Hs. apply (Hin "tl2") in Hs; [| right; by left]. vm_compute in Hs. discriminate.
Defined.

(** ** The dashboard's time axes and vehicle table *)

Section Axes.
Context {Sim : Type} `{Traci Sim}.
Import Py Interface.
Local Abbreviation State := (@State Sim).

Lemma axes_process_ambulance (vehicles : list string) (st : State) (amb_id : string) :
  let st' := process_ambulance vehicles st amb_id in
  time_log (logs st') = time_log (logs st) ++ [step st]
  /\ simulation_times (logs st') = simulation_times (logs st)
  /\ length (ambulance_speed_log (logs st')) = S (length (ambulance_speed_log (logs st))).
Proof.
  destruct (worker_process_ambulance_spec vehicles st amb_id)
    as (_ & _ & (v & a & c & Hl) & _).
  cbv zeta. rewrite Hl. simpl. rewrite length_app. simpl. split_and!; [done | done | lia].
Qed.

Lemma axes_ambulances (vehicles ambulances : list string) (st : State) :
  let st' := fold_left (process_ambulance vehicles) ambulances st in
  time_log (logs st') = time_log (logs st) ++ replicate (length ambulances) (step st)
  /\ simulation_times (logs st') = simulation_times (logs st).
Proof.
  revert st. induction ambulances as [|amb rest IH]; intros st; cbn [fold_left].
  - simpl. by rewrite app_nil_r.
  - destruct (IH (process_ambulance vehicles st amb)) as [I1 I2].
    destruct (axes_process_ambulance vehicles st amb) as (A1 & A2 & _).
    destruct (worker_process_ambulance_spec vehicles st amb) as (Hstep & _).
    cbv zeta in *. rewrite I1, I2, A1, A2, Hstep, <- app_assoc. done.
Qed.

Lemma axes_loop_body (st : State) :
  time_log (logs (loop_body st))
  = time_log (logs st)
    ++ replicate (length (List.filter (is_ambulance (simulationStep (sim st)))
                            (vehicle_getIDList (simulationStep (sim st))))) (step st)
  /\ simulation_times (logs (loop_body st)) = simulation_times (logs st) ++ [step st]
  /\ length (stopped_vehicle_counts (logs (loop_body st)))
     = S (length (stopped_vehicle_counts (logs st))).
Proof.
  destruct (worker_loop_body_spec st) as (_ & _ & _ & Hcounts & _).
  rewrite Hcounts, length_app. rewrite worker_loop_body_unfold. cbv zeta.
  destruct (served_spec st) as (Hstep & _).
  cbn [logs with_lock log_vehicles time_log simulation_times]. rewrite Hstep.
  unfold served.
  match goal with |- context [fold_left (process_ambulance ?vs) ?ambs ?s] =>
    destruct (axes_ambulances vs ambs s) as [A1 A2] end.
  cbv zeta in A1, A2. rewrite A1, A2. simpl. split_and!; [done | done | lia].
Qed.

Lemma sorted_replicate (m : nat) (k : Z) : StronglySorted Z.le (replicate m k).
Proof.
  induction m as [|m IH]; simpl; constructor; [done |].
  apply Forall_replicate. lia.
Qed.

(** X9: after [n] steps of the worker, whatever the simulator did, the
    per-step axis [simulation_times] is [0, 1, ..., n-1] and there are [n]
    stopped-vehicle counts; the per-ambulance axis [time_log] never
    decreases and holds step numbers below [n] only; and step [n] adds
    the value [n] to it once for each ambulance of the step. *)
Theorem worker_time_axes (s : Sim) (n : nat) :
  let st := Nat.iter n loop_body (initial s) in
  step st = Z.of_nat n
  /\ simulation_times (logs st) = Z.of_nat <$> seq 0 n
  /\ length (stopped_vehicle_counts (logs st)) = n
  /\ StronglySorted Z.le (time_log (logs st))
  /\ Forall (fun k => 0 <= k < Z.of_nat n) (time_log (logs st))
  /\ time_log (logs (loop_body st))
     = time_log (logs st)
       ++ replicate (length (List.filter (is_ambulance (simulationStep (sim st)))
                               (vehicle_getIDList (simulationStep (sim st))))) (Z.of_nat n).
Proof.
  intros st.
  assert (Hinv : step st = Z.of_nat n
                 /\ simulation_times (logs st) = Z.of_nat <$> seq 0 n
                 /\ length (stopped_vehicle_counts (logs st)) = n
                 /\ StronglySorted Z.le (time_log (logs st))
                 /\ Forall (fun k => 0 <= k < Z.of_nat n) (time_log (logs st))).
  { subst st. induction n as [|n (I1 & I2 & I3 & I4 & I5)].
    - simpl. split_and!; try done. constructor.
    - rewrite Nat.iter_succ.
      destruct (axes_loop_body (Nat.iter n loop_body (initial s))) as (A1 & A2 & A3).
      destruct (worker_loop_body_spec (Nat.iter n loop_body (initial s))) as (Hstep & _).
      rewrite A1, A2, A3, Hstep, I1, I2, I3. split_and!.
      + lia.
      + by rewrite seq_S, fmap_app.
      + done.
      + apply StronglySorted_app_2; [| done | apply sorted_replicate].
        intros x1 x2 Hx1 Hx2. apply elem_of_replicate_inv in Hx2 as ->.
        rewrite Forall_forall in I5. specialize (I5 x1 Hx1). lia.
      + apply Forall_app. split.
        * eapply Forall_impl; [exact I5 |]. intros k Hk. simpl in Hk. lia.
        * apply Forall_replicate. lia. }
  destruct Hinv as (I1 & I2 & I3 & I4 & I5). split_and!; try done.
  destruct (axes_loop_body st) as (A1 & _). by rewrite A1, I1.
Qed.

(** X10: after a step, [vehicle_data] holds the vehicles of that step
    and no others (the entries of the step before are gone): a vehicle of
    the step's list is found with the values read for it, marked stopped
    exactly when its speed is below 0.1 and marked as an ambulance by the
    rule of the scripts; any other identifier is not found. *)
Theorem vehicle_data_after_step (st : State) (veh_id : string) :
  let s3 := sim (served st) in
  let vehicles := vehicle_getIDList (simulationStep (sim st)) in
  let data := vehicle_data (logs (loop_body st)) in
  (veh_id ∈ vehicles ->
     exists entry,
       data !! veh_id = Some entry
       /\ vd_speed entry = vehicle_getSpeed s3 veh_id
       /\ vd_class entry = vehicle_getVehicleClass s3 veh_id
       /\ vd_position entry = vehicle_getPosition s3 veh_id
       /\ (vd_stopped entry = true <-> (vehicle_getSpeed s3 veh_id < 1 / 10)%R)
       /\ vd_is_ambulance entry = is_ambulance s3 veh_id)
  /\ (veh_id ∉ vehicles -> data !! veh_id = None)
  /\ dom data = list_to_set vehicles.
Proof.
  intros s3 vehicles data.
  assert (Hdata : forall k, data !! k
                            = if decide (k ∈ vehicles) then Some (vehicle_entry s3 k) else None).
  { intros k. subst data. rewrite worker_loop_body_unfold. cbv zeta.
    cbn [logs with_lock log_vehicles vehicle_data].
    destruct (served_spec st) as (_ & Hempty & _). rewrite Hempty.
    rewrite fill_lookup. by rewrite lookup_empty. }
  split_and!.
  - intros Hin. exists (vehicle_entry s3 veh_id). rewrite Hdata, decide_True by done.
    split_and!; try done. simpl. apply Rltb_true.
  - intros Hnin. by rewrite Hdata, decide_False.
  - apply set_eq. intros k. rewrite elem_of_dom, elem_of_list_to_set, Hdata.
    case_decide; [by split; [| eexists] | split; [by intros [? ?] | done]].
Qed.

End Axes.

(** ** Collecting the edges in [generate_rsu.py] *)

Section Collecting.
Context {Sim : Type} `{Traci Sim}.
Import GenerateRsu.

Lemma advance_elem (n : nat) (s : Sim) (emergency_edges : gset string) (e : string) :
  e ∈ (advance n s emergency_edges).2
  <-> e ∈ emergency_edges
      \/ exists k veh_id,
           (1 <= k <= n)%nat
           /\ veh_id ∈ vehicle_getIDList (Nat.iter k simulationStep s)
           /\ vehicle_getVehicleClass (Nat.iter k simulationStep s) veh_id = "emergency"
           /\ e ∈ vehicle_getRoute (Nat.iter k simulationStep s) veh_id.
Proof.
  revert s emergency_edges. induction n as [|n IH]; intros s edges; cbn [advance snd].
  - split; [by left |]. intros [? | (k & v & Hk & _)]; [done | lia].
  - rewrite IH, collect_spec. split.
    + intros [[? | (v & Hv & Hc & Hr)] | (k & v & Hk & Hv & Hc & Hr)].
      * by left.
      * right. exists 1%nat, v. split; [lia | done].
      * right. exists (S k), v. rewrite Nat.iter_succ_r. split; [lia | done].
    + intros [? | (k & v & Hk & Hv & Hc & Hr)]; [by left; left |].
      destruct k as [|[|k]]; [lia | |].
      * left; right. by exists v.
      * right. exists (S k), v. rewrite Nat.iter_succ_r in Hv, Hc, Hr. split; [lia | done].
Qed.

(** X12: which edges are collected and how far the simulation is
    advanced for it.  If an emergency vehicle with a non-empty route is
    present at the start, the edges are the route edges of the emergency
    vehicles present at the start and the simulation is not advanced.
    Otherwise the simulation is advanced by exactly 200 steps and the
    edges are the route edges of the emergency vehicles seen after one of
    these steps.  When no edge is collected the file has no loop. *)
Theorem scan_edges_cases (s : Sim) :
  let on_route (k : nat) (e : string) :=
    exists veh_id,
      veh_id ∈ vehicle_getIDList (Nat.iter k simulationStep s)
      /\ vehicle_getVehicleClass (Nat.iter k simulationStep s) veh_id = "emergency"
      /\ e ∈ vehicle_getRoute (Nat.iter k simulationStep s) veh_id in
  ((exists e, on_route 0%nat e) ->
     (scan_edges s).1 = s /\ forall e, e ∈ (scan_edges s).2 <-> on_route 0%nat e)
  /\ (~ (exists e, on_route 0%nat e) ->
        (scan_edges s).1 = Nat.iter 200 simulationStep s
        /\ forall e, e ∈ (scan_edges s).2
                     <-> exists k, (1 <= k <= 200)%nat /\ on_route k e)
  /\ ((scan_edges s).2 = ∅ -> (generate_rsu s).2 = []).
Proof.
  intros on_route.
  assert (Hstart : forall e, e ∈ collect s ∅ <-> on_route 0%nat e).
  { intros e. rewrite collect_spec. subst on_route. simpl. split.
    - intros [He | ?]; [by apply not_elem_of_empty in He | done].
    - intros ?. by right. }
  split_and!.
  - intros [e0 He0]. unfold scan_edges.
    destruct (decide (collect s ∅ = ∅)) as [Hempty | Hsome].
    + apply Hstart in He0. rewrite Hempty in He0. by apply not_elem_of_empty in He0.
    + simpl. split; [done | exact Hstart].
  - intros Hnone. unfold scan_edges.
    destruct (decide (collect s ∅ = ∅)) as [Hempty | Hsome].
    + split; [apply advance_spec |]. intros e. rewrite advance_elem, Hempty. split.
      * intros [He | (k & v & Hk & Hv)]; [by apply not_elem_of_empty in He |].
        exists k. split; [done | by exists v].
      * intros (k & Hk & v & Hv). right. by exists k, v.
    + exfalso. apply Hsome. apply set_eq. intros e. rewrite Hstart. split.
      * intros He. exfalso. apply Hnone. by exists e.
      * intros He. by apply not_elem_of_empty in He.
  - intros Hempty. unfold generate_rsu. destruct (scan_edges s) as [s1 edges].
    simpl in Hempty. subst edges. by rewrite elements_empty.
Qed.

End Collecting.

(** ** The dashboard's count of controlled lights *)

Section Controlled.
Context {Sim : Type} `{Traci Sim}.
Import Py Interface.
Local Abbreviation State := (@State Sim).

Hypothesis lanes_kept : forall (tl' state : string) (s : Sim) (tl : string),
  trafficlight_getControlledLanes (trafficlight_setRedYellowGreenState tl' state s) tl
  = trafficlight_getControlledLanes s tl.

Lemma worker_process_tl_count (amb_edge tl : string) (st : State) (k : Z) :
  (forall t, trafficlight_getControlledLanes (sim (process_tl amb_edge (st, k) tl).1) t
             = trafficlight_getControlledLanes (sim st) t)
  /\ (process_tl amb_edge (st, k) tl).2
     = k + (if on_controlled_lanes amb_edge (trafficlight_getControlledLanes (sim st) tl)
            then 1 else 0).
Proof.
  destruct (on_controlled_lanes amb_edge (trafficlight_getControlledLanes (sim st) tl)) eqn:Hon.
  - rewrite worker_process_tl_on by done. cbn [fst snd]. split; [| done].
    intros t. unfold override.
    destruct (len _ =? len _); cbn [sim send effect];
      by rewrite ?lanes_kept, worker_take_control_sim.
  - rewrite worker_process_tl_off by done. cbn [fst snd]. split; [done | lia].
Qed.

Lemma worker_junctions_count (amb_edge : string) (junctions : list string) (st : State) (k : Z) :
  (fold_left (process_tl amb_edge) junctions (st, k)).2
  = k + Z.of_nat (length (List.filter
                            (fun tl => on_controlled_lanes amb_edge
                                         (trafficlight_getControlledLanes (sim st) tl))
                            junctions)).
Proof.
  revert st k. induction junctions as [|tl rest IH]; intros st k.
  - simpl. lia.
  - change (fold_left (process_tl amb_edge) (tl :: rest) (st, k))
      with (fold_left (process_tl amb_edge) rest (process_tl amb_edge (st, k) tl)).
    destruct (worker_process_tl_count amb_edge tl st k) as [Hl Hk].
    destruct (process_tl amb_edge (st, k) tl) as [st1 k1]. cbn [fst snd] in Hl, Hk.
    rewrite IH, Hk. cbn [List.filter].
    rewrite (List.filter_ext _
               (fun tl => on_controlled_lanes amb_edge
                            (trafficlight_getControlledLanes (sim st) tl)))
      by (intros t; by rewrite Hl).
    destruct (on_controlled_lanes amb_edge (trafficlight_getControlledLanes (sim st) tl));
      simpl; lia.
Qed.

(** X7: on a simulator whose [setRedYellowGreenState] leaves the
    controlled lanes of every light as they are, the number the worker
    logs for an ambulance in [traffic_light_control_log] is the running
    total of the step: the total so far plus the number of lights of the
    junction list with the ambulance's road on their lanes, whether or not
    the override went through for them. *)
Theorem lights_counted (vehicles : list string) (st : State) (amb_id : string) :
  let s2 := effect (SetSpeedMode amb_id 0) (effect (SetColor amb_id RED) (sim st)) in
  let amb_edge := vehicle_getRoadID (sim st) amb_id in
  let on_road :=
    List.filter
      (fun tl => on_controlled_lanes amb_edge (trafficlight_getControlledLanes s2 tl))
      (trafficlight_getIDList s2) in
  let st' := process_ambulance vehicles st amb_id in
  traffic_light_control_log (logs st')
  = traffic_light_control_log (logs st)
    ++ [traffic_lights_controlled st + Z.of_nat (length on_road)]
  /\ traffic_lights_controlled st'
     = traffic_lights_controlled st + Z.of_nat (length on_road).
Proof.
  intros s2 amb_edge on_road st'. subst st'.
  rewrite worker_process_ambulance_unfold. cbv zeta.
  destruct (worker_before_scan_untouched st amb_id) as (U1 & _ & _ & _ & U5).
  cbn [logs with_lock log_ambulance traffic_light_control_log traffic_lights_controlled
       set_counters].
  rewrite U1, U5. unfold worker_before_scan. rewrite worker_junctions_count. done.
Qed.

End Controlled.

(** On the small road two lights, [tl1] and [tl3], have the ambulance's
    road on their lanes; the override goes through for [tl1] only, and
    both are counted. *)
Lemma lights_counted_witness :
  let s := Toy.mkSim (Toy.road [] 1) [] in
  let st' := Interface.process_ambulance (vehicle_getIDList s) (Interface.initial s)
               "ambulance_1" in
  Interface.traffic_light_control_log (Interface.logs st') = [2]
  /\ Interface.traffic_lights_controlled st' = 2.
Proof.
  intros s st'.
  assert (K : forall (tl' state : string) (s : Toy.Sim) (tl : string),
            trafficlight_getControlledLanes (trafficlight_setRedYellowGreenState tl' state s) tl
            = trafficlight_getControlledLanes s tl).
  { intros tl' state s' tl. apply toy_lanes_kept. intros l. by split. }
  exact (lights_counted K (vehicle_getIDList s) (Interface.initial s) "ambulance_1").
Defined.
